(** * AMAGO agent update engine: a shallow embedding and its properties

    The development follows [src/amago/agent.py] (classes [Agent] and
    [MultiTaskAgent], function [binary_filter]) and the trainer methods
    [Experiment.compute_loss] and [Experiment.train_step] of
    [src/amago/learning.py].

    Conventions of the embedding.
    - Tensor entries are exact rationals ([Qc], canonical fractions with
      Leibniz equality).  The source computes in IEEE float32; rounding,
      infinities and NaN are outside the model, so every numeric statement
      below is about finite values and exact arithmetic.
    - A tensor of rank n is an n-fold nested list, outermost axis first.
      Out-of-range indexing, which raises in torch, is [None].
    - Library calls whose body is not part of the repository sources
      (networks, distributions, PopArt, [torch.randint]) are fields of the
      interface class [Backend]; random draws are explicit arguments.
    - Python exceptions are the [Raise] branch of the [result] monad. *)

From Stdlib Require Import QArith Qcanon Qround ZArith Lia.
From stdpp Require Import base numbers option list strings gmap pretty.

Open Scope Qc_scope.

(** ** Numbers *)

Definition qz (z : Z) : Qc := Qc_of_Z z.
Definition qfrac (n : Z) (d : positive) : Qc := Q2Qc (n # d).

(** [x > y] of Python on finite values. *)
Definition Qcgtb (x y : Qc) : bool := bool_decide (y < x).

(** [torch.bool -> .float()]. *)
Definition float_of_bool (b : bool) : Qc := if b then 1 else 0.

Definition Qcmin (x y : Qc) : Qc := if decide (x ≤ y) then x else y.
Definition Qcmax (x y : Qc) : Qc := if decide (x ≤ y) then y else x.

(** [x.clamp(lo, hi)] is [min(max(x, lo), hi)]. *)
Definition clamp (lo hi x : Qc) : Qc := Qcmin (Qcmax x lo) hi.

Definition qsum (l : list Qc) : Qc := foldr Qcplus 0 l.

(** Minimum of a non-empty list; reducing an empty axis raises in torch. *)
Definition qmin_list (l : list Qc) : option Qc :=
  match l with
  | [] => None
  | x :: r => Some (foldl Qcmin x r)
  end.

(** Mean of a non-empty list.  On an empty axis torch yields NaN, which has
    no rational counterpart: the model gives [None]. *)
Definition qmean_list (l : list Qc) : option Qc :=
  match l with
  | [] => None
  | _ => Some (qsum l / qz (Z.of_nat (length l)))
  end.

(** ** Tensors as nested lists *)

Abbreviation T1 := (list Qc).
Abbreviation T2 := (list (list Qc)).
Abbreviation T3 := (list (list (list Qc))).
Abbreviation T4 := (list (list (list (list Qc)))).
Abbreviation T5 := (list (list (list (list (list Qc))))).
Abbreviation I5 := (list (list (list (list (list nat))))).

Definition at3 {A} (t : list (list (list A))) (b l d : nat) : option A :=
  r ← t !! b; c ← r !! l; c !! d.
Definition at4 {A} (t : list (list (list (list A)))) (b l g e : nat) : option A :=
  r ← t !! b; c ← r !! l; x ← c !! g; x !! e.
Definition at5 {A} (t : list (list (list (list (list A))))) (b l c g e : nat)
  : option A :=
  r ← t !! b; s ← r !! l; x ← s !! c; y ← x !! g; y !! e.

(** Indexed traversal that fails as soon as one element fails. *)
Fixpoint imapM_go {A B} (f : nat → A → option B) (n : nat) (l : list A)
  : option (list B) :=
  match l with
  | [] => Some []
  | x :: r => y ← f n x; ys ← imapM_go f (S n) r; Some (y :: ys)
  end.
Definition imapM {A B} (f : nat → A → option B) (l : list A) : option (list B) :=
  imapM_go f 0 l.

Definition map2 {A B} (f : A → B) (t : list (list A)) : list (list B) :=
  fmap (M:=list) f <$> t.
Definition map3 {A B} (f : A → B) (t : list (list (list A)))
  : list (list (list B)) :=
  map2 f <$> t.
Definition map4 {A B} (f : A → B) (t : list (list (list (list A))))
  : list (list (list (list B))) :=
  map3 f <$> t.
Definition map5 {A B} (f : A → B) (t : list (list (list (list (list A)))))
  : list (list (list (list (list B)))) :=
  map4 f <$> t.

(** Elementwise binary operation on equal shapes. *)
Definition zip2 {A B C} (f : A → B → C) : list (list A) → list (list B) → list (list C) :=
  zip_with (zip_with f).
Definition zip3 {A B C} (f : A → B → C)
  : list (list (list A)) → list (list (list B)) → list (list (list C)) :=
  zip_with (zip2 f).
Definition zip4 {A B C} (f : A → B → C)
  : list (list (list (list A))) → list (list (list (list B)))
    → list (list (list (list C))) :=
  zip_with (zip3 f).
Definition zip5 {A B C} (f : A → B → C)
  : list (list (list (list (list A)))) → list (list (list (list (list B))))
    → list (list (list (list (list C)))) :=
  zip_with (zip4 f).

(** [x.sum()] over every entry. *)
Definition sum1 (t : T1) : Qc := qsum t.
Definition sum2 (t : T2) : Qc := qsum (sum1 <$> t).
Definition sum3 (t : T3) : Qc := qsum (sum2 <$> t).
Definition sum4 (t : T4) : Qc := qsum (sum3 <$> t).
Definition sum5 (t : T5) : Qc := qsum (sum4 <$> t).

(** [x[:, 1:, ...]] and [x[:, :-1, ...]]. *)
Definition drop_first_t {A} (t : list (list A)) : list (list A) := drop 1 <$> t.
Definition drop_last_t {A} (t : list (list A)) : list (list A) :=
  (λ row, take (length row - 1) row) <$> t.

(** ** Exceptions *)

Inductive exn :=
  ValueError | AssertionError | IndexError | RuntimeError | NameError | AttributeError.

Inductive result (A : Type) :=
| Ok (a : A)
| Raise (e : exn).
Arguments Ok {A} a.
Arguments Raise {A} e.

#[global] Instance result_ret : MRet result := λ A, Ok.
#[global] Instance result_bind : MBind result := λ A B f m,
  match m with
  | Ok a => f a
  | Raise e => Raise e
  end.

(** [assert c] *)
Definition assert_ (c : bool) : result unit :=
  if c then Ok tt else Raise AssertionError.

(** A failed index, shape or broadcast check of a tensor operation. *)
Definition lift_opt {A} (o : option A) : result A :=
  match o with
  | Some a => Ok a
  | None => Raise IndexError
  end.

#[global] Instance exn_eq_dec : EqDecision exn.
Proof. solve_decision. Defined.

(** ** Network parameters and target synchronisation
    ([Agent._full_copy], [_ema_copy], [hard_sync_targets], [soft_sync_targets]) *)

(** One parameter tensor, flattened; [module.parameters()] in order.
    The shape is not kept, so two tensors are told apart by their number
    of entries only: broadcasting between tensors of different shapes,
    which [copy_] and the moving average accept in torch, lies outside
    this model, which is used for networks built from one architecture
    (see [aligned]), whose paired tensors have one shape. *)
Abbreviation param := (list Qc).
Abbreviation params := (list (list Qc)).

(** [dst.data.copy_(src)] on two tensors of one shape: the destination
    receives the source's entries.  Tensors with different numbers of
    entries are rejected here (torch would broadcast some of them). *)
Definition copy_ (dst src : param) : option param :=
  if decide (length dst = length src) then Some src else None.

(** [for target_param, param in zip(target.parameters(), online.parameters())]:
    [zip] stops at the shorter list, later target parameters stay as they are. *)
Fixpoint _full_copy (target online : params) : option params :=
  match target, online with
  | tp :: ts, p :: ps =>
      tp' ← copy_ tp p; ts' ← _full_copy ts ps; Some (tp' :: ts')
  | ts, _ => Some ts
  end.

(** [target_param.data * (1.0 - tau) + param.data * tau] on two tensors
    of one shape, in exact arithmetic (float32 rounds each operation). *)
Definition ema_mix (tau : Qc) (tp p : param) : option param :=
  if decide (length tp = length p)
  then Some (zip_with (λ t o, t * (1 - tau) + o * tau) tp p)
  else None.

Fixpoint _ema_copy (tau : Qc) (target online : params) : option params :=
  match target, online with
  | tp :: ts, p :: ps =>
      m ← ema_mix tau tp p; tp' ← copy_ tp m;
      ts' ← _ema_copy tau ts ps; Some (tp' :: ts')
  | ts, _ => Some ts
  end.

(** The parameter sets an [Agent] owns. *)
Record networks := {
  tstep_encoder : params;
  traj_encoder : params;
  critics : params;
  actor : params;
  target_critics : params;
  target_actor : params;
  maximized_critics : params;
}.

(** [Agent.trainable_params]: everything but the target networks. *)
Definition trainable_params (n : networks) : list params :=
  [tstep_encoder n; traj_encoder n; critics n; actor n].

Definition hard_sync_targets (n : networks) : option networks :=
  tc ← _full_copy (target_critics n) (critics n);
  ta ← _full_copy (target_actor n) (actor n);
  mc ← _full_copy (maximized_critics n) (critics n);
  Some {| tstep_encoder := tstep_encoder n; traj_encoder := traj_encoder n;
          critics := critics n; actor := actor n;
          target_critics := tc; target_actor := ta; maximized_critics := mc |}.

Definition soft_sync_targets (tau : Qc) (n : networks) : option networks :=
  tc ← _ema_copy tau (target_critics n) (critics n);
  ta ← _ema_copy tau (target_actor n) (actor n);
  mc ← _full_copy (maximized_critics n) (critics n);
  Some {| tstep_encoder := tstep_encoder n; traj_encoder := traj_encoder n;
          critics := critics n; actor := actor n;
          target_critics := tc; target_actor := ta; maximized_critics := mc |}.

(** Two parameter lists of one architecture: same number of tensors, same
    number of entries in each. *)
Definition same_arch (x y : params) : Prop :=
  Forall2 (λ a b : param, length a = length b) x y.

(** Targets and the maximized copy are built from the same [ac_kwargs] as
    the online networks. *)
Definition aligned (n : networks) : Prop :=
  same_arch (target_critics n) (critics n)
  ∧ same_arch (target_actor n) (actor n)
  ∧ same_arch (maximized_critics n) (critics n).

(** Entry [j] of parameter tensor [i]. *)
Definition entry (p : params) (i j : nat) : option Qc := t ← p !! i; t !! j.


(** ** Agent configuration and construction ([Agent.__init__]) *)

(** The [gym.spaces] classes the constructor tests for; everything else,
    including [None], is [OtherSpace]. *)
Inductive space :=
| Discrete (n : nat)
| MultiBinary (n : nat)
| Box (shape : list nat)
| OtherSpace.

(** [Multigammas().discrete] and [Multigammas().continuous]. *)
Definition multigammas_discrete : list Qc :=
  [qfrac 1 10; qfrac 9 10; qfrac 95 100; qfrac 97 100; qfrac 99 100; qfrac 995 1000].
Definition multigammas_continuous : list Qc :=
  [qfrac 1 10; qfrac 9 10; qfrac 95 100; qfrac 97 100; qfrac 99 100; qfrac 995 1000].

(** Constructor arguments.  [init_networks] stands for the freshly
    initialised modules ([NCritics] three times, [Actor] twice and the two
    encoders); [actor_differentiable] is the capability flag
    [actions_differentiable] of the [Actor] built for these arguments. *)
Record init_args := {
  arg_action_space : space;
  arg_action_dim : option nat;
  arg_critic_loss_weight : Qc;
  arg_num_critics : nat;
  arg_num_critics_td : nat;
  arg_online_coeff : Qc;
  arg_offline_coeff : Qc;
  arg_gamma : Qc;
  arg_reward_multiplier : Qc;
  arg_tau : Qc;
  arg_fake_filter : bool;
  arg_use_target_actor : bool;
  arg_use_multigamma : bool;
  init_networks : networks;
  actor_differentiable : bool;
}.

Record agent := {
  action_dim : nat;
  discrete : bool;
  multibinary : bool;
  actions_differentiable : bool;
  reward_multiplier : Qc;
  fake_filter : bool;
  offline_coeff : Qc;
  online_coeff : Qc;
  tau : Qc;
  use_target_actor : bool;
  _critic_loss_weight : Qc;
  gammas : list Qc;
  num_critics : nat;
  num_critics_td : nat;
  nets : networks;
}.

(** The [if action_dim is None: ... else: ...] block: action dimension and
    the flags [discrete], [multibinary]. *)
Definition resolve_action_space (sp : space) (dim : option nat)
  : result (nat * bool * bool) :=
  match dim with
  | None =>
      match sp with
      | Discrete n => Ok (n, true, false)
      | MultiBinary n => Ok (n, false, true)
      | Box shape =>
          match last shape with
          | Some d => Ok (d, false, false)
          | None => Raise IndexError
          end
      | OtherSpace => Raise ValueError
      end
  | Some d => Ok (d, false, false)
  end.

Definition Agent__init__ (args : init_args) : result agent :=
  sp ← resolve_action_space (arg_action_space args) (arg_action_dim args);
  let '(dim, disc, multibin) := (sp : nat * bool * bool) in
  let multigammas := if disc then multigammas_discrete else multigammas_continuous in
  let gs := (if arg_use_multigamma args then multigammas else []) ++ [arg_gamma args] in
  _ ← assert_ (bool_decide (arg_num_critics_td args ≤ arg_num_critics args)%nat);
  match hard_sync_targets (init_networks args) with
  | None => Raise RuntimeError
  | Some n =>
      Ok {| action_dim := dim; discrete := disc; multibinary := multibin;
            actions_differentiable := actor_differentiable args;
            reward_multiplier := arg_reward_multiplier args;
            fake_filter := arg_fake_filter args;
            offline_coeff := arg_offline_coeff args;
            online_coeff := arg_online_coeff args;
            tau := arg_tau args;
            use_target_actor := arg_use_target_actor args;
            _critic_loss_weight := arg_critic_loss_weight args;
            gammas := gs;
            num_critics := arg_num_critics args;
            num_critics_td := arg_num_critics_td args;
            nets := n |}
  end.

(** [self.online_coeff > 0] and [self.offline_coeff > 0]. *)
Definition online_on (a : agent) : bool := Qcgtb (online_coeff a) 0.
Definition offline_on (a : agent) : bool := Qcgtb (offline_coeff a) 0.

(** [not self.fake_filter or self.online_coeff > 0]: the guard of the
    critic block (steps 3 to 5 of [forward]). *)
Definition critic_block_runs (a : agent) : bool :=
  negb (fake_filter a) || online_on a.

(** [binary_filter(adv, threshold)] on one entry, and its default. *)
Definition binary_filter (threshold : Qc) (adv : Qc) : bool := Qcgtb adv threshold.
Definition binary_filter_default_threshold : Qc := 0.

(** [MultiTaskAgent]: an [Agent] with two-hot critics and the FBC filter
    settings.  [fbc_filter_func] acts on the whole advantage tensor. *)
Record multitask_agent := {
  base : agent;
  fbc_filter_k : nat;
  fbc_filter_func : T4 → list (list (list (list bool)));
}.

(** The default [fbc_filter_func = binary_filter]. *)
Definition default_fbc_filter_func (adv : T4) : list (list (list (list bool))) :=
  map4 (binary_filter binary_filter_default_threshold) adv.

(** ** Tensor operations used by the update *)

Definition imapM2 {A B} (f : nat → nat → A → option B) (t : list (list A))
  : option (list (list B)) :=
  imapM (λ i, imapM (f i)) t.
Definition imapM3 {A B} (f : nat → nat → nat → A → option B)
  (t : list (list (list A))) : option (list (list (list B))) :=
  imapM (λ i, imapM2 (f i)) t.
Definition imapM4 {A B} (f : nat → nat → nat → nat → A → option B)
  (t : list (list (list (list A)))) : option (list (list (list (list B)))) :=
  imapM (λ i, imapM3 (f i)) t.
Definition imapM5 {A B} (f : nat → nat → nat → nat → nat → A → option B)
  (t : list (list (list (list (list A)))))
  : option (list (list (list (list (list B))))) :=
  imapM (λ i, imapM4 (f i)) t.

(** Broadcasting lookup: an axis of size one is read at index 0 for every
    requested index. *)
Definition bc {A} (l : list A) (i : nat) : option A :=
  match l with
  | [x] => Some x
  | _ => l !! i
  end.
Definition bc_at2 {A} (t : list (list A)) (g e : nat) : option A :=
  r ← bc t g; bc r e.
Definition bc_at4 {A} (t : list (list (list (list A)))) (b l g e : nat) : option A :=
  r ← bc t b; s ← bc r l; x ← bc s g; bc x e.
Definition bc_at5 {A} (t : list (list (list (list (list A))))) (b l c g e : nat)
  : option A :=
  r ← bc t b; s ← bc r l; x ← bc s c; y ← bc x g; bc y e.

(** Shapes.  [dimK] reads the extent of axis K off the first entries, as
    [B, L, D = x.shape] does; [shape_isN] is [x.shape == (...)]. *)
Definition dim1 {A} (t : list (list A)) : nat :=
  match t with [] => 0%nat | r :: _ => length r end.
Definition dim2 {A} (t : list (list (list A))) : nat :=
  match t with [] => 0%nat | r :: _ => dim1 r end.
Definition dim3 {A} (t : list (list (list (list A)))) : nat :=
  match t with [] => 0%nat | r :: _ => dim2 r end.

Definition shape_is1 {A} (n : nat) (t : list A) : bool :=
  bool_decide (length t = n).
Definition shape_is2 {A} (n m : nat) (t : list (list A)) : bool :=
  shape_is1 n t && forallb (shape_is1 m) t.
Definition shape_is3 {A} (n m k : nat) (t : list (list (list A))) : bool :=
  shape_is1 n t && forallb (shape_is2 m k) t.
Definition shape_is4 {A} (n m k j : nat) (t : list (list (list (list A)))) : bool :=
  shape_is1 n t && forallb (shape_is3 m k j) t.
Definition shape_is5 {A} (n m k j i : nat)
  (t : list (list (list (list (list A))))) : bool :=
  shape_is1 n t && forallb (shape_is4 m k j i) t.

(** [torch.zeros((B, L, G, 1))] and friends. *)
Definition full4 (b l g e : nat) (x : Qc) : T4 :=
  replicate b (replicate l (replicate g (replicate e x))).

(** [repeat(x, "b l a -> b l G a")] *)
Definition repeat_g {A} (G : nat) (t : list (list A)) : list (list (list A)) :=
  map2 (replicate G) t.
(** [repeat(x, "b l r -> b l 1 G r")] *)
Definition repeat_1g {A} (G : nat) (t : list (list A))
  : list (list (list (list A))) :=
  map2 (λ v, [replicate G v]) t.
(** [repeat(x, "b l 1 -> b l C G 1")] *)
Definition repeat_cg {A} (C G : nat) (t : list (list A))
  : list (list (list (list A))) :=
  map2 (λ v, replicate C (replicate G v)) t.

(** [torch.cat((a, a[:, -1, ...].clone().unsqueeze(1)), axis=1)]: index -1
    on an empty time axis raises. *)
Definition dup_last_step {A} (t : list (list A)) : option (list (list A)) :=
  mapM (λ row, x ← last row; Some (row ++ [x])) t.

(** The column along axis 2 at position (b, l, ., g, e). *)
Definition column3 {A} (s : list (list (list A))) (g e : nat) : option (list A) :=
  mapM (λ row : list (list A), y ← row !! g; y !! e) s.
Definition column5 {A} (t : list (list (list (list (list A))))) (b l g e : nat)
  : option (list A) :=
  r ← t !! b; s ← r !! l; column3 s g e.

(** Reduction over axis 2 with [keepdims=True]: the reduced axis keeps
    extent one.  A zero-length axis 2 gives [None]. *)
Definition reduce_slice {A B} (f : list A → option B) (s : list (list (list A)))
  : option (list (list (list B))) :=
  row0 ← head s;
  r ← imapM2 (λ g e _, col ← column3 s g e; f col) row0;
  Some [r].
Definition reduce_dim2 {A B} (f : list A → option B)
  (t : list (list (list (list (list A)))))
  : option (list (list (list (list (list B))))) :=
  mapM (mapM (reduce_slice f)) t.

(** The same reduction without [keepdims]: axis 2 disappears. *)
Definition reduce_slice_drop {A B} (f : list A → option B)
  (s : list (list (list A))) : option (list (list B)) :=
  row0 ← head s;
  imapM2 (λ g e _, col ← column3 s g e; f col) row0.
Definition reduce_dim2_drop {A B} (f : list A → option B)
  (t : list (list (list (list (list A)))))
  : option (list (list (list (list B)))) :=
  mapM (mapM (reduce_slice_drop f)) t.

(** [x.min(2, keepdims=True).values], [x.mean(2, keepdims=True)],
    [x.min(2).values], [x.mean(2)] and [mask.all(2, keepdim=True)]. *)
Definition min_dim2_keep (t : T5) : option T5 := reduce_dim2 qmin_list t.
Definition mean_dim2_keep (t : T5) : option T5 := reduce_dim2 qmean_list t.
Definition min_dim2 (t : T5) : option T4 := reduce_dim2_drop qmin_list t.
Definition mean_dim2 (t : T5) : option T4 := reduce_dim2_drop qmean_list t.
Definition all_dim2_keep (t : T5) : option (list (list (list (list (list bool))))) :=
  reduce_dim2 (λ col, Some (forallb (λ x, bool_decide (x ≠ 0)) col)) t.

(** [torch.take_along_dim(inp, idx, dim=2)]:
    [out[b][l][k][g][e] = inp[b][l][idx[b][l][k][g][e]][g][e]]. *)
Definition take_along_dim2 (inp : T5) (idx : I5) : option T5 :=
  imapM5 (λ b l _ g e i, at5 inp b l i g e) idx.

(** [torch.randint(low=0, high=C, size=(B, L, K, G, 1))].  The source of
    randomness is the stream [raw]; position [p] of the flattened result
    consumes [raw p].  [high = 0] raises. *)
Definition flat_index5 (L K G E : nat) (b l k g e : nat) : nat :=
  ((((b * L + l) * K + k) * G + g) * E + e)%nat.
Definition torch_randint (high : nat) (B L K G E : nat) (raw : nat → nat)
  : option I5 :=
  if decide (high = 0%nat) then None
  else Some ((λ b, (λ l, (λ k, (λ g, (λ e,
         (raw (flat_index5 L K G E b l k g e) `mod` high)%nat)
         <$> seq 0 E) <$> seq 0 G) <$> seq 0 K) <$> seq 0 L) <$> seq 0 B).

(** [(~((rl2s == pad).all(-1, keepdim=True))).float()]: a timestep is valid
    iff its rl2 vector is not entirely the padding value. *)
Definition state_mask_of (pad : Qc) (rl2s : T3) : T3 :=
  map2 (λ v : T1, [float_of_bool (negb (forallb (λ x, bool_decide (x = pad)) v))])
    rl2s.

(** ** Collaborators outside the repository sources

    [actor_critic], [utils], [loading] and the trajectory encoders are not
    part of the sources at hand.  Their calls are the fields of [Backend]:
    nothing is assumed about what they compute. *)

Class Backend := {
  ObsFrame : Type;
  GoalFrame : Type;
  Hidden : Type;
  (** actor output over a whole sequence, [B, L, G, ...] *)
  Dist : Type;
  (** actor output for one timestep, [B, G, ...] *)
  StepDist : Type;
  (** critic output of the two-hot variant *)
  BinDist : Type;
  (** one pseudo-random draw of a sampler *)
  Seed : Type;
  (** the statistics held by a [PopArtLayer] *)
  PopArt : Type;
  (** a value logged for wandb *)
  Stat : Type;

  (** [loading.MAGIC_PAD_VAL] *)
  MAGIC_PAD_VAL : Qc;

  tstep_encoder_fwd :
    params → gmap string (list (list ObsFrame)) → list (list GoalFrame) → T3 → T3;
  (** entries the encoder writes into [log_dict] *)
  tstep_encoder_log :
    params → gmap string (list (list ObsFrame)) → list (list GoalFrame) → T3
    → gmap string Stat;
  traj_emb_dim : nat;
  traj_encoder_fwd : params → T3 → list (list Z) → option Hidden → T3 * Hidden;

  actor_fwd : params → T3 → Dist;
  dist_probs : Dist → T4;
  dist_sample : Dist → Seed → T4;
  dist_rsample : Dist → Seed → T4;
  dist_mean : Dist → T4;
  (** [a_dist.sample((K,))], axis 0 is the sample index *)
  dist_sample_k : Dist → nat → Seed → list T4;
  (** [log_prob] of an index tensor [B, L, G] (categorical) *)
  dist_log_prob_index : Dist → list (list (list nat)) → T3;
  (** [log_prob] of an action tensor [B, L, G, A] *)
  dist_log_prob : Dist → T4 → T4;
  (** [actor_critic.DiscreteLikeContinuous] *)
  discrete_like_continuous : Dist → Dist;

  actor_step : params → T2 → StepDist;
  step_probs : StepDist → T3;
  step_sample : StepDist → Seed → T3;
  step_mean : StepDist → T3;

  (** [NCritics.forward]: values [B, L, C, G, 1] (the second output, phi,
      is never used) *)
  critics_fwd : params → T3 → T4 → T5;
  (** [NCriticsTwoHot] *)
  critics_twohot_fwd : params → T3 → T4 → BinDist;
  num_bins : nat;
  bin_probs : BinDist → T5;
  bin_logits : BinDist → T5;
  bin_dist_to_raw_vals : BinDist → T5;
  raw_vals_to_labels : T5 → T5;
  (** [F.cross_entropy(logits, labels, reduction="none")] on one row *)
  cross_entropy : T1 → T1 → Qc;

  (** [PopArtLayer.__call__(x, normalized)] on [B, L, C, G, 1] and on
      [B, L, G, 1] inputs *)
  popart_fwd5 : PopArt → bool → T5 → T5;
  popart_fwd4 : PopArt → bool → T4 → T4;
  popart_update_stats :
    PopArt → T5 → list (list (list (list (list bool)))) → PopArt;
  popart_normalize_values5 : PopArt → T5 → T5;
  popart_normalize_values4 : PopArt → T4 → T4;

  (** the values computed by the wandb helpers [_td_stats],
      [_popart_stats], [_policy_stats] and [_filter_stats], by key *)
  stat_td : string → T5 → T5 → T5 → T5 → T5 → Stat;
  (** the [wandb.Histogram] entries of [MultiTaskAgent._td_stats] *)
  stat_td_bins : string → T5 → T5 → Stat;
  stat_popart : string → PopArt → Stat;
  stat_policy : string → T4 → Dist → Stat;
  stat_filter : string → T4 → T4 → T4 → Stat;
  (** accumulated gradients and the optimizer's own state *)
  Grads : Type;
  OptState : Type;
  zero_grad : Grads → Grads;
  (** [loss.backward()]: the gradients of the loss of this pass, added to
      the accumulated ones *)
  backward_pass : Grads → networks → option Qc → Grads;
  clip_grad_norm_ : Grads → Grads;
  (** [optimizer.step()] on the trainable parameters (encoders, critics,
      actor); the flag is [accelerator.sync_gradients] *)
  optimizer_step :
    OptState → Grads → bool → params * params * params * params
    → OptState * (params * params * params * params);
  lr_schedule_step : OptState → OptState;
  stat_grad_norm : string → Grads → Stat;

  (** [f"{gamma:.3f}"] and [f"{gamma : .3f}"] *)
  fmt_gamma : Qc → string;
  fmt_gamma_sp : Qc → string;
}.

(** [Batch] / [AmagoBatch] *)
Record batch `{Backend} := {
  obs : gmap string (list (list ObsFrame));
  goals : list (list GoalFrame);
  rl2s : T3;
  actions : T3;
  rews : T3;
  dones : T3;
  time_idxs : list (list Z);
}.

(** The pseudo-random choices of one forward pass. *)
Record draws `{Backend} := {
  seed_agent : Seed;
  seed_prime : Seed;
  seed_fbc : Seed;
  seed_dpg : Seed;
  raw_subset : nat → nat;
}.

(** ** Python dictionaries *)

(** A dict literal or comprehension: a later pair with the same key wins. *)
Definition py_dict {V} (l : list (string * V)) : gmap string V :=
  list_to_map (reverse l).
(** [a | b] and [a.update(b)]: the entries of [b] win. *)
Definition py_union {V} (a b : gmap string V) : gmap string V := b ∪ a.

(** ** The wandb helpers of [Agent] (keys as in the source)

    The helpers are modelled by the keys they write; the values are the
    collaborators' [stat_*].  A helper that fails while it computes a
    value is not modelled: [_td_stats] takes [.min()] and [.max()] of the
    valid TD targets, which raise on a logging step without any valid
    transition. *)

Section logging.
Context `{Backend}.

Definition _td_stats (gs : list Qc) (mask raw_q_s_a_g q_s_a_g r td_target : T5)
  : gmap string Stat :=
  let v k := (k, stat_td k mask raw_q_s_a_g q_s_a_g r td_target) in
  let per_gamma :=
    mjoin ((λ gamma,
      [v ("Q(s, a) (global mean, rescaled) gamma=" +:+ fmt_gamma gamma);
       v ("Q(s,a) (global mean, raw scale) gamma=" +:+ fmt_gamma gamma);
       v ("Q(s, a) Ensemble Stdev. (raw scale, ignoring padding) gamma="
            +:+ fmt_gamma gamma)]) <$> gs) in
  py_union (py_dict per_gamma)
    (py_dict [v "Q(s, a) (global std, rescaled, ignoring padding)";
              v "Min TD Target";
              v "Max TD Target";
              v "TD Target (test-time gamma)";
              v "Mean Reward (in training sequences)";
              v "real_return"]).

Definition _popart_stats (pa : PopArt) : gmap string Stat :=
  let v k := (k, stat_popart k pa) in
  py_dict [v "PopArt mu (mean over gamma)";
           v "PopArt nu (mean over gamma)";
           v "PopArt w (mean over gamma)";
           v "PopArt b (mean over gamma)";
           v "PopArt sigma (mean over gamma)"].

Definition _policy_stats (disc : bool) (mask : T4) (a_dist : Dist)
  : gmap string Stat :=
  let v k := (k, stat_policy k mask a_dist) in
  if disc then
    py_dict [v "Policy Per-timestep Entropy (test-time gamma)";
             v "Policy Per-timstep Low Prob. (test-time gamma)";
             v "Policy Per-timestep High Prob. (test-time gamma)";
             v "Policy Overall Highest Prob."]
  else py_dict [v "Policy Entropy (test-time gamma)"].

Definition _filter_stats (gs : list Qc) (mask logp_a filter_ : T4)
  : gmap string Stat :=
  let mask := drop_last_t mask in
  let v k := (k, stat_filter k mask logp_a filter_) in
  let stats :=
    py_dict [v "Minimum Action Logprob";
             v "Maximum Action Logprob";
             v "Pct. of Actions Approved by Binary FBC Filter (All Gammas)"] in
  if bool_decide (dim2 filter_ = length gs) then
    py_union stats
      (py_dict ((λ gamma,
         v ("Pct. of Actions Approved by Binary FBC (gamma = "
              +:+ fmt_gamma_sp gamma +:+ ")")) <$> gs))
  else stats.

End logging.

(** ** [Agent.forward]: scalar critics *)

Section agent_forward.
Context `{Backend}.

(** [a.clamp(0, 1.0) if self.discrete else a.clamp(-1., 1.)] *)
Definition clamp_actions (disc : bool) (a : T3) : T3 :=
  map3 (if disc then clamp 0 1 else clamp (-1) 1) a.

(** Step 4, the action at the next state:
    [a_prime_dist = self.target_actor(s_rep) if self.use_target_actor else a_dist]
    and [ap = a_prime_dist.probs if self.discrete else a_prime_dist.sample()]. *)
Definition a_prime_dist_of (a : agent) (s_rep : T3) (a_dist : Dist) : Dist :=
  if use_target_actor a then actor_fwd (target_actor (nets a)) s_rep else a_dist.
Definition ap_of (a : agent) (a_prime_dist : Dist) (sd : Seed) : T4 :=
  if discrete a then dist_probs a_prime_dist else dist_sample a_prime_dist sd.

(** [q_targ_sp_ap_gp]: the target critics at [(s_rep[:, 1:], ap[:, 1:])],
    then [self.popart(., normalized=False)]. *)
Definition q_targ_of (a : agent) (pa : PopArt) (s_rep : T3) (ap : T4) : T5 :=
  popart_fwd5 pa false
    (critics_fwd (target_critics (nets a)) (drop_first_t s_rep) (drop_first_t ap)).

(** [ensemble_td_target = r + gamma * (1.0 - d) * q_targ_sp_ap_gp] with
    [gamma = self.gammas.unsqueeze(-1)]; [r] and [d] broadcast along the
    critic axis, [gamma] along batch, time and critics. *)
Definition ensemble_td_target_of (gs : list Qc) (r d q : T5) : option T5 :=
  let gamma : T2 := (λ x, [x]) <$> gs in
  imapM5 (λ b l c g e qv,
    rv ← bc_at5 r b l c g e;
    dv ← bc_at5 d b l c g e;
    gv ← bc_at2 gamma g e;
    Some (rv + gv * (1 - dv) * qv)) q.

(** [r] and [d] of step 1. *)
Definition r_of (a : agent) (G : nat) (rews : T3) : T5 :=
  repeat_1g G (map3 (λ x, reward_multiplier a * x) rews).
Definition d_of (G : nat) (dones : T3) : T5 := repeat_1g G dones.

(** The [if self.online_coeff > 0: min else: mean] of step 4. *)
Definition aggregate_td (a : agent) (td_target_rand : T5) : option T5 :=
  if online_on a then min_dim2_keep td_target_rand
  else mean_dim2_keep td_target_rand.

(** What the critic block hands to the later steps. *)
Record critic_out := {
  q_s_a_agent_g : T5;
  q_s_a_g : T5;
  td_target : T5;
  critic_loss_t : T5;
  popart_after : PopArt;
  critic_info : gmap string Stat;
}.

(** Steps 3 (critic part), 4 and 5. *)
Definition critic_block (a : agent) (pa : PopArt) (rnd : draws) (log_step : bool)
  (B L C G D_action : nat) (s_rep : T3) (a_dist : Dist) (a_agent a_buffer : T4)
  (r d critic_mask : T5) : result critic_out :=
  let q_agent := critics_fwd (maximized_critics (nets a)) s_rep a_agent in
  _ ← assert_ (shape_is5 B L C G 1 q_agent);
  let q := critics_fwd (critics (nets a)) (drop_last_t s_rep) (drop_last_t a_buffer) in
  let a_prime_dist := a_prime_dist_of a s_rep a_dist in
  let ap := ap_of a a_prime_dist (seed_prime rnd) in
  _ ← assert_ (shape_is4 B L G D_action ap);
  let q_targ := q_targ_of a pa s_rep ap in
  _ ← assert_ (shape_is5 B (L - 1) C G 1 q_targ);
  ensemble_td_target ← lift_opt (ensemble_td_target_of (gammas a) r d q_targ);
  _ ← assert_ (shape_is5 B (L - 1) C G 1 ensemble_td_target);
  random_subset ←
    match torch_randint C B (L - 1) (num_critics_td a) G 1 (raw_subset rnd) with
    | Some i => Ok i
    | None => Raise RuntimeError
    end;
  td_target_rand ← lift_opt (take_along_dim2 ensemble_td_target random_subset);
  td ← lift_opt (aggregate_td a td_target_rand);
  _ ← assert_ (shape_is5 B (L - 1) 1 G 1 td);
  mask_all ← lift_opt (all_dim2_keep critic_mask);
  let pa' := popart_update_stats pa td mask_all in
  let td_target_norm := popart_normalize_values5 pa' td in
  _ ← assert_ (shape_is5 B (L - 1) 1 G 1 td_target_norm);
  _ ← assert_ (shape_is5 B (L - 1) C G 1 q);
  closs ← lift_opt (imapM5 (λ b l c g e qv,
             tv ← bc_at5 td_target_norm b l c g e;
             Some ((qv - tv) * (qv - tv))) (popart_fwd5 pa' true q));
  _ ← assert_ (shape_is5 B (L - 1) C G 1 closs);
  let info :=
    if log_step then
      py_union (_td_stats (gammas a) critic_mask q (popart_fwd5 pa' false q) r td)
               (_popart_stats pa')
    else ∅ in
  Ok {| q_s_a_agent_g := q_agent; q_s_a_g := q; td_target := td;
        critic_loss_t := closs; popart_after := pa'; critic_info := info |}.

(** [x += y]: [y] is broadcast into the shape of [x]. *)
Definition add_inplace4 (x y : T4) : option T4 :=
  imapM4 (λ b l g e xv, yv ← bc_at4 y b l g e; Some (xv + yv)) x.

(** [torch.argmax] over the last axis: the first index of a maximum. *)
Fixpoint argmax_go (best : Qc) (besti i : nat) (l : list Qc) : nat :=
  match l with
  | [] => besti
  | x :: r =>
      if decide (best < x) then argmax_go x i (S i) r
      else argmax_go best besti (S i) r
  end.
Definition argmax_list (l : list Qc) : option nat :=
  match l with
  | [] => None
  | x :: r => Some (argmax_go x 0 1 r)
  end.

(** Step 6: [actor_loss += self.online_coeff * -(self.popart(
    q_s_a_agent_g[:, :-1, ...].min(2).values))], behind the assertion that
    the actor supports differentiable actions. *)
Definition dpg_step (a : agent) (pa : PopArt) (q_agent : T5) (actor_loss : T4)
  : result T4 :=
  _ ← assert_ (actions_differentiable a);
  m ← lift_opt (min_dim2 (drop_last_t q_agent));
  lift_opt (add_inplace4 actor_loss
              (map4 (λ x, online_coeff a * - x) (popart_fwd4 pa true m))).

(** Step 7, the filter of [Agent.forward]:
    [filter_ = (advantage_a_s_g > 1e-3).float()] with
    [advantage_a_s_g = q_s_a_g.mean(2) - q_s_a_agent_g[:, :-1, ...].mean(2)]. *)
Definition advantage_scalar (B L G : nat) (q_agent q : T5) : result T4 :=
  val_s_g ← lift_opt (mean_dim2 (drop_last_t q_agent));
  _ ← assert_ (shape_is4 B (L - 1) G 1 val_s_g);
  qm ← lift_opt (mean_dim2 q);
  let advantage_a_s_g := zip4 Qcminus qm val_s_g in
  _ ← assert_ (shape_is4 B (L - 1) G 1 advantage_a_s_g);
  Ok advantage_a_s_g.
Definition scalar_filter_threshold : Qc := qfrac 1 1000.
Definition scalar_filter (advantage : T4) : T4 :=
  map4 (λ x, float_of_bool (Qcgtb x scalar_filter_threshold)) advantage.

(** [logp_a] before the time slice, by action-space kind. *)
Definition logp_a_scalar (a : agent) (a_dist : Dist) (a_buffer : T4) : option T4 :=
  if discrete a then
    idx ← mapM (mapM (mapM argmax_list)) a_buffer;
    Some (map3 (λ x, [x]) (dist_log_prob_index a_dist idx))
  else if multibinary a then
    mapM (mapM (mapM (λ v, m ← qmean_list v; Some [m])))
      (dist_log_prob a_dist a_buffer)
  else
    Some (map3 (λ v, [qsum v])
            (dist_log_prob a_dist
               (map4 (clamp (- qfrac 995 1000) (qfrac 995 1000)) a_buffer))).

(** [actor_loss += self.offline_coeff * -(filter_.detach() * logp_a)] *)
Definition fbc_term (coeff : Qc) (filter_ logp_a : T4) : option T4 :=
  imapM4 (λ b l g e lp, f ← bc_at4 filter_ b l g e; Some (coeff * - (f * lp)))
    logp_a.

Definition fbc_step (a : agent) (log_step : bool) (B L G : nat)
  (crit : option critic_out) (a_dist : Dist) (a_buffer actor_mask actor_loss : T4)
  : result (T4 * gmap string Stat) :=
  filter_ ←
    (if negb (fake_filter a) then
       match crit with
       | Some c =>
           adv ← advantage_scalar B L G (q_s_a_agent_g c) (q_s_a_g c);
           Ok (scalar_filter adv)
       | None => Raise NameError
       end
     else Ok (full4 1 1 1 1 1));
  logp_a ← lift_opt (logp_a_scalar a a_dist a_buffer);
  let logp_a := map4 (clamp (- qz 1000) (qz 1000)) (drop_last_t logp_a) in
  term ← lift_opt (fbc_term (offline_coeff a) filter_ logp_a);
  actor_loss ← lift_opt (add_inplace4 actor_loss term);
  Ok (actor_loss,
      if log_step then _filter_stats (gammas a) actor_mask logp_a filter_ else ∅).

(** The whole pass.  Result: [critic_loss] ([None] when the critic block
    is skipped), [actor_loss], the PopArt statistics after the pass and
    [self.update_info]. *)
Definition Agent_forward (a : agent) (pa : PopArt) (bt : batch) (rnd : draws)
  (log_step : bool) : result (option T5 * T4 * PopArt * gmap string Stat) :=
  let update_info : gmap string Stat :=
    if log_step then
      tstep_encoder_log (tstep_encoder (nets a)) (obs bt) (goals bt) (rl2s bt)
    else ∅ in
  let o := tstep_encoder_fwd (tstep_encoder (nets a)) (obs bt) (goals bt) (rl2s bt) in
  let B := length o in
  let L := dim1 o in
  let a_ := clamp_actions (discrete a) (actions bt) in
  let _L := dim1 a_ in
  let D_action := dim2 a_ in
  _ ← assert_ (bool_decide (Z.of_nat _L = Z.of_nat L - 1)%Z);
  let G := length (gammas a) in
  a_ext ← lift_opt (dup_last_step a_);
  let a_buffer := repeat_g G a_ext in
  let C := num_critics a in
  _ ← assert_ (shape_is3 B (L - 1) 1 (rews bt));
  _ ← assert_ (shape_is3 B (L - 1) 1 (dones bt));
  let r := r_of a G (rews bt) in
  let d := d_of G (dones bt) in
  let state_mask := state_mask_of MAGIC_PAD_VAL (rl2s bt) in
  let actor_mask := repeat_g G state_mask in
  let critic_mask := repeat_cg C G (drop_first_t state_mask) in
  let s_rep := (traj_encoder_fwd (traj_encoder (nets a)) o (time_idxs bt) None).1 in
  _ ← assert_ (shape_is3 B L traj_emb_dim s_rep);
  let a_dist := actor_fwd (actor (nets a)) s_rep in
  let a_agent :=
    if discrete a then dist_probs a_dist
    else if actions_differentiable a then dist_rsample a_dist (seed_agent rnd)
    else dist_sample a_dist (seed_agent rnd) in
  crit ←
    (if critic_block_runs a then
       c ← critic_block a pa rnd log_step B L C G D_action s_rep a_dist a_agent
              a_buffer r d critic_mask;
       Ok (Some c)
     else Ok None);
  let pa' := from_option popart_after pa crit in
  let update_info := from_option (λ c, py_union update_info (critic_info c))
                       update_info crit in
  let actor_loss := full4 B (L - 1) G 1 0 in
  actor_loss ←
    (if online_on a then
       match crit with
       | Some c => dpg_step a pa' (q_s_a_agent_g c) actor_loss
       | None => _ ← assert_ (actions_differentiable a); Raise NameError
       end
     else Ok actor_loss);
  let update_info :=
    if log_step then
      py_union update_info (_policy_stats (discrete a) actor_mask a_dist)
    else update_info in
  fbc ←
    (if offline_on a then
       fbc_step a log_step B L G crit a_dist a_buffer actor_mask actor_loss
     else Ok (actor_loss, ∅));
  Ok (critic_loss_t <$> crit, fbc.1, pa', py_union update_info fbc.2).

End agent_forward.

(** ** [MultiTaskAgent.forward]: two-hot (distributional) critics *)

(** The actor loss of [MultiTaskAgent.forward] starts as the float [0.0]
    and becomes a tensor with the first term added. *)
Inductive loss_val :=
| LossFloat (x : Qc)
| LossTensor (t : T4).

(** [actor_loss += t] *)
Definition loss_add (acc : loss_val) (t : T4) : option loss_val :=
  match acc with
  | LossFloat x => Some (LossTensor (map4 (Qcplus x) t))
  | LossTensor u => LossTensor <$> add_inplace4 u t
  end.

(** [rearrange(x, "k b ... -> (b k) ...")]: row [b * K + k] is [x[k][b]]. *)
Definition interleave_bk {A} (x : list (list A)) : option (list A) :=
  mjoin <$> mapM (λ b, mapM (λ s : list A, s !! b) x) (seq 0 (dim1 x)).
(** [repeat(x, "b ... -> (b k) ...", k=K)] *)
Definition repeat_bk {A} (K : nat) (x : list A) : list A :=
  mjoin (replicate K <$> x).
(** [rearrange(x, "(b k) ... -> b k ...", k=K)]; the row count must be a
    multiple of [K]. *)
Definition split_bk {A} (K : nat) (x : list A) : option (list (list A)) :=
  if decide (K = 0)%nat then None
  else if decide (length x `mod` K = 0)%nat
       then Some (reshape (replicate (length x `div` K) K) x)
       else None.
(** [x.mean(1)] of a [B, K, L, G, 1] tensor. *)
Definition mean_axis1 (x : list T4) : option T4 :=
  mapM (λ chunk : T4,
    first ← head chunk;
    imapM3 (λ l g e _,
      col ← mapM (λ s : T3, at3 s l g e) chunk; qmean_list col) first) x.
(** [repeat(x, "b l 1 g bins -> b l C g bins")] *)
Definition repeat_c {A} (C : nat) (t : list (list (list A)))
  : option (list (list (list A))) :=
  mapM (mapM (λ s, match s with [x] => Some (replicate C x) | _ => None end)) t.

Section multitask_forward.
Context `{Backend}.

Definition MultiTask_td_stats (gs : list Qc)
  (mask raw_q_s_a_g q_s_a_g r td_target raw_q_bins : T5) : gmap string Stat :=
  py_union (_td_stats gs mask raw_q_s_a_g q_s_a_g r td_target)
    (py_dict [("Maximum Bin (All Gammas)",
               stat_td_bins "Maximum Bin (All Gammas)" mask raw_q_bins);
              ("Maximum Bin (Target Gamma)",
               stat_td_bins "Maximum Bin (Target Gamma)" mask raw_q_bins)]).

(** [a_dist] and [a_prime_dist], wrapped for discrete actions. *)
Definition wrap_discrete (a : agent) (dist : Dist) : Dist :=
  if discrete a then discrete_like_continuous dist else dist.
Definition mt_a_prime_dist_of (a : agent) (s_rep : T3) (a_dist : Dist) : Dist :=
  if use_target_actor a
  then wrap_discrete a (actor_fwd (target_actor (nets a)) s_rep)
  else a_dist.

(** [td_target = td_target_rand.mean(2, keepdims=True)] *)
Definition mt_aggregate_td (td_target_rand : T5) : option T5 :=
  mean_dim2_keep td_target_rand.

Record mt_critic_out := {
  mt_q_s_a_g : BinDist;
  mt_td_target : T5;
  mt_critic_loss : T5;
  mt_popart_after : PopArt;
  mt_critic_info : gmap string Stat;
}.

Definition mt_critic_block (a : agent) (pa : PopArt) (rnd : draws)
  (log_step : bool) (B L C G D_action : nat) (s_rep : T3) (a_dist : Dist)
  (a_buffer : T4) (r d critic_mask : T5) : result mt_critic_out :=
  let a_prime_dist := mt_a_prime_dist_of a s_rep a_dist in
  let ap := dist_sample a_prime_dist (seed_prime rnd) in
  _ ← assert_ (shape_is4 B L G D_action ap);
  let q_targ_dist :=
    critics_twohot_fwd (target_critics (nets a)) (drop_first_t s_rep)
      (drop_first_t ap) in
  _ ← assert_ (shape_is5 B (L - 1) C G num_bins (bin_probs q_targ_dist));
  let q_targ := bin_dist_to_raw_vals q_targ_dist in
  _ ← assert_ (shape_is5 B (L - 1) C G 1 q_targ);
  ensemble_td_target ← lift_opt (ensemble_td_target_of (gammas a) r d q_targ);
  _ ← assert_ (shape_is5 B (L - 1) C G 1 ensemble_td_target);
  random_subset ←
    match torch_randint C B (L - 1) (num_critics_td a) G 1 (raw_subset rnd) with
    | Some i => Ok i
    | None => Raise RuntimeError
    end;
  td_target_rand ← lift_opt (take_along_dim2 ensemble_td_target random_subset);
  td ← lift_opt (mt_aggregate_td td_target_rand);
  _ ← assert_ (shape_is5 B (L - 1) 1 G 1 td);
  mask_all ← lift_opt (all_dim2_keep critic_mask);
  let pa' := popart_update_stats pa td mask_all in
  _ ← assert_ (shape_is5 B (L - 1) 1 G 1 td);
  labels ← lift_opt (repeat_c C (raw_vals_to_labels td));
  _ ← assert_ (shape_is5 B (L - 1) C G num_bins labels);
  let q := critics_twohot_fwd (critics (nets a)) s_rep a_buffer in
  _ ← assert_ (shape_is5 B L C G num_bins (bin_probs q));
  let closs :=
    zip4 (λ lg lb, [cross_entropy lg lb]) (drop_last_t (bin_logits q)) labels in
  _ ← assert_ (shape_is5 B (L - 1) C G 1 closs);
  let info :=
    if log_step then
      let raw := drop_last_t (bin_dist_to_raw_vals q) in
      py_union
        (MultiTask_td_stats (gammas a) critic_mask raw
           (popart_normalize_values5 pa' raw) r td (drop_last_t (bin_probs q)))
        (_popart_stats pa')
    else ∅ in
  Ok {| mt_q_s_a_g := q; mt_td_target := td; mt_critic_loss := closs;
        mt_popart_after := pa'; mt_critic_info := info |}.

(** Step 6, the advantage estimate: the value of the buffer action minus
    the mean value of [K] fresh actor samples. *)
Definition mt_advantage (a : agent) (K B L C G : nat) (s_rep : T3)
  (a_dist : Dist) (q : BinDist) (sd : Seed) : result T4 :=
  a_agent ← lift_opt (interleave_bk (dist_sample_k a_dist K sd));
  let s_rep_fbc := repeat_bk K s_rep in
  let q_s_a_agent := critics_twohot_fwd (critics (nets a)) s_rep_fbc a_agent in
  _ ← assert_ (shape_is5 (B * K) L C G num_bins (bin_probs q_s_a_agent));
  val_s ← lift_opt (mean_dim2 (bin_dist_to_raw_vals q_s_a_agent));
  _ ← assert_ (shape_is4 (B * K) L G 1 val_s);
  chunks ← lift_opt (split_bk K val_s);
  val_s ← lift_opt (mean_axis1 chunks);
  _ ← assert_ (shape_is4 B L G 1 val_s);
  qm ← lift_opt (mean_dim2 (bin_dist_to_raw_vals q));
  let advantage_s_a := zip4 Qcminus qm val_s in
  _ ← assert_ (shape_is4 B L G 1 advantage_s_a);
  Ok advantage_s_a.

(** [filter_ = self.fbc_filter_func(advantage_s_a)[:, :-1, ...].float()] *)
Definition mt_filter (m : multitask_agent) (advantage : T4) : T4 :=
  map4 float_of_bool (drop_last_t (fbc_filter_func m advantage)).
(** [binary_filter_ = binary_filter(advantage_s_a)[:, :-1, ...].float()] *)
Definition mt_binary_filter (advantage : T4) : T4 :=
  map4 float_of_bool (drop_last_t (default_fbc_filter_func advantage)).

Definition mt_logp_a (a : agent) (a_dist : Dist) (a_buffer : T4) : option T4 :=
  if discrete a then Some (dist_log_prob a_dist a_buffer)
  else if multibinary a then
    mapM (mapM (mapM (λ v, x ← qmean_list v; Some [x])))
      (dist_log_prob a_dist a_buffer)
  else
    Some (map3 (λ v, [qsum v])
            (dist_log_prob a_dist
               (map4 (clamp (- qfrac 995 1000) (qfrac 995 1000)) a_buffer))).

(** Step 7: the DPG term of the two-hot variant. *)
Definition mt_dpg_step (a : agent) (pa : PopArt) (rnd : draws) (s_rep : T3)
  (a_dist : Dist) (actor_loss : loss_val) : result loss_val :=
  _ ← assert_ (actions_differentiable a && negb (discrete a));
  let a_agent := dist_rsample a_dist (seed_dpg rnd) in
  let q := critics_twohot_fwd (maximized_critics (nets a)) s_rep a_agent in
  m ← lift_opt (min_dim2 (bin_dist_to_raw_vals q));
  let qn := popart_normalize_values4 pa m in
  lift_opt (loss_add actor_loss
              (map4 (λ x, online_coeff a * - x) (drop_last_t qn))).

(** Step 6: the filter and the filtered negative log-likelihood.  The
    actor loss is the float [0.0] before the term is added. *)
Definition mt_fbc_step (m : multitask_agent) (log_step : bool)
  (B L C G : nat) (crit : option mt_critic_out) (s_rep : T3) (a_dist : Dist)
  (a_buffer actor_mask : T4) (rnd : draws)
  : result (loss_val * gmap string Stat) :=
  let a := base m in
  filters ←
    (if negb (fake_filter a) && offline_on a then
       match crit with
       | Some c =>
           adv ← mt_advantage a (fbc_filter_k m) B L C G s_rep a_dist
                   (mt_q_s_a_g c) (seed_fbc rnd);
           Ok (mt_filter m adv, mt_binary_filter adv)
       | None => Raise NameError
       end
     else Ok (full4 B (L - 1) G 1 1, full4 B (L - 1) G 1 1));
  let '(filter_, binary_filter_) := (filters : T4 * T4) in
  if offline_on a then
    logp_a ← lift_opt (mt_logp_a a a_dist a_buffer);
    let logp_a := map4 (clamp (- qz 1000) (qz 1000)) (drop_last_t logp_a) in
    term ← lift_opt (fbc_term (offline_coeff a) filter_ logp_a);
    al ← lift_opt (loss_add (LossFloat 0) term);
    Ok (al,
        if log_step then
          py_union (_filter_stats (gammas a) actor_mask logp_a binary_filter_)
                   (_policy_stats (discrete a) actor_mask a_dist)
        else ∅)
  else Ok (LossFloat 0, ∅).

Definition MultiTaskAgent_forward (m : multitask_agent) (pa : PopArt)
  (bt : batch) (rnd : draws) (log_step : bool)
  : result (option T5 * loss_val * PopArt * gmap string Stat) :=
  let a := base m in
  let update_info : gmap string Stat :=
    if log_step then
      tstep_encoder_log (tstep_encoder (nets a)) (obs bt) (goals bt) (rl2s bt)
    else ∅ in
  let o := tstep_encoder_fwd (tstep_encoder (nets a)) (obs bt) (goals bt) (rl2s bt) in
  let B := length o in
  let L := dim1 o in
  let a_ := clamp_actions (discrete a) (actions bt) in
  let _L := dim1 a_ in
  let D_action := dim2 a_ in
  _ ← assert_ (bool_decide (Z.of_nat _L = Z.of_nat L - 1)%Z);
  let G := length (gammas a) in
  a_ext ← lift_opt (dup_last_step a_);
  let a_buffer := repeat_g G a_ext in
  let C := num_critics a in
  _ ← assert_ (shape_is3 B (L - 1) 1 (rews bt));
  _ ← assert_ (shape_is3 B (L - 1) 1 (dones bt));
  let r := r_of a G (rews bt) in
  let d := d_of G (dones bt) in
  let state_mask := state_mask_of MAGIC_PAD_VAL (rl2s bt) in
  let actor_mask := repeat_g G state_mask in
  let critic_mask := repeat_cg C G (drop_first_t state_mask) in
  let s_rep := (traj_encoder_fwd (traj_encoder (nets a)) o (time_idxs bt) None).1 in
  _ ← assert_ (shape_is3 B L traj_emb_dim s_rep);
  let a_dist := wrap_discrete a (actor_fwd (actor (nets a)) s_rep) in
  crit ←
    (if critic_block_runs a then
       c ← mt_critic_block a pa rnd log_step B L C G D_action s_rep a_dist
              a_buffer r d critic_mask;
       Ok (Some c)
     else Ok None);
  let pa' := from_option mt_popart_after pa crit in
  let update_info := from_option (λ c, py_union update_info (mt_critic_info c))
                       update_info crit in
  fbc ← mt_fbc_step m log_step B L C G crit s_rep a_dist a_buffer actor_mask rnd;
  let '(actor_loss, fbc_info) := (fbc : loss_val * gmap string Stat) in
  actor_loss ←
    (if online_on a then mt_dpg_step a pa' rnd s_rep a_dist actor_loss
     else Ok actor_loss);
  Ok (mt_critic_loss <$> crit, actor_loss, pa', py_union update_info fbc_info).

End multitask_forward.

(** ** Masked losses ([Experiment.compute_loss], [Agent._compute_loss]) *)

(** Elementwise operation with torch broadcasting on one axis: an axis of
    extent one is stretched, otherwise the extents must agree. *)
Definition bzipM {A B C} (f : A → B → option C) (x : list A) (y : list B)
  : option (list C) :=
  match x, y with
  | [a], _ => mapM (f a) y
  | _, [b] => mapM (λ a, f a b) x
  | _, _ =>
      if decide (length x = length y)
      then mapM (λ p, f p.1 p.2) (zip x y)
      else None
  end.

Definition bmul1 : T1 → T1 → option T1 := bzipM (λ a b, Some (a * b)).
Definition bmul2 : T2 → T2 → option T2 := bzipM bmul1.
Definition bmul3 : T3 → T3 → option T3 := bzipM bmul2.
Definition bmul4 : T4 → T4 → option T4 := bzipM bmul3.
Definition bmul5 : T5 → T5 → option T5 := bzipM bmul4.

(** Division of two scalar tensors; [None] stands for the NaN or infinity
    that a zero divisor produces. *)
Definition qdiv (x y : Qc) : option Qc :=
  if decide (y = 0) then None else Some (x / y).

(** [(mask * loss).sum() / mask.sum()] *)
Definition masked_mean4 (mask loss : T4) : result (option Qc) :=
  match bmul4 mask loss with
  | Some p => Ok (qdiv (sum4 p) (sum4 mask))
  | None => Raise RuntimeError
  end.
Definition masked_mean5 (mask loss : T5) : result (option Qc) :=
  match bmul5 mask loss with
  | Some p => Ok (qdiv (sum5 p) (sum5 mask))
  | None => Raise RuntimeError
  end.

(** Modelled from the spec: [utils.masked_avg(x, mask)], whose module is
    not among the sources; section 4.5 item 8 says that each mean divides
    by the sum of its own validity mask, as the inline code of
    [Experiment.compute_loss] does. *)
Definition masked_avg4 (x mask : T4) : result (option Qc) := masked_mean4 mask x.
(** Modelled from the spec: [utils.masked_avg] on the critic loss. *)
Definition masked_avg5 (x mask : T5) : result (option Qc) := masked_mean5 mask x.

Section losses.
Context `{Backend}.

(** Values stored in the returned dict. *)
Inductive value :=
| VNone
| VFloat (x : Qc)
| VScalar (x : option Qc)
| VMask (t : T3)
| VStat (s : Stat).

(** [critic_state_mask] and [actor_state_mask] *)
Definition critic_state_mask (C G : nat) (state_mask : T3) : T5 :=
  repeat_cg C G (drop_first_t state_mask).
Definition actor_state_mask (G : nat) (state_mask : T3) : T4 :=
  repeat_g G (drop_last_t state_mask).

(** The part of [compute_loss] after the forward pass.  [actor_loss.shape]
    is read for [G]; a float actor loss has no [shape]. *)
Definition compute_loss_of (C : nat) (rl2s : T3) (critic_loss : option T5)
  (actor_loss : loss_val) (update_info : gmap string Stat)
  : result (gmap string value) :=
  match actor_loss with
  | LossFloat _ => Raise AttributeError
  | LossTensor actor_loss =>
      let G := dim2 actor_loss in
      let state_mask := state_mask_of MAGIC_PAD_VAL rl2s in
      masked_actor_loss ← masked_mean4 (actor_state_mask G state_mask) actor_loss;
      masked_critic_loss ←
        match critic_loss with
        | Some cl =>
            x ← masked_mean5 (critic_state_mask C G state_mask) cl;
            Ok (VScalar x)
        | None => Ok (VFloat 0)
        end;
      Ok (py_union
            (py_dict [("critic_loss", masked_critic_loss);
                      ("actor_loss", VScalar masked_actor_loss);
                      ("mask", VMask state_mask)])
            (VStat <$> update_info))
  end.

(** [Experiment.compute_loss] with [self.policy] an [Agent] or a
    [MultiTaskAgent]. *)
Definition compute_loss (a : agent) (pa : PopArt) (bt : batch) (rnd : draws)
  (log_step : bool) : result (gmap string value * PopArt) :=
  out ← Agent_forward a pa bt rnd log_step;
  let '(critic_loss, actor_loss, pa', update_info) :=
    (out : option T5 * T4 * PopArt * gmap string Stat) in
  l ← compute_loss_of (num_critics a) (rl2s bt) critic_loss
         (LossTensor actor_loss) update_info;
  Ok (l, pa').
Definition compute_loss_multitask (m : multitask_agent) (pa : PopArt)
  (bt : batch) (rnd : draws) (log_step : bool)
  : result (gmap string value * PopArt) :=
  out ← MultiTaskAgent_forward m pa bt rnd log_step;
  let '(critic_loss, actor_loss, pa', update_info) :=
    (out : option T5 * loss_val * PopArt * gmap string Stat) in
  l ← compute_loss_of (num_critics (base m)) (rl2s bt) critic_loss actor_loss
         update_info;
  Ok (l, pa').

(** [Agent._compute_loss]: the forward pass always logs
    ([self.forward(batch, True)]) and the means go through
    [utils.masked_avg]. *)
Definition _compute_loss_of (C : nat) (rl2s : T3) (critic_loss : option T5)
  (actor_loss : T4) (update_info : gmap string Stat)
  : result (gmap string value) :=
  let G := dim2 actor_loss in
  let state_mask := state_mask_of MAGIC_PAD_VAL rl2s in
  masked_actor_loss ← masked_avg4 actor_loss (actor_state_mask G state_mask);
  masked_critic_loss ←
    match critic_loss with
    | Some cl =>
        x ← masked_avg5 cl (critic_state_mask C G state_mask);
        Ok (VScalar x)
    | None => Ok (VFloat 0)
    end;
  Ok (py_union
        (py_dict [("critic_loss", masked_critic_loss);
                  ("actor_loss", VScalar masked_actor_loss);
                  ("mask", VMask state_mask)])
        (VStat <$> update_info)).
Definition _compute_loss (a : agent) (pa : PopArt) (bt : batch) (rnd : draws)
  : result (gmap string value * PopArt) :=
  out ← Agent_forward a pa bt rnd true;
  let '(critic_loss, actor_loss, pa', update_info) :=
    (out : option T5 * T4 * PopArt * gmap string Stat) in
  l ← _compute_loss_of (num_critics a) (rl2s bt) critic_loss actor_loss
         update_info;
  Ok (l, pa').

End losses.

(** ** One training step ([Experiment.train_step], [Agent.update]) *)

(** The calls of a step that touch parameters, gradients or targets. *)
Inductive event :=
| EvZeroGrad
| EvComputeLoss
| EvBackward
| EvClipGradNorm
| EvSoftSyncTargets
| EvGetGradNorms
| EvOptimizerStep
| EvLrScheduleStep.

#[global] Instance event_eq_dec : EqDecision event.
Proof. solve_decision. Defined.

(** Position of the first occurrence of an event in a trace. *)
Fixpoint index_of (e : event) (tr : list event) : option nat :=
  match tr with
  | [] => None
  | x :: r => if decide (x = e) then Some 0%nat else S <$> index_of e r
  end.

(** [e1] occurs, and every occurrence of [e2] comes after the first [e1]. *)
Definition precedes (e1 e2 : event) (tr : list event) : Prop :=
  ∃ i, index_of e1 tr = Some i ∧ ∀ j, tr !! j = Some e2 → (i < j)%nat.

Definition with_nets (a : agent) (n : networks) : agent :=
  {| action_dim := action_dim a; discrete := discrete a;
     multibinary := multibinary a;
     actions_differentiable := actions_differentiable a;
     reward_multiplier := reward_multiplier a; fake_filter := fake_filter a;
     offline_coeff := offline_coeff a; online_coeff := online_coeff a;
     tau := tau a; use_target_actor := use_target_actor a;
     _critic_loss_weight := _critic_loss_weight a; gammas := gammas a;
     num_critics := num_critics a; num_critics_td := num_critics_td a;
     nets := n |}.

(** Writing back the parameters the optimizer owns. *)
Definition set_trainable (n : networks) (p : params * params * params * params)
  : networks :=
  {| tstep_encoder := p.1.1.1; traj_encoder := p.1.1.2; critics := p.1.2;
     actor := p.2;
     target_critics := target_critics n; target_actor := target_actor n;
     maximized_critics := maximized_critics n |}.
Definition get_trainable (n : networks) : params * params * params * params :=
  (tstep_encoder n, traj_encoder n, critics n, actor n).

Section trainer.
Context `{Backend}.

Record trainer := {
  policy : agent;
  popart : PopArt;
  opt_state : OptState;
  grads : Grads;
  critic_loss_weight : Qc;
  trace : list event;
}.

Definition log_event (e : event) (t : trainer) : trainer :=
  {| policy := policy t; popart := popart t; opt_state := opt_state t;
     grads := grads t; critic_loss_weight := critic_loss_weight t;
     trace := trace t ++ [e] |}.
Definition set_policy_nets (n : networks) (t : trainer) : trainer :=
  {| policy := with_nets (policy t) n; popart := popart t;
     opt_state := opt_state t; grads := grads t;
     critic_loss_weight := critic_loss_weight t; trace := trace t |}.
Definition set_grads (g : Grads) (t : trainer) : trainer :=
  {| policy := policy t; popart := popart t; opt_state := opt_state t;
     grads := g; critic_loss_weight := critic_loss_weight t; trace := trace t |}.
Definition set_popart (pa : PopArt) (t : trainer) : trainer :=
  {| policy := policy t; popart := pa; opt_state := opt_state t;
     grads := grads t; critic_loss_weight := critic_loss_weight t;
     trace := trace t |}.
Definition set_opt (o : OptState) (t : trainer) : trainer :=
  {| policy := policy t; popart := popart t; opt_state := o;
     grads := grads t; critic_loss_weight := critic_loss_weight t;
     trace := trace t |}.

(** [l["actor_loss"] + weight * l["critic_loss"]]; [None] is NaN. *)
Definition scalar_of (v : value) : result (option Qc) :=
  match v with
  | VFloat x => Ok (Some x)
  | VScalar x => Ok x
  | _ => Raise RuntimeError
  end.
Definition total_loss (weight : Qc) (l : gmap string value) : result (option Qc) :=
  match l !! "actor_loss", l !! "critic_loss" with
  | Some al, Some cl =>
      x ← scalar_of al; y ← scalar_of cl;
      Ok (xv ← x; yv ← y; Some (xv + weight * yv))
  | _, _ => Raise RuntimeError
  end.

(** [self._get_grad_norms()] *)
Definition _get_grad_norms (g : Grads) : gmap string value :=
  py_dict ((λ k, (k, VStat (stat_grad_norm k g))) <$>
    ["Actor Grad Norm"; "Critic Grad Norm"; "TrajEncoder Grad Norm";
     "TstepEncoder Grad Norm"; "TstepEncoder Goal Emb. Grad Norm"]).

(** [self.policy.soft_sync_targets()] *)
Definition policy_soft_sync (t : trainer) : result trainer :=
  match soft_sync_targets (tau (policy t)) (nets (policy t)) with
  | Some n => Ok (set_policy_nets n t)
  | None => Raise RuntimeError
  end.

(** [self.optimizer.step()] *)
Definition do_optimizer_step (sync_gradients : bool) (t : trainer) : trainer :=
  let '(o, p) := optimizer_step (opt_state t) (grads t) sync_gradients
                   (get_trainable (nets (policy t))) in
  set_opt o (set_policy_nets (set_trainable (nets (policy t)) p) t).

(** The body of [if self.accelerator.sync_gradients:]. *)
Definition sync_block (t : trainer) (l : gmap string value) (log_step : bool)
  : result (trainer * gmap string value) :=
  let t := log_event EvClipGradNorm (set_grads (clip_grad_norm_ (grads t)) t) in
  t ← policy_soft_sync t;
  let t := log_event EvSoftSyncTargets t in
  if log_step
  then Ok (log_event EvGetGradNorms t, py_union l (_get_grad_norms (grads t)))
  else Ok (t, l).

(** [Experiment.train_step]; [sync_gradients] is
    [self.accelerator.sync_gradients] inside the [accumulate] context. *)
Definition train_step (t : trainer) (bt : batch) (rnd : draws)
  (log_step sync_gradients : bool) : result (trainer * gmap string value) :=
  let t := log_event EvZeroGrad (set_grads (zero_grad (grads t)) t) in
  out ← compute_loss (policy t) (popart t) bt rnd log_step;
  let t := log_event EvComputeLoss (set_popart out.2 t) in
  let l := out.1 in
  loss ← total_loss (critic_loss_weight t) l;
  let t := log_event EvBackward
             (set_grads (backward_pass (grads t) (nets (policy t)) loss) t) in
  synced ← (if sync_gradients then sync_block t l log_step else Ok (t, l));
  let t := log_event EvOptimizerStep (do_optimizer_step sync_gradients synced.1) in
  Ok (t, synced.2).

(** [Agent.update]: the agent's own step, with [Agent._compute_loss]. *)
Definition Agent_update (t : trainer) (bt : batch) (rnd : draws)
  : result (trainer * gmap string value) :=
  let t := log_event EvZeroGrad (set_grads (zero_grad (grads t)) t) in
  out ← _compute_loss (policy t) (popart t) bt rnd;
  let t := log_event EvComputeLoss (set_popart out.2 t) in
  loss ← total_loss (_critic_loss_weight (policy t)) out.1;
  let t := log_event EvBackward
             (set_grads (backward_pass (grads t) (nets (policy t)) loss) t) in
  let t := log_event EvOptimizerStep (do_optimizer_step true t) in
  let t := log_event EvLrScheduleStep
             (set_opt (lr_schedule_step (opt_state t)) t) in
  Ok (t, out.1).

End trainer.

(** ** Rollout interface ([Agent.get_current_timestep], [Agent.get_actions]) *)

(** The argument of [get_current_timestep]: one tensor or a dict of
    tensors, batch first and time second; ['A] is one timestep's payload
    (all trailing axes). *)
Inductive seqs (A : Type) :=
| SeqTensor (v : list (list A))
| SeqDict (d : gmap string (list (list A))).
Arguments SeqTensor {A} v.
Arguments SeqDict {A} d.

(** One row of [torch.take_along_dim(v, seq_lengths_ - 1, dim=1)]: the index
    must lie in [0, L). *)
Definition take_row {A} (row : list A) (len : Z) : option (list A) :=
  let i := (len - 1)%Z in
  if decide (0 ≤ i)%Z then x ← row !! Z.to_nat i; Some [x] else None.

(** [seq_lengths] holds one length per batch element; its reshape only
    appends axes of extent one, so the index is the same along every
    trailing axis.  Batch axes broadcast as usual. *)
Definition take_timestep {A} (v : list (list A)) (seq_lengths : list Z)
  : option (list (list A)) :=
  bzipM take_row v seq_lengths.

Definition get_current_timestep {A} (sequences : seqs A) (seq_lengths : list Z)
  : option (seqs A) :=
  let dict_based := match sequences with SeqDict _ => true | SeqTensor _ => false end in
  let sequences : gmap string (list (list A)) :=
    match sequences with
    | SeqDict d => d
    | SeqTensor v => {["dummy" := v]}
    end in
  let taken := (λ v, take_timestep v seq_lengths) <$> sequences in
  if decide (map_Forall (λ _ (o : option (list (list A))), is_Some o) taken) then
    let timesteps := from_option id [] <$> taken in
    if dict_based then Some (SeqDict timesteps)
    else SeqTensor <$> timesteps !! "dummy"
  else None.

(** numpy arrays returned to the environment loop. *)
Inductive dtype := uint8 | float32.
Inductive ndarray :=
| Nd2 (t : T2)
| Nd3 (t : T3).
Record np_array := { np_dtype : dtype; np_data : ndarray }.

(** [astype(np.uint8)] of a float: the fraction is dropped and the integer
    wraps modulo 256. *)
Definition to_uint8 (x : Qc) : Qc :=
  qz ((Qnum x ÷ Zpos (Qden x)) `mod` 256)%Z.
Definition nd_map (f : Qc → Qc) (x : ndarray) : ndarray :=
  match x with
  | Nd2 t => Nd2 (map2 f t)
  | Nd3 t => Nd3 (map3 f t)
  end.
Definition astype (d : dtype) (x : ndarray) : np_array :=
  match d with
  | uint8 => {| np_dtype := uint8; np_data := nd_map to_uint8 x |}
  | float32 => {| np_dtype := float32; np_data := x |}
  end.

(** [torch.argmax(probs, dim=-1, keepdim=True)] as floats. *)
Definition argmax_keep (v : T1) : option T1 :=
  i ← argmax_list v; Some [qz (Z.of_nat i)].

(** [x.squeeze(1)]: axis 1 is removed when its extent is one, otherwise
    the tensor is returned as it is. *)
Inductive squeezed :=
| Squeezed (t : T2)
| NotSqueezed (t : T3).
Definition squeeze1 (t : T3) : squeezed :=
  match mapM (λ r : T2, match r with [x] => Some x | _ => None end) t with
  | Some t2 => Squeezed t2
  | None => NotSqueezed t
  end.

Section rollout.
Context `{Backend}.

(** The action tensor before the gamma slice: a sample, the argmax of the
    probabilities (discrete) or the mean. *)
Definition choose_actions_step (a : agent) (sample : bool) (d : StepDist)
  (sd : Seed) : option T3 :=
  if sample then Some (step_sample d sd)
  else if discrete a then mapM (mapM argmax_keep) (step_probs d)
  else Some (step_mean d).
Definition choose_actions_seq (a : agent) (sample : bool) (d : Dist)
  (sd : Seed) : option T4 :=
  if sample then Some (dist_sample d sd)
  else if discrete a then mapM (mapM (mapM argmax_keep)) (dist_probs d)
  else Some (dist_mean d).

(** [actions[..., -1, :]]: the last entry of the gamma axis. *)
Definition primary_gamma_step (x : T3) : option T2 := mapM last x.
Definition primary_gamma_seq (x : T4) : option T3 := mapM (mapM last) x.

Definition out_dtype (a : agent) : dtype := if discrete a then uint8 else float32.

Definition unwrap_tensor {A} (s : seqs A) : option (list (list A)) :=
  match s with SeqTensor v => Some v | SeqDict _ => None end.
Definition unwrap_dict {A} (s : seqs A) : option (gmap string (list (list A))) :=
  match s with SeqDict d => Some d | SeqTensor _ => None end.

(** From the embedding of the current timestep to the actions of the
    primary gamma: [self.actor(traj_emb_t.squeeze(1))], the choice of the
    action and the slice [actions[..., -1, :]]. *)
Definition select_actions (a : agent) (sample : bool) (traj_emb_t : T3) (sd : Seed)
  : option ndarray :=
  match squeeze1 traj_emb_t with
  | Squeezed e =>
      x ← choose_actions_step a sample (actor_step (actor (nets a)) e) sd;
      Nd2 <$> primary_gamma_step x
  | NotSqueezed e =>
      x ← choose_actions_seq a sample (actor_fwd (actor (nets a)) e) sd;
      Nd3 <$> primary_gamma_seq x
  end.

(** The inputs the encoders see: the current timestep when a hidden state
    is carried, the whole sequences otherwise.  [seq_lengths] stands for
    both [seq_lengths] and [seq_lengths.squeeze(-1)]. *)
Definition current_inputs (using_hidden : bool)
  (obs : gmap string (list (list ObsFrame))) (goals : list (list GoalFrame))
  (rl2s : T3) (seq_lengths : list Z) (time_idxs : list (list Z))
  : option (gmap string (list (list ObsFrame)) * list (list GoalFrame) * T3
            * list (list Z)) :=
  if using_hidden then
    o ← get_current_timestep (SeqDict obs) seq_lengths ≫= unwrap_dict;
    g ← get_current_timestep (SeqTensor goals) seq_lengths ≫= unwrap_tensor;
    r ← get_current_timestep (SeqTensor rl2s) seq_lengths ≫= unwrap_tensor;
    t ← get_current_timestep (SeqTensor time_idxs) seq_lengths ≫= unwrap_tensor;
    Some (o, g, r, t)
  else Some (obs, goals, rl2s, time_idxs).

Definition get_actions (a : agent)
  (obs : gmap string (list (list ObsFrame))) (goals : list (list GoalFrame))
  (rl2s : T3) (seq_lengths : list Z) (time_idxs : list (list Z))
  (hidden_state : option Hidden) (sample : bool) (sd : Seed)
  : result (np_array * Hidden) :=
  let using_hidden := bool_decide (is_Some hidden_state) in
  inputs ← lift_opt (current_inputs using_hidden obs goals rl2s seq_lengths
                       time_idxs);
  let '(obs, goals, rl2s, time_idxs) :=
    (inputs : gmap string (list (list ObsFrame)) * list (list GoalFrame) * T3
              * list (list Z)) in
  let tstep_emb := tstep_encoder_fwd (tstep_encoder (nets a)) obs goals rl2s in
  let '(traj_emb_t, hidden_state) :=
    traj_encoder_fwd (traj_encoder (nets a)) tstep_emb time_idxs hidden_state in
  traj_emb_t ← lift_opt
    (if using_hidden then Some traj_emb_t
     else get_current_timestep (SeqTensor traj_emb_t) seq_lengths ≫= unwrap_tensor);
  actions ← lift_opt (select_actions a sample traj_emb_t sd);
  Ok (astype (out_dtype a) actions, hidden_state).

End rollout.

(** ** Tensors that differ at masked-out positions only *)

(** One axis of the relation: [x] and [x'] have the same extent, and
    entries at the same (broadcast) position are related by [R] under the
    mask entry of that position, if there is one. *)
Definition agree_step {M A} (R : option M → A → A → Prop)
  (m : option (list M)) (x x' : list A) : Prop :=
  length x = length x'
  ∧ ∀ i b b', bc x i = Some b → bc x' i = Some b' → R (m ≫= λ m, bc m i) b b'.

(** At an entry: equal values unless the mask is zero there. *)
Definition agree0 (m : option Qc) (v v' : Qc) : Prop :=
  ∀ a, m = Some a → a ≠ 0 → v = v'.
Definition agree1 : option T1 → T1 → T1 → Prop := agree_step agree0.
Definition agree2 : option T2 → T2 → T2 → Prop := agree_step agree1.
Definition agree3 : option T3 → T3 → T3 → Prop := agree_step agree2.
Definition agree4 : option T4 → T4 → T4 → Prop := agree_step agree3.
Definition agree5 : option T5 → T5 → T5 → Prop := agree_step agree4.

(** [torch.where(mask != 0, x, noise)] on tensors of one shape: the values
    at masked-out positions are replaced. *)
Definition perturb0 (m x noise : Qc) : Qc := if decide (m = 0) then noise else x.
Definition perturb1 (mask x noise : T1) : T1 :=
  zip_with (λ m p, perturb0 m p.1 p.2) mask (zip x noise).
Definition perturb2 (mask x noise : T2) : T2 :=
  zip_with (λ m p, perturb1 m p.1 p.2) mask (zip x noise).
Definition perturb3 (mask x noise : T3) : T3 :=
  zip_with (λ m p, perturb2 m p.1 p.2) mask (zip x noise).
Definition perturb4 (mask x noise : T4) : T4 :=
  zip_with (λ m p, perturb3 m p.1 p.2) mask (zip x noise).
Definition perturb5 (mask x noise : T5) : T5 :=
  zip_with (λ m p, perturb4 m p.1 p.2) mask (zip x noise).

(** ** The masked products

    What [mask * loss] is on tensors of the shapes met in the masked
    means: the mask has extent one on its last axis. *)

(** The product of a loss row with the one mask entry of its position. *)
Definition wmul1 (m row : T1) : T1 := (λ x, hd 0 m * x) <$> row.
(** The mask entry of one timestep: 0 when its rl2 vector is all padding. *)
Definition vmask (pad : Qc) (v : T1) : Qc :=
  float_of_bool (negb (forallb (λ x, bool_decide (x = pad)) v)).
(** The products of the loss tensors with their masks. *)
Definition weighted2 : T2 → T2 → T2 := zip_with wmul1.
Definition weighted3 : T3 → T3 → T3 := zip_with weighted2.
Definition weighted4 : T4 → T4 → T4 := zip_with weighted3.
Definition weighted5 : T5 → T5 → T5 := zip_with weighted4.

(** ** Statements that turn out not to hold, as the specification words them *)

(** TD-target aggregation, as specified: with as many draws as critics the
    aggregated target is the minimum over all critics when the online
    coefficient is positive and the mean over all critics when it is zero,
    for the scalar and for the two-hot variant. *)
Definition td_aggregation_as_specified : Prop :=
  ∀ (a : agent) (B L G : nat) (ens : T5) (idx : I5) (rand : T5),
    num_critics_td a = num_critics a →
    shape_is5 B L (num_critics a) G 1 ens = true →
    shape_is5 B L (num_critics_td a) G 1 idx = true →
    (∀ b l k g e i, at5 idx b l k g e = Some i → (i < num_critics a)%nat) →
    take_along_dim2 ens idx = Some rand →
    (0 < online_coeff a →
       aggregate_td a rand = min_dim2_keep ens
       ∧ mt_aggregate_td rand = min_dim2_keep ens)
    ∧ (online_coeff a = 0 →
       aggregate_td a rand = mean_dim2_keep ens
       ∧ mt_aggregate_td rand = mean_dim2_keep ens).

(** The next-state action, as specified: always a sample of the target
    actor. *)
Definition next_action_as_specified : Prop :=
  ∀ (H : Backend) (a : agent) (s_rep : T3) (a_dist : Dist) (sd : Seed),
    ap_of a (a_prime_dist_of a s_rep a_dist) sd
    = dist_sample (actor_fwd (target_actor (nets a)) s_rep) sd.

(** The keys [compute_loss] itself writes. *)
Definition reserved (k : string) : Prop :=
  k = "critic_loss" ∨ k = "actor_loss" ∨ k = "mask".

(** The returned mapping as the code builds it: the validity mask, a
    scalar actor loss, and a critic entry that is the float [0.0] when the
    critic block is skipped and a scalar otherwise. *)
Definition loss_mapping `{Backend} (a : agent) (rl2s : T3)
  (l : gmap string value) : Prop :=
  l !! "mask" = Some (VMask (state_mask_of MAGIC_PAD_VAL rl2s))
  ∧ (∃ x, l !! "actor_loss" = Some (VScalar x))
  ∧ (l !! "critic_loss" = Some (VFloat 0)
     ↔ fake_filter a = true ∧ ¬ 0 < online_coeff a)
  ∧ ((∃ x, l !! "critic_loss" = Some (VScalar x))
     ↔ ¬ (fake_filter a = true ∧ ¬ 0 < online_coeff a))
  ∧ l !! "critic_loss" ≠ Some VNone.

(** The critic entry, as specified: [None] when critic learning is off. *)
Definition critic_entry_as_specified : Prop :=
  ∀ (H : Backend) (a : agent) (pa : PopArt) (bt : batch) (rnd : draws)
    (log_step : bool) (l : gmap string value) (pa' : PopArt),
    compute_loss a pa bt rnd log_step = Ok (l, pa') →
    fake_filter a = true ∧ ¬ 0 < online_coeff a →
    l !! "critic_loss" = Some VNone.

(** The advantage filter, as specified: [binary_filter] with its default
    threshold in both variants, so also in [Agent.forward]. *)
Definition fbc_filter_as_specified : Prop :=
  ∀ adv : T4, scalar_filter adv = map4 float_of_bool (default_fbc_filter_func adv).

(** The order inside one training step, as specified: backward pass,
    optimizer step, then the soft sync of the targets. *)
Definition step_order_as_specified : Prop :=
  ∀ (H : Backend) (t : trainer) (bt : batch) (rnd : draws) (log_step : bool)
    (t' : trainer) (l : gmap string value),
    trace t = [] →
    train_step t bt rnd log_step true = Ok (t', l) →
    precedes EvBackward EvOptimizerStep (trace t')
    ∧ precedes EvOptimizerStep EvSoftSyncTargets (trace t').

(** Configuration errors, as specified: an unsupported action-space type
    always makes the constructor raise. *)
Definition unsupported_space_as_specified : Prop :=
  ∀ args : init_args,
    arg_action_space args = OtherSpace → ∃ e, Agent__init__ args = Raise e.

(** ** Well-formed sequence lengths *)

(** One length per batch element, each between 1 and the time extent of
    its row. *)
Definition lengths_in_range {A} (v : list (list A)) (lens : list Z) : Prop :=
  length v = length lens
  ∧ ∀ b row len, v !! b = Some row → lens !! b = Some len →
      (1 ≤ len ≤ Z.of_nat (length row))%Z.

(** [o] holds, for every batch element, the single timestep at index
    [len - 1] of [v]. *)
Definition is_current_timestep {A} (v o : list (list A)) (lens : list Z) : Prop :=
  length o = length v
  ∧ ∀ b row len, v !! b = Some row → lens !! b = Some len →
      ∃ x, row !! Z.to_nat (len - 1) = Some x ∧ o !! b = Some [x].

(** ** Chosen actions *)

(** [i] is the index of a largest entry of [v]. *)
Definition is_peak (v : T1) (i : nat) : Prop :=
  ∃ m, v !! i = Some m ∧ ∀ x, x ∈ v → x ≤ m.

(** What the primary-gamma slice of the chosen actions holds at one
    position: with [argmax] the index of a largest entry of the last
    probability vector, otherwise the last entry of the sample or of the
    mean. *)
Definition row_chosen (argmax : bool) (xb : T2) (y : T1) : Prop :=
  ∀ v, last xb = Some v →
    if argmax then ∃ i, is_peak v i ∧ y = [qz (Z.of_nat i)] else y = v.

(** ** Repeated target synchronisation *)

(** [k] calls of [soft_sync_targets] in a row, the online parameters
    staying as they are in between. *)
Fixpoint soft_sync_repeat (tau : Qc) (k : nat) (n : networks) : option networks :=
  match k with
  | O => Some n
  | S k => n' ← soft_sync_targets tau n; soft_sync_repeat tau k n'
  end.

(** ** Insertion-ordered dictionaries *)

(** A Python dict whose iteration order matters: the pairs in insertion
    order. *)
Fixpoint od_get {V} (k : string) (d : list (string * V)) : option V :=
  match d with
  | [] => None
  | (k', v) :: r => if decide (k' = k) then Some v else od_get k r
  end.
(** [d[k] = v]: an existing key keeps its place, a new key goes last. *)
Fixpoint od_set {V} (k : string) (v : V) (d : list (string * V))
  : list (string * V) :=
  match d with
  | [] => [(k, v)]
  | (k', v') :: r =>
      if decide (k' = k) then (k', v) :: r else (k', v') :: od_set k v r
  end.
(** A dict display or comprehension, and [a | b]. *)
Definition od_union {V} (a b : list (string * V)) : list (string * V) :=
  foldl (λ d p, od_set p.1 p.2 d) a b.
Definition od_of_list {V} (l : list (string * V)) : list (string * V) :=
  od_union [] l.

(** ** [Experiment.policy_metrics] *)

(** [np.array(scores).mean()]; the mean of no score is NaN, [None] here. *)
Definition np_mean (scores : list Qc) : option Qc := qmean_list scores.
(** The mean of values of which some may be NaN. *)
Definition np_mean_nan (vals : list (option Qc)) : option Qc :=
  mapM id vals ≫= qmean_list.

(** The body of [for env_name, scores in ret.data.items()]. *)
Definition add_scores (by_env_name : list (string * list Qc))
  (item : string * list Qc) : list (string * list Qc) :=
  match od_get item.1 by_env_name with
  | Some old => od_set item.1 (old ++ item.2) by_env_name
  | None => od_set item.1 item.2 by_env_name
  end.

Definition ret_key (name : string) : string := "Average Total Return in " +:+ name.
Definition suc_key (name : string) : string := "Average Success Rate in " +:+ name.
Definition overall_key : string := "Average Total Return (Across All Env Names)".

(** [returns] and [successes] hold the [data] dicts of the histories, one
    per environment, each history an object of its own: [+=] extends in
    place the list that the first history filed under a name, which a
    history met twice would see. *)
Definition by_env_name (returns successes : list (list (string * list Qc)))
  : list (string * list Qc) * list (string * list Qc) :=
  foldl (λ acc p, (foldl add_scores acc.1 p.1, foldl add_scores acc.2 p.2))
    ([], []) (zip returns successes).

Definition policy_metrics (returns successes : list (list (string * list Qc)))
  : list (string * option Qc) :=
  let '(return_by_env_name, success_by_env_name) := by_env_name returns successes in
  let avg_ret_per_env :=
    od_of_list ((λ p, (ret_key p.1, np_mean p.2)) <$> return_by_env_name) in
  let avg_suc_per_env :=
    od_of_list ((λ p, (suc_key p.1, np_mean p.2)) <$> success_by_env_name) in
  let avg_return_overall :=
    od_of_list [(overall_key, np_mean_nan (avg_ret_per_env.*2))] in
  od_union (od_union avg_ret_per_env avg_suc_per_env) avg_return_overall.

(** The scores filed under [name] in the histories [hs], in order. *)
Definition pooled (name : string) (hs : list (list (string * list Qc))) : list Qc :=
  mjoin ((λ h, mjoin (snd <$> filter (λ p, p.1 = name) h)) <$> hs).
Definition names_of (hs : list (list (string * list Qc))) : list string :=
  mjoin (fmap fst <$> hs).

(** ** [Experiment.log] *)

(** A value of [metrics_dict]: a [torch.Tensor] with its number of axes
    and, for a tensor without axes, the number [.item()] gives (NaN is
    [None]); or any other Python value. *)
Inductive metric (V : Type) :=
| MTensor (ndim : nat) (item : option Qc)
| MValue (v : V).
Arguments MTensor {V} ndim item.
Arguments MValue {V} v.

(** A value handed to [accelerator.log]. *)
Inductive logged (V : Type) :=
| LItem (x : option Qc)
| LValue (v : V)
| LTotalFrames (n : Z).
Arguments LItem {V} x.
Arguments LValue {V} v.
Arguments LTotalFrames {V} n.

(** The loop that fills [log_dict]: tensors without axes are logged as
    numbers, tensors with axes are left out, everything else is kept. *)
Definition log_entry {V} (v : metric V) : option (logged V) :=
  match v with
  | MTensor 0 x => Some (LItem x)
  | MTensor (S _) _ => None
  | MValue v => Some (LValue v)
  end.
Definition log_dict_of {V} (metrics_dict : gmap string (metric V))
  : gmap string (logged V) :=
  omap log_entry metrics_dict.

(** [f"{key}/{subkey}"] *)
Definition log_key (key subkey : string) : string := key +:+ "/" +:+ subkey.

(** [Experiment.log]: what [accelerator.log] receives, if anything.
    [frames] is the answer of the training environments to
    ["total_frames"]. *)
Definition Experiment_log {V} (log_to_wandb : bool) (frames : list Z)
  (metrics_dict : gmap string (metric V)) (key : string)
  : option (gmap string (logged V)) :=
  let log_dict := log_dict_of metrics_dict in
  let total_frames := foldr Z.add 0%Z frames in
  if log_to_wandb then
    Some (py_union
            (py_dict ((λ p, (log_key key p.1, p.2)) <$> map_to_list log_dict))
            (py_dict [("total_frames", LTotalFrames total_frames)]))
  else None.

(** [evaluate_val] once [interact] has answered [returns] and
    [successes]: the metrics, numpy floats, are logged under ["val"]
    after the overall return has been looked up in them (a missing key
    is a [KeyError]).  [Ok None]: nothing reaches [accelerator.log]. *)
Inductive eval_exn := EvalKeyError.
Definition evaluate_val (val_timesteps_per_epoch : Z) (log_to_wandb : bool)
  (frames : list Z) (returns successes : list (list (string * list Qc)))
  : eval_exn + option (gmap string (logged (option Qc))) :=
  if bool_decide (0 < val_timesteps_per_epoch)%Z then
    let logs := policy_metrics returns successes in
    match od_get overall_key logs with
    | None => inl EvalKeyError
    | Some cur_return =>
        inr (Experiment_log log_to_wandb frames (MValue <$> py_dict logs) "val")
    end
  else inr None.

(** The mapping of [compute_loss] as [log] sees it: the masked losses are
    tensors without axes, the mask has three axes, [0.0] and [None] are
    plain values; [stat_metric] tells what each logged statistic is. *)
Definition metric_of_value `{Backend} (stat_metric : Stat → metric value)
  (v : value) : metric value :=
  match v with
  | VScalar x => MTensor 0 x
  | VMask _ => MTensor 3 None
  | VStat s => stat_metric s
  | VNone | VFloat _ => MValue v
  end.

(** ** [Experiment.summary] *)

Definition mode_maximum_context : string :=
  "Maximum Context (Perfect Meta-RL / Long-Term Memory)".
Definition mode_valid_relabeling : string :=
  "Fixed Context with Valid Relabeling (Approximate Meta-RL / POMDPs)".
Definition mode_invalid_relabeling : string :=
  "Fixed Context with Invalid Relabeling (Approximate Meta-RL / POMDPs)".

(** The count of trainable parameters and the mode line of the summary.
    [named_parameters] gives, for each parameter, [requires_grad] and
    [numel()].  A name that none of the three branches binds is an
    [UnboundLocalError], which is a [NameError]. *)
Definition summary (named_parameters : list (bool * nat))
  (horizon max_seq_len traj_save_len : Z) : result (nat * string) :=
  let total_params :=
    foldl (λ total p, if negb p.1 then total else (total + p.2)%nat) 0%nat
      named_parameters in
  _ ← assert_ (bool_decide (max_seq_len ≤ traj_save_len)%Z);
  mode ←
    (if bool_decide (horizon ≤ max_seq_len)%Z && bool_decide (horizon ≤ traj_save_len)%Z
     then Ok mode_maximum_context
     else if bool_decide (max_seq_len < horizon)%Z
             && bool_decide (horizon ≤ traj_save_len)%Z
     then Ok mode_valid_relabeling
     else if bool_decide (max_seq_len < horizon)%Z
             && bool_decide (traj_save_len < horizon)%Z
     then Ok mode_invalid_relabeling
     else Raise NameError);
  Ok (total_params, mode).

(** ** Checkpoint files ([init_checkpoints], [save_checkpoint],
    [load_checkpoint]) *)

(** [os.path.join] on POSIX paths. *)
Definition starts_with_sep (s : string) : bool :=
  match s with
  | String c _ => bool_decide (String c "" = "/")
  | EmptyString => false
  end.
Fixpoint ends_with_sep (s : string) : bool :=
  match s with
  | EmptyString => false
  | String c EmptyString => bool_decide (String c "" = "/")
  | String _ r => ends_with_sep r
  end.
Definition path_join1 (path b : string) : string :=
  if starts_with_sep b then b
  else if bool_decide (path = "") || ends_with_sep path then path +:+ b
  else path +:+ "/" +:+ b.
Definition os_path_join (a : string) (p : list string) : string :=
  foldl path_join1 a p.

(** The part of an [Experiment] the checkpoint methods use. *)
Record ckpt_state := {
  run_name : string;
  ckpt_dir : string;
  epoch : Z;
}.

Inductive ckpt_event :=
| EvBreakpoint
| EvLoadState (path : string)
| EvSaveState (path : string).

(** [init_checkpoints] ([os.makedirs] aside). *)
Definition init_checkpoints (run dset_root dset_name : string) : ckpt_state :=
  {| run_name := run;
     ckpt_dir := os_path_join dset_root [dset_name; "ckpts"];
     epoch := 0 |}.

Definition save_checkpoint (st : ckpt_state) (saving_latest : bool)
  : list ckpt_event :=
  let ckpt_name :=
    if saving_latest then run_name st +:+ "_LATEST"
    else run_name st +:+ "_epoch_" +:+ pretty (epoch st) in
  [EvSaveState (os_path_join (ckpt_dir st) [ckpt_name])].

(** [load_checkpoint] starts with a call of [breakpoint()] and never
    reads [loading_latest]. *)
Definition load_checkpoint (st : ckpt_state) (epoch_arg : option Z)
  (loading_latest : bool) : ckpt_state * list ckpt_event :=
  let '(ckpt_name, st) :=
    match epoch_arg with
    | Some e =>
        (run_name st +:+ "_epoch_" +:+ pretty e,
         {| run_name := run_name st; ckpt_dir := ckpt_dir st; epoch := e |})
    | None => (run_name st +:+ "_LATEST", st)
    end in
  let ckpt_path := os_path_join (ckpt_dir st) [ckpt_name] in
  (st, [EvBreakpoint; EvLoadState ckpt_path]).

(** ** The epoch loop ([Experiment.learn]) *)

Inductive learn_exn := ZeroDivisionError | UnboundLocalError.

#[global] Instance learn_ret : MRet (sum learn_exn) := λ A, inr.
#[global] Instance learn_bind : MBind (sum learn_exn) := λ A B f m,
  match m with
  | inl e => inl e
  | inr a => f a
  end.

(** [a % b == 0] *)
Definition mod_is_zero (a b : Z) : learn_exn + bool :=
  if decide (b = 0)%Z then inl ZeroDivisionError
  else inr (bool_decide (a `mod` b = 0)%Z).

Record learn_config := {
  cfg_epochs : Z;
  start_learning_at_epoch : Z;
  start_collecting_at_epoch : Z;
  train_grad_updates_per_epoch : Z;
  val_interval : Z;
  log_interval : Z;
  ckpt_interval : Z;
  save_latest_ckpt : bool;
  always_load_latest_ckpt : bool;
  dset_max_size : Z;
  dset_filter_pct : option Qc;
}.

(** What the datasets, the loaders and the accelerator answer during one
    epoch. *)
Record epoch_world := {
  train_trajectories : Z;
  train_batches : nat;
  val_trajectories : Z;
  val_batches : nat;
  dset_size : Z;
  is_main_process : bool;
}.

(** The calls the loop makes, in order. *)
Inductive learn_event :=
| LLoadCheckpoint
| LPolicyEval
| LEvaluateVal
| LCollectNewTrainingData
| LWaitForEveryone
| LInitDloaders
| LPolicyTrain
| LWarnSkip (epoch : Z)
| LTrainStep (total_step : Z) (log_step : bool)
| LLog (key : string)
| LValStep
| LMakeFigures
| LValDsetClear
| LFilter
| LSetEpoch (epoch : Z)
| LSaveCheckpoint (saving_latest : bool)
| LFreeMemory.

(** [self.epoch] and whether the local [loss_dict] has been bound. *)
Record learn_state := {
  self_epoch : Z;
  loss_dict_bound : bool;
}.

(** [for train_step, batch in enumerate(self.train_dloader)] with its
    body; [n] batches are left, the next has index [train_step]. *)
Fixpoint train_loop (cfg : learn_config) (epoch : Z) (train_step n : nat)
  : learn_exn + list learn_event :=
  match n with
  | O => inr []
  | S n =>
      let total_step :=
        (epoch * train_grad_updates_per_epoch cfg + Z.of_nat train_step)%Z in
      log_step ← mod_is_zero total_step (log_interval cfg);
      rest ← train_loop cfg epoch (S train_step) n;
      inr (LTrainStep total_step log_step
             :: (if log_step : bool then [LLog "train-update"] else []) ++ rest)
  end.

(** The validation block. *)
Definition val_block (st : learn_state) (w : epoch_world)
  : learn_exn + learn_state * list learn_event :=
  let steps := mjoin (replicate (val_batches w) [LValStep; LLog "val-update"]) in
  let bound := loss_dict_bound st || bool_decide (0 < val_batches w)%nat in
  if bound then
    inr ({| self_epoch := self_epoch st; loss_dict_bound := true |},
         [LPolicyEval] ++ steps ++ [LMakeFigures; LLog "val-update"; LValDsetClear])
  else inl UnboundLocalError.

(** The end of an epoch that was not skipped: buffer management and
    checkpoints. *)
Definition end_of_epoch (cfg : learn_config) (w : epoch_world) (epoch : Z)
  (st : learn_state) : learn_exn + learn_state * list learn_event :=
  let needs_filter :=
    bool_decide (dset_max_size cfg < dset_size w)%Z
    && bool_decide (is_Some (dset_filter_pct cfg)) in
  let filter := if needs_filter && is_main_process w then [LFilter] else [] in
  save ← mod_is_zero epoch (ckpt_interval cfg);
  inr ({| self_epoch := epoch; loss_dict_bound := loss_dict_bound st |},
       filter ++ [LLog "buffer"; LWaitForEveryone; LSetEpoch epoch]
       ++ (if save : bool then [LSaveCheckpoint false] else [])
       ++ (if save_latest_ckpt cfg then [LSaveCheckpoint true] else [])
       ++ [LFreeMemory]).

(** The body of [for epoch in range(start_epoch, self.epochs)]. *)
Definition learn_epoch (cfg : learn_config) (w : epoch_world) (st : learn_state)
  (epoch : Z) : learn_exn + learn_state * list learn_event :=
  let ev0 :=
    (if always_load_latest_ckpt cfg then [LLoadCheckpoint] else [])
    ++ [LPolicyEval] in
  is_val ← mod_is_zero epoch (val_interval cfg);
  let ev1 :=
    ev0 ++ (if is_val : bool then [LEvaluateVal] else [])
    ++ (if bool_decide (start_collecting_at_epoch cfg ≤ epoch)%Z
        then [LCollectNewTrainingData] else [])
    ++ [LWaitForEveryone; LInitDloaders; LPolicyTrain] in
  if bool_decide (train_trajectories w = 0)%Z then
    inr (st, ev1 ++ [LWarnSkip epoch])
  else if bool_decide (epoch < start_learning_at_epoch cfg)%Z then
    inr (st, ev1)
  else
    train ← train_loop cfg epoch 0 (train_batches w);
    let st :=
      {| self_epoch := self_epoch st;
         loss_dict_bound :=
           loss_dict_bound st || bool_decide (0 < train_batches w)%nat |} in
    val ←
      (if (is_val : bool) && bool_decide (0 < val_trajectories w)%Z
       then val_block st w else inr (st, []));
    fin ← end_of_epoch cfg w epoch val.1;
    inr (fin.1, ev1 ++ train ++ [LWaitForEveryone] ++ val.2 ++ fin.2).

(** [Experiment.learn]: the epochs from [self.epoch] on; [world] gives
    the answers of the outside for each epoch.  Result: [self.epoch]
    after the call and the calls made. *)
Fixpoint learn_epochs (cfg : learn_config) (world : Z → epoch_world)
  (st : learn_state) (epochs : list Z)
  : learn_exn + learn_state * list learn_event :=
  match epochs with
  | [] => inr (st, [])
  | epoch :: rest =>
      r ← learn_epoch cfg (world epoch) st epoch;
      r' ← learn_epochs cfg world r.1 rest;
      inr (r'.1, r.2 ++ r'.2)
  end.
Definition learn (cfg : learn_config) (world : Z → epoch_world)
  (self_epoch0 : Z) : learn_exn + Z * list learn_event :=
  let start_epoch := self_epoch0 in
  r ← learn_epochs cfg world
         {| self_epoch := self_epoch0; loss_dict_bound := false |}
         (seqZ start_epoch (cfg_epochs cfg - start_epoch));
  inr (self_epoch r.1, r.2).

(** The gradient steps and the checkpoint writes among the calls. *)
Definition is_train_step (e : learn_event) : bool :=
  match e with LTrainStep _ _ => true | _ => false end.
Definition is_save (e : learn_event) : bool :=
  match e with LSaveCheckpoint _ => true | _ => false end.

(** ** Timestep encoders ([nets/tstep_encoders.py]) *)

Inductive enc_exn := EncKeyError | EncRuntimeError.

(** [torch.cat((x, y), dim=-1)] of two [B, L, .] tensors: the batch and
    time extents must agree. *)
Definition cat_last (x y : T3) : option T3 :=
  if decide (length x = length y) then
    mapM (λ p : T2 * T2,
            if decide (length p.1 = length p.2)
            then Some (zip_with app p.1 p.2) else None) (zip x y)
  else None.

(** Two tensors of one shape. *)
Definition same_shape3 (x y : T3) : Prop :=
  Forall2 (Forall2 (λ a b : T1, length a = length b)) x y.

(** [og_split = max(min(math.ceil(B * 0.25), B - 1), 0)] *)
Definition og_split (B : Z) : Z :=
  Z.max (Z.min (Qceiling (inject_Z B * (1 # 4))) (B - 1)) 0.

Section tstep_encoders.
Context {Goals NormStats LogDict : Type}.
(** The sub-modules, whose code lies outside the sources at hand. *)
Variable goal_emb : Goals → T3.
Variable in_norm : NormStats → T3 → T3.
Variable update_stats : NormStats → T3 → NormStats.
Variable base : T3 → T3.
Variable out_norm : T3 → T3.
Variable cnn : T3 → T3.
Variable data_aug : T3 → T3.
Variable img_features : T3 → T3.
Variable rl2_features : T3 → T3.
Variable merge : T3 → T3.
Variable rl2_norm : NormStats → T3 → T3.
Variable symlog : T3 → T3.
Variable add_activation_log : string → T3 → option LogDict → option LogDict.

(** [FFTstepEncoder.inner_forward].  [obs["observation"]] is given with
    its trailing axes flattened, as [obs.view(B, L, -1)] lays them out;
    with an empty batch or time axis the [-1] of [view] is ambiguous and
    [view] raises.  Result: the embedding and
    the statistics of [in_norm] after the call. *)
Definition FF_inner_forward (training hide_rl2s : bool) (stats : NormStats)
  (obs : gmap string T3) (goal_rep rl2s : T3) : enc_exn + T3 * NormStats :=
  match obs !! "observation" with
  | None => inl EncKeyError
  | Some o =>
      if bool_decide (length o = 0 ∨ dim1 o = 0)%nat then inl EncRuntimeError
      else
        let rl2s := if hide_rl2s then map3 (λ x, x * 0) rl2s else rl2s in
        match cat_last o rl2s with
        | None => inl EncRuntimeError
        | Some flat_obs_rl2 =>
            let stats :=
              if training then update_stats stats flat_obs_rl2 else stats in
            let flat_obs_rl2 := in_norm stats flat_obs_rl2 in
            match cat_last flat_obs_rl2 goal_rep with
            | None => inl EncRuntimeError
            | Some obs_rl2_goals => inr (out_norm (base obs_rl2_goals), stats)
            end
        end
  end.

(** [TstepEncoder.forward] for the feed-forward encoder. *)
Definition FF_forward (training hide_rl2s : bool) (stats : NormStats)
  (obs : gmap string T3) (goals : Goals) (rl2s : T3) : enc_exn + T3 * NormStats :=
  let goal_rep := goal_emb goals in
  FF_inner_forward training hide_rl2s stats obs goal_rep rl2s.

(** The images that go through the CNN in training mode: the first
    [og_split] batch rows as they are, the others augmented
    ([data_aug] keeps the shape of what it is given). *)
Definition split_augment (img : T3) : T3 :=
  let B := Z.of_nat (length img) in
  let og := Z.to_nat (og_split B) in
  take og img ++ data_aug (drop og img).

(** [CNNTstepEncoder.inner_forward].  Result: the embedding, the
    statistics of [rl2_norm] and the log dict after the call. *)
Definition CNN_inner_forward (training hide_rl2s : bool) (stats : NormStats)
  (obs : gmap string T3) (goal_rep rl2s : T3) (log_dict : option LogDict)
  : enc_exn + T3 * NormStats * option LogDict :=
  match obs !! "observation" with
  | None => inl EncKeyError
  | Some img =>
      let img := if training then split_augment img else img in
      let img := map3 (λ x, x / qz 128 - 1) img in
      let img_rep := cnn img in
      let log_dict := add_activation_log "cnn_out" img_rep log_dict in
      let img_rep := img_features img_rep in
      let log_dict := add_activation_log "img_features" img_rep log_dict in
      let rl2s := symlog rl2s in
      let rl2s_norm := rl2_norm stats rl2s in
      let stats := if training then update_stats stats rl2s else stats in
      let rl2s_norm := if hide_rl2s then map3 (λ x, x * 0) rl2s_norm else rl2s_norm in
      let rl2s_rep := rl2_features rl2s_norm in
      match cat_last img_rep goal_rep ≫= λ ig, cat_last ig rl2s_rep with
      | None => inl EncRuntimeError
      | Some inp =>
          let merged := merge inp in
          let log_dict := add_activation_log "tstep_encoder_prenorm" merged log_dict in
          inr (out_norm merged, stats, log_dict)
      end
  end.

End tstep_encoders.

(** ** [Agent.add_data_to_sequence_buffer] *)

(** What [add_timestep] receives: the obs dict, the goal array and the rl2
    array. *)
Inductive payload (O : Type) :=
| PObs (d : gmap string (list (list O)))
| PGoal (g : T4)
| PRl2 (r : T3).
Arguments PObs {O} d.
Arguments PGoal {O} g.
Arguments PRl2 {O} r.

(** [np.concatenate((_reset, _reward, _time, _action), axis=-1)]: every
    part must be a [1, 1, .] array. *)
Definition concat_rl2 (reset reward time : Qc) (action_arr : ndarray) : option T3 :=
  match action_arr with
  | Nd3 [[row]] => Some [[ [reset; reward; time] ++ row ]]
  | _ => None
  end.

(** The rl2 array of one timestep.  On the first timestep the action and
    the reward are dummies; later [action] (the array [get_actions]
    returned) gets a leading axis and [reward] is wrapped.  A missing
    action or reward makes numpy raise: [None]. *)
Definition rl2_of_timestep (action_dim : nat) (time_step : Z)
  (action : option ndarray) (reward : option Qc) : option T3 :=
  let _time := qz time_step in
  if bool_decide (time_step = 0)%Z then
    concat_rl2 1 0 _time (Nd3 [[replicate action_dim (qz (-2))]])
  else
    a ← action; r ← reward;
    match a with
    | Nd2 t => concat_rl2 0 r _time (Nd3 [t])
    | Nd3 _ => None
    end.

Section sequence_buffer.
Context {O Buf : Type}.
(** [GPUSequenceBuffer.add_timestep] *)
Variable add_timestep : Buf → payload O → list (list bool) → Buf.

Definition add_data_to_sequence_buffer (a : agent) (obs : O) (time_step : Z)
  (done : bool) (obs_sequence goal_sequence rl2_sequence : Buf)
  (action : option ndarray) (reward : option Qc) : option (Buf * Buf * Buf) :=
  let _obs : gmap string (list (list O)) := {[ "observation" := [[obs]] ]} in
  let _done := [[done]] in
  let _goal : T4 := [[[[0]]]] in
  _rl2 ← rl2_of_timestep (action_dim a) time_step action reward;
  Some (add_timestep obs_sequence (PObs _obs) _done,
        add_timestep goal_sequence (PGoal _goal) _done,
        add_timestep rl2_sequence (PRl2 _rl2) _done).

End sequence_buffer.
(** ** Concrete inputs used by the examples below *)

Definition demo_networks : networks :=
  {| tstep_encoder := [[qz 7]]; traj_encoder := [[qz 8; qz 9]];
     critics := [[qz 1; qz 2]; [qz 3]]; actor := [[qz 4]];
     target_critics := [[0; 0]; [qz 10]]; target_actor := [[qz 20]];
     maximized_critics := [[qz 5; qz 5]; [qz 5]] |}.


(** An agent with two critics, both drawn for the TD target, and one
    discount factor. *)
Definition demo_agent (online : Qc) (use_target : bool) (fake : bool) : agent :=
  {| action_dim := 1; discrete := false; multibinary := false;
     actions_differentiable := true;
     reward_multiplier := qz 10; fake_filter := fake;
     offline_coeff := qfrac 1 10; online_coeff := online;
     tau := qfrac 3 1000; use_target_actor := use_target;
     _critic_loss_weight := qz 10; gammas := [qfrac 9 10];
     num_critics := 2; num_critics_td := 2;
     nets := demo_networks |}.

(** Ensemble targets [B = 1, L - 1 = 1, C = 2, G = 1]: critic 0 says 5,
    critic 1 says 3. *)
Definition ens_demo : T5 := [[ [[[qz 5]]; [[qz 3]]] ]].
(** Two draws that hit critic 0 twice, and two draws that hit each critic
    once. *)
Definition idx_repeat : I5 := [[ [[[0%nat]]; [[0%nat]]] ]].
Definition idx_perm : I5 := [[ [[[1%nat]]; [[0%nat]]] ]].

(** A small concrete collaborator set: the actor outputs its first
    parameter entry for every position (one gamma, one action dimension),
    sampling returns that value, critic [c] adds its first parameter entry
    to the sum of the action, PopArt is the identity, and the optimizer
    adds one to every trainable entry. *)
Definition first_entry (p : params) : Qc := hd 0 (hd [] p).
Definition bump (p : params) : params := map2 (Qcplus 1) p.
Definition demo_critics (p : params) (s : T3) (a : T4) : T5 :=
  zip_with (zip_with (λ (_ : T1) (a_bl : T2),
    (λ pc : T1, (λ ag : T1, [hd 0 pc + qsum ag]) <$> a_bl) <$> p)) s a.

Definition demo_backend : Backend :=
  {| ObsFrame := unit; GoalFrame := unit; Hidden := unit;
     Dist := T4; StepDist := T3; BinDist := T5; Seed := unit;
     PopArt := unit; Stat := unit;
     MAGIC_PAD_VAL := qz 4;
     tstep_encoder_fwd := λ _ _ _ rl2s, map2 (λ v : T1, [qsum v]) rl2s;
     tstep_encoder_log := λ _ _ _ _, ∅;
     traj_emb_dim := 1;
     traj_encoder_fwd := λ _ o _ _, (o, tt);
     actor_fwd := λ p s, map2 (λ _ : T1, [[first_entry p]]) s;
     dist_probs := λ d, d;
     dist_sample := λ d _, d;
     dist_rsample := λ d _, d;
     dist_mean := λ d, d;
     dist_sample_k := λ d K _, replicate K d;
     dist_log_prob_index := λ _ idx, map3 (λ _ : nat, 0) idx;
     dist_log_prob := λ d a, zip4 (λ m x, - ((x - m) * (x - m))) d a;
     discrete_like_continuous := λ d, d;
     actor_step := λ p e, (λ _ : T1, [[first_entry p]]) <$> e;
     step_probs := λ d, d;
     step_sample := λ d _, d;
     step_mean := λ d, d;
     critics_fwd := demo_critics;
     critics_twohot_fwd := demo_critics;
     num_bins := 1;
     bin_probs := λ d, d;
     bin_logits := λ d, d;
     bin_dist_to_raw_vals := λ d, d;
     raw_vals_to_labels := λ t, t;
     cross_entropy := λ lg lb, (hd 0 lg - hd 0 lb) * (hd 0 lg - hd 0 lb);
     popart_fwd5 := λ _ _ x, x;
     popart_fwd4 := λ _ _ x, x;
     popart_update_stats := λ pa _ _, pa;
     popart_normalize_values5 := λ _ x, x;
     popart_normalize_values4 := λ _ x, x;
     stat_td := λ _ _ _ _ _ _, tt;
     stat_td_bins := λ _ _ _, tt;
     stat_popart := λ _ _, tt;
     stat_policy := λ _ _ _, tt;
     stat_filter := λ _ _ _ _, tt;
     Grads := unit; OptState := unit;
     zero_grad := λ g, g;
     backward_pass := λ g _ _, g;
     clip_grad_norm_ := λ g, g;
     optimizer_step := λ o _ _ p,
       (o, (bump p.1.1.1, bump p.1.1.2, bump p.1.2, bump p.2));
     lr_schedule_step := λ o, o;
     stat_grad_norm := λ _ _, tt;
     fmt_gamma := λ _, "0.900";
     fmt_gamma_sp := λ _, " 0.900" |}.

(** The demo collaborators with an actor whose parameters are the
    probabilities themselves, one row per gamma, at every batch
    position. *)
Definition peak_backend : Backend :=
  {| ObsFrame := unit; GoalFrame := unit; Hidden := unit;
     Dist := T4; StepDist := T3; BinDist := T5; Seed := unit;
     PopArt := unit; Stat := unit;
     MAGIC_PAD_VAL := qz 4;
     tstep_encoder_fwd := λ _ _ _ rl2s, map2 (λ v : T1, [qsum v]) rl2s;
     tstep_encoder_log := λ _ _ _ _, ∅;
     traj_emb_dim := 1;
     traj_encoder_fwd := λ _ o _ _, (o, tt);
     actor_fwd := λ p s, map2 (λ _ : T1, [[first_entry p]]) s;
     dist_probs := λ d, d;
     dist_sample := λ d _, d;
     dist_rsample := λ d _, d;
     dist_mean := λ d, d;
     dist_sample_k := λ d K _, replicate K d;
     dist_log_prob_index := λ _ idx, map3 (λ _ : nat, 0) idx;
     dist_log_prob := λ d a, zip4 (λ m x, - ((x - m) * (x - m))) d a;
     discrete_like_continuous := λ d, d;
     actor_step := λ p e, (λ _ : T1, p) <$> e;
     step_probs := λ d, d;
     step_sample := λ d _, d;
     step_mean := λ d, d;
     critics_fwd := demo_critics;
     critics_twohot_fwd := demo_critics;
     num_bins := 1;
     bin_probs := λ d, d;
     bin_logits := λ d, d;
     bin_dist_to_raw_vals := λ d, d;
     raw_vals_to_labels := λ t, t;
     cross_entropy := λ lg lb, (hd 0 lg - hd 0 lb) * (hd 0 lg - hd 0 lb);
     popart_fwd5 := λ _ _ x, x;
     popart_fwd4 := λ _ _ x, x;
     popart_update_stats := λ pa _ _, pa;
     popart_normalize_values5 := λ _ x, x;
     popart_normalize_values4 := λ _ x, x;
     stat_td := λ _ _ _ _ _ _, tt;
     stat_td_bins := λ _ _ _, tt;
     stat_popart := λ _ _, tt;
     stat_policy := λ _ _ _, tt;
     stat_filter := λ _ _ _ _, tt;
     Grads := unit; OptState := unit;
     zero_grad := λ g, g;
     backward_pass := λ g _ _, g;
     clip_grad_norm_ := λ g, g;
     optimizer_step := λ o _ _ p,
       (o, (bump p.1.1.1, bump p.1.1.2, bump p.1.2, bump p.2));
     lr_schedule_step := λ o, o;
     stat_grad_norm := λ _ _, tt;
     fmt_gamma := λ _, "0.900";
     fmt_gamma_sp := λ _, " 0.900" |}.

(** A discrete agent with two gammas and four actions: the distribution
    of the first gamma peaks at action 0, that of the last gamma at
    action 2. *)
Definition peak_networks : networks :=
  {| tstep_encoder := [[qz 7]]; traj_encoder := [[qz 8; qz 9]];
     critics := [[qz 1; qz 2]; [qz 3]];
     actor := [[qfrac 6 10; qfrac 2 10; qfrac 1 10; qfrac 1 10];
               [qfrac 1 10; qfrac 2 10; qfrac 6 10; qfrac 1 10]];
     target_critics := [[0; 0]; [qz 10]];
     target_actor := [[qfrac 1 4; qfrac 1 4; qfrac 1 4; qfrac 1 4];
                      [qfrac 1 4; qfrac 1 4; qfrac 1 4; qfrac 1 4]];
     maximized_critics := [[qz 5; qz 5]; [qz 5]] |}.
Definition peak_agent : agent :=
  {| action_dim := 4; discrete := true; multibinary := false;
     actions_differentiable := false;
     reward_multiplier := qz 10; fake_filter := false;
     offline_coeff := qfrac 1 10; online_coeff := 0;
     tau := qfrac 3 1000; use_target_actor := true;
     _critic_loss_weight := qz 10; gammas := [qfrac 9 10; qfrac 99 100];
     num_critics := 2; num_critics_td := 2;
     nets := peak_networks |}.

(** One trajectory of two timesteps, both valid, with one transition. *)
Definition demo_batch : @batch demo_backend :=
  @Build_batch demo_backend ∅ [[tt; tt]] [[ [1; 0]; [0; 1] ]] [[ [qfrac 1 2] ]]
    [[ [1] ]] [[ [0] ]] [[0%Z; 1%Z]].
Definition demo_draws : @draws demo_backend :=
  @Build_draws demo_backend tt tt tt tt (λ p, p).
(** The trajectory embedding of the demo batch. *)
Definition demo_s_rep : T3 := [[ [1]; [1] ]].

(** One trajectory of four timesteps of which the last two are padding
    (every rl2 entry is the padding value 4), with actor and critic losses
    for its three transitions and two critics. *)
Definition padded_rl2s : T3 := [[ [1; 0]; [0; 1]; [qz 4; qz 4]; [qz 4; qz 4] ]].
Definition padded_actor_loss : T4 := [[ [[qz 7]]; [[qz 9]]; [[qz 11]] ]].
Definition padded_actor_noise : T4 := [[ [[qz 100]]; [[qz 200]]; [[qz 300]] ]].
Definition padded_critic_loss : T5 :=
  [[ [[[qz 2]]; [[qz 6]]]; [[[qz 3]]; [[qz 5]]]; [[[qz 8]]; [[qz 1]]] ]].
Definition padded_critic_noise : T5 :=
  [[ [[[qz 50]]; [[qz 60]]]; [[[qz 70]]; [[qz 80]]]; [[[qz 90]]; [[qz 10]]] ]].

(** What the critic block hands over on the demo batch. *)
Definition demo_critic_out : @critic_out demo_backend :=
  @Build_critic_out demo_backend
    [[ [[[qz 9]]; [[qz 9]]]; [[[qz 9]]; [[qz 9]]] ]]
    [[ [[[qfrac 3 2]]; [[qfrac 7 2]]] ]]
    [[ [[[qz 28]]] ]]
    [[ [[[qfrac 2809 4]]; [[qfrac 2401 4]]] ]]
    tt ∅.
Definition demo_a_dist : T4 := [[ [[qz 4]]; [[qz 4]] ]].
Definition demo_a_buffer : T4 := [[ [[qfrac 1 2]]; [[qfrac 1 2]] ]].
Definition demo_actor_mask : T4 := [[ [[1]]; [[1]] ]].

(** A trainer around the demo agent, before its first step. *)
Definition demo_trainer : @trainer demo_backend :=
  @Build_trainer demo_backend (demo_agent 1 true false) tt tt tt (qz 10) [].

(** The mapping that [Experiment.compute_loss] returns on the demo batch
    for an agent with [fake_filter] set and a zero online coefficient, and
    the result of the scalar FBC step on the demo values. *)
Definition demo_loss_dict : gmap string (@value demo_backend) :=
  Eval vm_compute in
    match @compute_loss demo_backend (demo_agent 0 true true) tt demo_batch
            demo_draws false with
    | Ok (l, _) => l
    | Raise _ => ∅
    end.
Definition demo_fbc_out : T4 * gmap string unit :=
  Eval vm_compute in
    match @fbc_step demo_backend (demo_agent 0 true false) false 1 2 1
            (Some demo_critic_out) demo_a_dist demo_a_buffer demo_actor_mask
            (full4 1 1 1 1 0) with
    | Ok out => out
    | Raise _ => ([], ∅)
    end.

(** The state after one synchronised, non-logging training step of the
    demo trainer. *)
Definition demo_step_result : @trainer demo_backend * gmap string (@value demo_backend) :=
  Eval vm_compute in
    match @train_step demo_backend demo_trainer demo_batch demo_draws false true with
    | Ok r => r
    | Raise _ => (demo_trainer, ∅)
    end.

(** Constructor arguments with the defaults of [Agent.__init__]. *)
Definition demo_args (sp : space) (dim : option nat) (critics_td : nat)
  : init_args :=
  {| arg_action_space := sp; arg_action_dim := dim;
     arg_critic_loss_weight := qz 10;
     arg_num_critics := 2; arg_num_critics_td := critics_td;
     arg_online_coeff := 1; arg_offline_coeff := qfrac 1 10;
     arg_gamma := qfrac 999 1000; arg_reward_multiplier := qz 10;
     arg_tau := qfrac 3 1000; arg_fake_filter := false;
     arg_use_target_actor := true; arg_use_multigamma := true;
     init_networks := demo_networks; actor_differentiable := true |}.

(** ** Further concrete inputs *)

(** A two-hot agent on the demo networks. *)
Definition demo_multitask (online offline : Qc) (fake : bool) : multitask_agent :=
  {| base :=
       {| action_dim := 1; discrete := false; multibinary := false;
          actions_differentiable := true;
          reward_multiplier := qz 10; fake_filter := fake;
          offline_coeff := offline; online_coeff := online;
          tau := qfrac 3 1000; use_target_actor := true;
          _critic_loss_weight := qz 10; gammas := [qfrac 9 10];
          num_critics := 2; num_critics_td := 2;
          nets := demo_networks |};
     fbc_filter_k := 3;
     fbc_filter_func := default_fbc_filter_func |}.

(** The pass of the two-hot agent with both loss coefficients at zero. *)
Definition demo_multitask_out
  : option T5 * loss_val * unit * gmap string unit :=
  Eval vm_compute in
    match @MultiTaskAgent_forward demo_backend (demo_multitask 0 0 false) tt
            demo_batch demo_draws false with
    | Ok r => r
    | Raise _ => (None, LossFloat 1, tt, ∅)
    end.

(** One [Agent.update] of the demo trainer. *)
Definition demo_update_result
  : @trainer demo_backend * gmap string (@value demo_backend) :=
  Eval vm_compute in
    match @Agent_update demo_backend demo_trainer demo_batch demo_draws with
    | Ok r => r
    | Raise _ => (demo_trainer, ∅)
    end.

(** The demo networks with other critics, target critics, maximized
    critics and target actor. *)
Definition demo_networks_other_critics : networks :=
  {| tstep_encoder := [[qz 7]]; traj_encoder := [[qz 8; qz 9]];
     critics := [[qz 11; qz 12]; [qz 13]]; actor := [[qz 4]];
     target_critics := [[qz 14; qz 15]; [qz 16]]; target_actor := [[qz 17]];
     maximized_critics := [[qz 18; qz 19]; [qz 21]] |}.

(** A batch whose only sequence has a single timestep and no transition. *)
Definition single_step_batch : @batch demo_backend :=
  @Build_batch demo_backend ∅ [[tt]] [[ [1; 0] ]] [ [] ] [ [] ] [ [] ] [[0%Z]].

(** A run of three epochs that starts to learn at epoch 1, with two
    batches per epoch. *)
Definition demo_learn_config : learn_config :=
  {| cfg_epochs := 3; start_learning_at_epoch := 1;
     start_collecting_at_epoch := 0; train_grad_updates_per_epoch := 2;
     val_interval := 2; log_interval := 2; ckpt_interval := 2;
     save_latest_ckpt := true; always_load_latest_ckpt := false;
     dset_max_size := 10; dset_filter_pct := Some (qfrac 1 2) |}.
Definition demo_world (e : Z) : epoch_world :=
  {| train_trajectories := 5; train_batches := 2; val_trajectories := 1;
     val_batches := 1; dset_size := 5; is_main_process := true |}.
Definition demo_learn_state : learn_state :=
  {| self_epoch := 0; loss_dict_bound := false |}.
Definition demo_epoch_events : list learn_event :=
  Eval vm_compute in
    match learn_epoch demo_learn_config (demo_world 2) demo_learn_state 2 with
    | inr (_, ev) => ev
    | inl _ => []
    end.
Definition demo_learn_events : list learn_event :=
  Eval vm_compute in
    match learn demo_learn_config demo_world 1 with
    | inr (_, ev) => ev
    | inl _ => []
    end.
(* ================================================================== *)
(** * Properties *)
(* ================================================================== *)

Ltac qc_decide :=
  match goal with |- ?P => apply (bool_decide_unpack P); vm_compute; exact I end.

(** ** Target synchronisation *)

Lemma same_arch_length x y : same_arch x y → length x = length y.
Proof. apply Forall2_length. Qed.

Lemma full_copy_aligned target online :
  same_arch target online → _full_copy target online = Some online.
Proof.
  induction 1 as [|tp p ts ps Hlen _ IH]; [done|].
  simpl. unfold copy_. rewrite decide_True by done. simpl.
  by rewrite IH.
Qed.

Lemma ema_copy_aligned tau target online :
  same_arch target online →
  ∃ new, _ema_copy tau target online = Some new
    ∧ same_arch new online
    ∧ ∀ i j old on, entry target i j = Some old → entry online i j = Some on →
        entry new i j = Some ((1 - tau) * old + tau * on).
Proof.
  induction 1 as [|tp p ts ps Hlen _ (new & Hnew & Harch & Hent)].
  - exists []. split; [done|]. split; [constructor|]. by intros [|i] j old on.
  - exists (zip_with (λ t o, t * (1 - tau) + o * tau) tp p :: new).
    split; [|split].
    + simpl. unfold ema_mix, copy_. rewrite decide_True by done. simpl.
      rewrite decide_True by (rewrite length_zip_with; lia). simpl.
      by rewrite Hnew.
    + constructor; [|done]. rewrite length_zip_with. lia.
    + intros [|i] j old on; unfold entry; simpl.
      * intros Ho Hn. rewrite lookup_zip_with, Ho. simpl. rewrite Hn. simpl.
        f_equal. ring.
      * apply Hent.
Qed.

Lemma hard_sync_aligned (n : networks) :
  aligned n →
  ∃ h, hard_sync_targets n = Some h
     ∧ target_critics h = critics h ∧ target_actor h = actor h
     ∧ maximized_critics h = critics h.
Proof.
  intros (Hc & Ha & Hm). eexists. unfold hard_sync_targets.
  rewrite (full_copy_aligned _ _ Hc), (full_copy_aligned _ _ Ha),
    (full_copy_aligned _ _ Hm). simpl.
  split; [reflexivity|]. done.
Qed.

(** C3.  [hard_sync_targets] (the last step of building the networks) makes
    the target actor, the target critics and the maximized critics equal to
    the online parameters, so any network function gives the same output
    on both; one [soft_sync_targets] with rate [tau] makes every target
    entry [(1 - tau) * old + tau * online] and the maximized critics equal
    to the online critics; neither changes an online parameter. *)
Theorem C3_sync_targets (n : networks) (tau : Qc) :
  aligned n →
  (∃ h, hard_sync_targets n = Some h
     ∧ target_critics h = critics h ∧ target_actor h = actor h
     ∧ maximized_critics h = critics h
     ∧ (∀ (In Out : Type) (net : params → In → Out) (x : In),
          net (target_critics h) x = net (critics h) x
          ∧ net (target_actor h) x = net (actor h) x
          ∧ net (maximized_critics h) x = net (critics h) x)
     ∧ trainable_params h = trainable_params n)
  ∧ (∃ s, soft_sync_targets tau n = Some s
     ∧ (∀ i j old on, entry (target_critics n) i j = Some old →
          entry (critics n) i j = Some on →
          entry (target_critics s) i j = Some ((1 - tau) * old + tau * on))
     ∧ (∀ i j old on, entry (target_actor n) i j = Some old →
          entry (actor n) i j = Some on →
          entry (target_actor s) i j = Some ((1 - tau) * old + tau * on))
     ∧ same_arch (target_critics s) (critics s)
     ∧ same_arch (target_actor s) (actor s)
     ∧ maximized_critics s = critics s
     ∧ trainable_params s = trainable_params n).
Proof.
  intros (Hc & Ha & Hm). split.
  - eexists. unfold hard_sync_targets.
    rewrite (full_copy_aligned _ _ Hc), (full_copy_aligned _ _ Ha),
      (full_copy_aligned _ _ Hm). simpl.
    split; [reflexivity|]. simpl. repeat split; reflexivity.
  - destruct (ema_copy_aligned tau _ _ Hc) as (tc & Htc & Hac & Hec).
    destruct (ema_copy_aligned tau _ _ Ha) as (ta & Hta & Haa & Hea).
    eexists. unfold soft_sync_targets.
    rewrite Htc, Hta, (full_copy_aligned _ _ Hm). simpl.
    split; [reflexivity|]. simpl. repeat split; done.
Qed.

Lemma C3_sync_targets_witness :
  aligned demo_networks
  ∧ (∃ h, hard_sync_targets demo_networks = Some h
       ∧ target_critics h = critics h)
  ∧ (∃ s, soft_sync_targets (qfrac 1 10) demo_networks = Some s
       ∧ entry (target_critics s) 1 0
         = Some ((1 - qfrac 1 10) * qz 10 + qfrac 1 10 * qz 3)).
Proof.
  assert (Hal : aligned demo_networks).
  { repeat split; repeat constructor. }
  split; [exact Hal|].
  destruct (C3_sync_targets demo_networks (qfrac 1 10) Hal)
    as [(h & Hh & Htc & _) (s & Hs & Hec & _)].
  split.
  - exists h. split; [exact Hh | exact Htc].
  - exists s. split; [exact Hs|].
    exact (Hec 1%nat 0%nat (qz 10) (qz 3) eq_refl eq_refl).
Defined.

(** ** Indexed traversals *)

Lemma imapM_go_spec {A B} (f : nat → A → option B) n l l' :
  imapM_go f n l = Some l' →
  length l' = length l
  ∧ ∀ i x, l !! i = Some x → ∃ y, f (n + i)%nat x = Some y ∧ l' !! i = Some y.
Proof.
  revert n l'. induction l as [|a l IH]; intros n l' Hl; simpl in Hl.
  - injection Hl as <-. split; [done|]. by intros i x.
  - destruct (f n a) as [y|] eqn:Hy; [|done]. simpl in Hl.
    destruct (imapM_go f (S n) l) as [ys|] eqn:Hys; [|done]. simpl in Hl.
    injection Hl as <-. destruct (IH _ _ Hys) as [Hlen Hlk]. split.
    + simpl. by rewrite Hlen.
    + intros [|i] x Hx; simpl in *.
      * injection Hx as <-. exists y. by rewrite Nat.add_0_r.
      * destruct (Hlk i x Hx) as (z & Hz & Hz'). exists z.
        by rewrite Nat.add_succ_r.
Qed.

Lemma imapM_length {A B} (f : nat → A → option B) l l' :
  imapM f l = Some l' → length l' = length l.
Proof. intros Hl. by destruct (imapM_go_spec _ _ _ _ Hl). Qed.

Lemma imapM_lookup_Some {A B} (f : nat → A → option B) l l' i x :
  imapM f l = Some l' → l !! i = Some x →
  ∃ y, f i x = Some y ∧ l' !! i = Some y.
Proof. intros Hl. destruct (imapM_go_spec _ _ _ _ Hl) as [_ Hlk]. apply Hlk. Qed.

Lemma imapM_lookup {A B} (f : nat → A → option B) l l' i :
  imapM f l = Some l' → l' !! i = (x ← l !! i; f i x).
Proof.
  intros Hl. destruct (l !! i) as [x|] eqn:Hx; simpl.
  - destruct (imapM_lookup_Some _ _ _ _ _ Hl Hx) as (y & -> & ->). done.
  - apply lookup_ge_None. rewrite (imapM_length _ _ _ Hl).
    by apply lookup_ge_None.
Qed.

Lemma imapM_go_is_Some {A B} (f : nat → A → option B) n l :
  (∀ i x, l !! i = Some x → is_Some (f (n + i)%nat x)) →
  is_Some (imapM_go f n l).
Proof.
  revert n. induction l as [|a l IH]; intros n Hf; simpl; [done|].
  destruct (Hf 0%nat a eq_refl) as [y Hy]. rewrite Nat.add_0_r in Hy.
  rewrite Hy. simpl.
  destruct (IH (S n)) as [ys ->]; [|done].
  intros i x Hx. specialize (Hf (S i) x Hx). by rewrite Nat.add_succ_r in Hf.
Qed.

Lemma imapM_is_Some {A B} (f : nat → A → option B) l :
  (∀ i x, l !! i = Some x → is_Some (f i x)) → is_Some (imapM f l).
Proof. intros Hf. by apply imapM_go_is_Some. Qed.

(** Peel one level of an indexed traversal off a lookup chain. *)
Ltac peel_imapM Hl i :=
  rewrite (imapM_lookup _ _ _ i Hl);
  let x := fresh "x" in
  let Hx := fresh "Hx" in
  match goal with
  | |- context [?t !! i] =>
      destruct (t !! i) as [x|] eqn:Hx; simpl; [|done];
      let y := fresh "y" in
      let Hy := fresh "Hy" in
      destruct (imapM_lookup_Some _ _ _ _ _ Hl Hx) as (y & Hy & _);
      rewrite Hy; simpl; clear Hl; rename Hy into Hl
  end.

Lemma imapM2_at {A B} (f : nat → nat → A → option B) t t' g e :
  imapM2 f t = Some t' →
  (r ← t' !! g; r !! e) = (r ← t !! g; x ← r !! e; f g e x).
Proof.
  unfold imapM2. intros Hl. peel_imapM Hl g.
  by rewrite (imapM_lookup _ _ _ e Hl).
Qed.

Lemma imapM4_at4 {A B} (f : nat → nat → nat → nat → A → option B) t t' b l g e :
  imapM4 f t = Some t' →
  at4 t' b l g e = (x ← at4 t b l g e; f b l g e x).
Proof.
  unfold imapM4, imapM3, imapM2, at4. intros Hl.
  peel_imapM Hl b. peel_imapM Hl l. peel_imapM Hl g.
  by rewrite (imapM_lookup _ _ _ e Hl).
Qed.

Lemma imapM5_at5 {A B} (f : nat → nat → nat → nat → nat → A → option B)
  t t' b l c g e :
  imapM5 f t = Some t' →
  at5 t' b l c g e = (x ← at5 t b l c g e; f b l c g e x).
Proof.
  unfold imapM5, imapM4, imapM3, imapM2, at5. intros Hl.
  peel_imapM Hl b. peel_imapM Hl l. peel_imapM Hl c. peel_imapM Hl g.
  by rewrite (imapM_lookup _ _ _ e Hl).
Qed.

Lemma imapM5_is_Some {A B} (f : nat → nat → nat → nat → nat → A → option B) t :
  (∀ b l c g e x, at5 t b l c g e = Some x → is_Some (f b l c g e x)) →
  is_Some (imapM5 f t).
Proof.
  intros Hf. unfold imapM5, imapM4, imapM3, imapM2.
  apply imapM_is_Some. intros b tb Hb.
  apply imapM_is_Some. intros l tl Hl.
  apply imapM_is_Some. intros c tc Hc.
  apply imapM_is_Some. intros g tg Hg.
  apply imapM_is_Some. intros e x He.
  apply Hf. unfold at5. rewrite Hb. simpl. rewrite Hl. simpl.
  rewrite Hc. simpl. by rewrite Hg.
Qed.

(** ** Shapes, columns and reductions over the critic axis *)

Lemma shape_is1_spec {A} n (t : list A) : shape_is1 n t = true ↔ length t = n.
Proof. unfold shape_is1. by rewrite bool_decide_eq_true. Qed.

Lemma shape_step {A} (p : A → bool) n (t : list A) :
  shape_is1 n t && forallb p t = true ↔
  length t = n ∧ ∀ i x, t !! i = Some x → p x = true.
Proof.
  rewrite andb_true_iff, shape_is1_spec, forallb_forall.
  split; intros [Hn Hp]; (split; [done|]).
  - intros i x Hx. apply Hp, list_elem_of_In. by eapply list_elem_of_lookup_2.
  - intros x Hx. apply list_elem_of_In, list_elem_of_lookup_1 in Hx as [i Hi]. eauto.
Qed.

Lemma shape_is5_at5 {A} B L C G E (t : list (list (list (list (list A)))))
  b l c g e :
  shape_is5 B L C G E t = true →
  (b < B)%nat → (l < L)%nat → (c < C)%nat → (g < G)%nat → (e < E)%nat →
  is_Some (at5 t b l c g e).
Proof.
  intros Ht Hb Hl Hc Hg He. unfold at5.
  apply shape_step in Ht as [H0 Ht].
  destruct (lookup_lt_is_Some_2 t b) as [tb Htb]; [lia|]. rewrite Htb. simpl.
  apply Ht, shape_step in Htb as [H1 Htb].
  destruct (lookup_lt_is_Some_2 tb l) as [tl Htl]; [lia|]. rewrite Htl. simpl.
  apply Htb, shape_step in Htl as [H2 Htl].
  destruct (lookup_lt_is_Some_2 tl c) as [tc Htc]; [lia|]. rewrite Htc. simpl.
  apply Htl, shape_step in Htc as [H3 Htc].
  destruct (lookup_lt_is_Some_2 tc g) as [tg Htg]; [lia|]. rewrite Htg. simpl.
  apply Htc, shape_is1_spec in Htg.
  apply lookup_lt_is_Some_2. lia.
Qed.

Lemma at5_shape_bound {A} B L C G E (t : list (list (list (list (list A)))))
  b l c g e x :
  shape_is5 B L C G E t = true → at5 t b l c g e = Some x →
  (b < B ∧ l < L ∧ c < C ∧ g < G ∧ e < E)%nat.
Proof.
  intros Ht. unfold at5.
  apply shape_step in Ht as [H0 Ht].
  destruct (t !! b) as [tb|] eqn:Htb; simpl; [|done].
  pose proof (lookup_lt_Some _ _ _ Htb) as Lb.
  apply Ht, shape_step in Htb as [H1 Htb].
  destruct (tb !! l) as [tl|] eqn:Htl; simpl; [|done].
  pose proof (lookup_lt_Some _ _ _ Htl) as Ll.
  apply Htb, shape_step in Htl as [H2 Htl].
  destruct (tl !! c) as [tc|] eqn:Htc; simpl; [|done].
  pose proof (lookup_lt_Some _ _ _ Htc) as Lc.
  apply Htl, shape_step in Htc as [H3 Htc].
  destruct (tc !! g) as [tg|] eqn:Htg; simpl; [|done].
  pose proof (lookup_lt_Some _ _ _ Htg) as Lg.
  apply Htc, shape_is1_spec in Htg.
  intros Hx. pose proof (lookup_lt_Some _ _ _ Hx) as Le. lia.
Qed.

(** The column at (g, e) of a slice lists the entries of its rows. *)
Lemma column3_lookup {A} (s : list (list (list A))) g e col c :
  column3 s g e = Some col →
  col !! c = (row ← s !! c; y ← row !! g; y !! e).
Proof.
  unfold column3. intros Hc. apply mapM_Some in Hc.
  destruct (s !! c) as [row|] eqn:Hrow; simpl.
  - destruct (Forall2_lookup_l _ _ _ _ _ Hc Hrow) as (x & Hx & Hrx).
    by rewrite Hx, Hrx.
  - apply lookup_ge_None. rewrite <-(Forall2_length _ _ _ Hc).
    by apply lookup_ge_None.
Qed.

Lemma column3_length {A} (s : list (list (list A))) g e col :
  column3 s g e = Some col → length col = length s.
Proof. unfold column3. intros Hc. symmetry. by apply length_mapM in Hc. Qed.

Lemma column5_lookup {A} (t : list (list (list (list (list A))))) b l g e col c :
  column5 t b l g e = Some col → col !! c = at5 t b l c g e.
Proof.
  unfold column5, at5. destruct (t !! b) as [tb|]; simpl; [|done].
  destruct (tb !! l) as [s|]; simpl; [|done]. apply column3_lookup.
Qed.

Lemma column5_is_Some {A} B L C G E (t : list (list (list (list (list A)))))
  b l g e :
  shape_is5 B L C G E t = true →
  (b < B)%nat → (l < L)%nat → (g < G)%nat → (e < E)%nat →
  ∃ col, column5 t b l g e = Some col ∧ length col = C.
Proof.
  intros Ht Hb Hl Hg He. unfold column5.
  apply shape_step in Ht as [H0 Ht].
  destruct (lookup_lt_is_Some_2 t b) as [tb Htb]; [lia|]. rewrite Htb. simpl.
  apply Ht, shape_step in Htb as [H1 Htb].
  destruct (lookup_lt_is_Some_2 tb l) as [s Hs]; [lia|]. rewrite Hs. simpl.
  apply Htb, shape_step in Hs as [H2 Hs].
  assert (is_Some (column3 s g e)) as [col Hcol].
  { unfold column3. apply mapM_is_Some, Forall_lookup. intros c row Hrow.
    apply Hs, shape_step in Hrow as [H3 Hrow].
    destruct (lookup_lt_is_Some_2 row g) as [y Hy]; [lia|].
    unfold compose. rewrite Hy. simpl.
    apply Hrow, shape_is1_spec in Hy. apply lookup_lt_is_Some_2. lia. }
  exists col. split; [done|]. by rewrite (column3_length _ _ _ _ Hcol).
Qed.

Lemma reduce_slice_at {A B} (f : list A → option B) s s' g e :
  reduce_slice f s = Some s' →
  length s' = 1%nat
  ∧ (r ← s' !! 0%nat; y ← r !! g; y !! e)
    = (row0 ← s !! 0%nat; y ← row0 !! g; _ ← y !! e; col ← column3 s g e; f col).
Proof.
  unfold reduce_slice. rewrite head_lookup.
  destruct (s !! 0%nat) as [row0|]; simpl; [|done].
  destruct (imapM2 _ row0) as [r|] eqn:Hr; simpl; [|done].
  intros [= <-]. split; [done|]. simpl.
  rewrite (imapM2_at _ _ _ g e Hr). done.
Qed.

Lemma reduce_dim2_at5 {A B} (f : list A → option B) t t' b l g e :
  reduce_dim2 f t = Some t' →
  at5 t' b l 0 g e = (_ ← at5 t b l 0 g e; col ← column5 t b l g e; f col).
Proof.
  unfold reduce_dim2. intros Ht. apply mapM_Some in Ht.
  unfold at5, column5.
  destruct (t !! b) as [tb|] eqn:Htb; simpl.
  - destruct (Forall2_lookup_l _ _ _ _ _ Ht Htb) as (tb' & -> & Hb). simpl.
    apply mapM_Some in Hb.
    destruct (tb !! l) as [s|] eqn:Hs; simpl.
    + destruct (Forall2_lookup_l _ _ _ _ _ Hb Hs) as (s' & -> & Hsl). simpl.
      destruct (reduce_slice_at _ _ _ g e Hsl) as [_ ->].
      destruct (s !! 0%nat) as [row0|]; simpl; [|done].
      destruct (row0 !! g) as [y|]; simpl; [|done].
      by destruct (y !! e).
    + rewrite (proj2 (lookup_ge_None tb' l)); [done|].
      rewrite <-(Forall2_length _ _ _ Hb). by apply lookup_ge_None.
  - rewrite (proj2 (lookup_ge_None t' b)); [done|].
    rewrite <-(Forall2_length _ _ _ Ht). by apply lookup_ge_None.
Qed.

(** ** Minimum and mean of a list *)

Lemma Qcmin_le_l x y : Qcmin x y ≤ x.
Proof.
  unfold Qcmin. case_decide; [apply Qcle_refl|].
  by apply Qclt_le_weak, Qcnot_le_lt.
Qed.
Lemma Qcmin_le_r x y : Qcmin x y ≤ y.
Proof. unfold Qcmin. case_decide; [done | apply Qcle_refl]. Qed.
Lemma Qcmin_cases x y : Qcmin x y = x ∨ Qcmin x y = y.
Proof. unfold Qcmin. case_decide; auto. Qed.

Lemma foldl_Qcmin_spec x r :
  foldl Qcmin x r ∈ x :: r ∧ ∀ y, y ∈ x :: r → foldl Qcmin x r ≤ y.
Proof.
  revert x. induction r as [|a r IH]; intros x; simpl.
  - split; [by left|]. intros y ->%list_elem_of_singleton. apply Qcle_refl.
  - destruct (IH (Qcmin x a)) as [Hin Hle]. split.
    + apply elem_of_cons in Hin as [->|Hin].
      * destruct (Qcmin_cases x a) as [->| ->]; [by left | by right; left].
      * by right; right.
    + intros y Hy.
      assert (Hm : foldl Qcmin (Qcmin x a) r ≤ Qcmin x a) by (apply Hle; by left).
      apply elem_of_cons in Hy as [->|Hy].
      * eapply Qcle_trans; [exact Hm | apply Qcmin_le_l].
      * apply elem_of_cons in Hy as [->|Hy].
        -- eapply Qcle_trans; [exact Hm | apply Qcmin_le_r].
        -- apply Hle. by right.
Qed.

Lemma qmin_list_spec l m :
  qmin_list l = Some m → m ∈ l ∧ ∀ y, y ∈ l → m ≤ y.
Proof. destruct l as [|x r]; [done|]. intros [= <-]. apply foldl_Qcmin_spec. Qed.

Lemma qmin_list_is_Some l : l ≠ [] → is_Some (qmin_list l).
Proof. by destruct l. Qed.
Lemma qmean_list_is_Some l : l ≠ [] → is_Some (qmean_list l).
Proof. by destruct l. Qed.

(** The minimum depends on the set of entries only. *)
Lemma qmin_list_same_elems l l' :
  (∀ x, x ∈ l ↔ x ∈ l') → qmin_list l = qmin_list l'.
Proof.
  intros Hel. destruct l as [|x r], l' as [|x' r'].
  - done.
  - exfalso. eapply not_elem_of_nil, Hel. by left.
  - exfalso. eapply not_elem_of_nil, Hel. by left.
  - destruct (qmin_list (x :: r)) as [m|] eqn:Hm; [|done].
    destruct (qmin_list (x' :: r')) as [m'|] eqn:Hm'; [|done].
    apply qmin_list_spec in Hm as [Hin Hle], Hm' as [Hin' Hle'].
    f_equal. apply Qcle_antisym.
    + apply Hle, Hel, Hin'.
    + apply Hle', Hel, Hin.
Qed.

Lemma qsum_perm l l' : l ≡ₚ l' → qsum l = qsum l'.
Proof.
  unfold qsum. induction 1 as [|x l l' _ IH|x y l|l l' l'' _ IH1 _ IH2]; simpl.
  - done.
  - by rewrite IH.
  - ring.
  - by rewrite IH1.
Qed.

Lemma qmean_list_perm l l' : l ≡ₚ l' → qmean_list l = qmean_list l'.
Proof.
  intros Hp. destruct l as [|x r], l' as [|x' r'].
  - done.
  - by apply Permutation_nil_cons in Hp.
  - symmetry in Hp. by apply Permutation_nil_cons in Hp.
  - unfold qmean_list.
    by rewrite (qsum_perm _ _ Hp), (Permutation_length Hp).
Qed.

Lemma qmin_list_perm l l' : l ≡ₚ l' → qmin_list l = qmin_list l'.
Proof. intros Hp. apply qmin_list_same_elems. intros x. by rewrite Hp. Qed.

(** ** Picking entries by index *)

Lemma mapM_lookup_eq {A B} (f : A → option B) l k i :
  mapM f l = Some k → k !! i = (x ← l !! i; f x).
Proof.
  intros Hk. apply mapM_Some in Hk.
  destruct (l !! i) as [x|] eqn:Hx; simpl.
  - destruct (Forall2_lookup_l _ _ _ _ _ Hk Hx) as (y & -> & ->). done.
  - apply lookup_ge_None. rewrite <-(Forall2_length _ _ _ Hk).
    by apply lookup_ge_None.
Qed.

Lemma mapM_perm {A B} (f : A → option B) l l' k :
  l ≡ₚ l' → mapM f l = Some k → ∃ k', mapM f l' = Some k' ∧ k ≡ₚ k'.
Proof.
  intros Hp. revert k.
  induction Hp as [|x l l' _ IH|x y l|l l' l'' _ IH1 _ IH2]; intros k Hk.
  - exists k. done.
  - simpl in *. destruct (f x) as [z|]; [|done]. simpl in *.
    destruct (mapM f l) as [zs|]; [|done]. simpl in Hk. injection Hk as <-.
    destruct (IH zs eq_refl) as (k' & -> & Hk'). exists (z :: k').
    split; [done|]. by constructor.
  - simpl in *. destruct (f y) as [b|]; [|done]. simpl in *.
    destruct (f x) as [a|]; [|done]. simpl in *.
    destruct (mapM f l) as [zs|]; [|done]. simpl in Hk. injection Hk as <-.
    exists (a :: b :: zs). split; [done|]. constructor.
  - destruct (IH1 _ Hk) as (k1 & Hk1 & Hp1).
    destruct (IH2 _ Hk1) as (k2 & Hk2 & Hp2).
    exists k2. split; [done|]. by etrans.
Qed.

Lemma mapM_lookup_seq {A} (col : list A) :
  mapM (λ i, col !! i) (seq 0 (length col)) = Some col.
Proof.
  assert (is_Some (mapM (λ i, col !! i) (seq 0 (length col)))) as [k Hk].
  { apply mapM_is_Some, Forall_lookup. intros i j Hj.
    apply lookup_seq in Hj as [-> Hlt]. by apply lookup_lt_is_Some_2. }
  rewrite Hk. f_equal. apply list_eq. intros i.
  rewrite (mapM_lookup_eq _ _ _ i Hk).
  destruct (seq 0 (length col) !! i) as [j|] eqn:Hj; simpl.
  - by apply lookup_seq in Hj as [-> _].
  - symmetry. apply lookup_ge_None. apply lookup_ge_None in Hj.
    by rewrite length_seq in Hj.
Qed.

(** Drawing every index exactly once returns the column up to order. *)
Lemma picked_perm {A} (col picked : list A) icol :
  icol ≡ₚ seq 0 (length col) →
  mapM (λ i, col !! i) icol = Some picked → picked ≡ₚ col.
Proof.
  intros Hp Hk. destruct (mapM_perm _ _ _ _ Hp Hk) as (k' & Hk' & Hpk).
  rewrite mapM_lookup_seq in Hk'. by injection Hk' as <-.
Qed.

(** Drawing every index at least once returns the entries of the column. *)
Lemma picked_same_elems {A} (col picked : list A) icol :
  (∀ i, (i < length col)%nat → i ∈ icol) →
  mapM (λ i, col !! i) icol = Some picked →
  ∀ x, x ∈ picked ↔ x ∈ col.
Proof.
  intros Hcov Hk x. split.
  - intros [k Hx]%list_elem_of_lookup_1.
    rewrite (mapM_lookup_eq _ _ _ k Hk) in Hx.
    destruct (icol !! k) as [i|]; simpl in Hx; [|done].
    by eapply list_elem_of_lookup_2.
  - intros [i Hx]%list_elem_of_lookup_1.
    pose proof (lookup_lt_Some _ _ _ Hx) as Hlt.
    apply Hcov, list_elem_of_lookup_1 in Hlt as [k Hik].
    apply (list_elem_of_lookup_2 _ k).
    rewrite (mapM_lookup_eq _ _ _ k Hk), Hik. done.
Qed.

(** ** The TD target: picking the subset and aggregating it *)

Lemma imapM_lookup_inv {A B} (f : nat → A → option B) l l' i y :
  imapM f l = Some l' → l' !! i = Some y → ∃ x, l !! i = Some x ∧ f i x = Some y.
Proof.
  intros Hl Hy. rewrite (imapM_lookup _ _ _ i Hl) in Hy.
  destruct (l !! i) as [x|]; [|done]. by exists x.
Qed.

Lemma imapM5_shape {A B} (f : nat → nat → nat → nat → nat → A → option B)
  n1 n2 n3 n4 n5 t t' :
  imapM5 f t = Some t' → shape_is5 n1 n2 n3 n4 n5 t = true →
  shape_is5 n1 n2 n3 n4 n5 t' = true.
Proof.
  unfold imapM5, imapM4, imapM3, imapM2. intros H5 Ht.
  apply shape_step in Ht as [L1 Ht]. apply shape_step.
  split; [by rewrite (imapM_length _ _ _ H5)|]. intros i1 x1' Hx1'.
  destruct (imapM_lookup_inv _ _ _ _ _ H5 Hx1') as (x1 & Hx1 & H4).
  apply Ht, shape_step in Hx1 as [L2 Ht2]. apply shape_step.
  split; [by rewrite (imapM_length _ _ _ H4)|]. intros i2 x2' Hx2'.
  destruct (imapM_lookup_inv _ _ _ _ _ H4 Hx2') as (x2 & Hx2 & H3).
  apply Ht2, shape_step in Hx2 as [L3 Ht3]. apply shape_step.
  split; [by rewrite (imapM_length _ _ _ H3)|]. intros i3 x3' Hx3'.
  destruct (imapM_lookup_inv _ _ _ _ _ H3 Hx3') as (x3 & Hx3 & H2).
  apply Ht3, shape_step in Hx3 as [L4 Ht4]. apply shape_step.
  split; [by rewrite (imapM_length _ _ _ H2)|]. intros i4 x4' Hx4'.
  destruct (imapM_lookup_inv _ _ _ _ _ H2 Hx4') as (x4 & Hx4 & H1).
  apply Ht4, shape_is1_spec in Hx4. apply shape_is1_spec.
  by rewrite (imapM_length _ _ _ H1).
Qed.

Lemma column3_is_Some {A} K G E (s : list (list (list A))) g e :
  shape_is3 K G E s = true → (g < G)%nat → (e < E)%nat →
  ∃ col, column3 s g e = Some col ∧ length col = K.
Proof.
  intros Hs Hg He. apply shape_step in Hs as [HK Hs].
  assert (is_Some (column3 s g e)) as [col Hcol].
  { unfold column3. apply mapM_is_Some, Forall_lookup. intros c row Hrow.
    apply Hs, shape_step in Hrow as [HG Hrow].
    destruct (lookup_lt_is_Some_2 row g) as [y Hy]; [lia|].
    unfold compose. rewrite Hy. simpl.
    apply Hrow, shape_is1_spec in Hy. apply lookup_lt_is_Some_2. lia. }
  exists col. split; [done|]. by rewrite (column3_length _ _ _ _ Hcol).
Qed.

Lemma reduce_dim2_is_Some {A B} (f : list A → option B) n1 n2 K G E t :
  shape_is5 n1 n2 K G E t = true → (0 < K)%nat →
  (∀ col, length col = K → is_Some (f col)) →
  is_Some (reduce_dim2 f t).
Proof.
  intros Ht HK Hf. apply shape_step in Ht as [_ Ht].
  unfold reduce_dim2. apply mapM_is_Some, Forall_lookup. intros b tb Htb.
  apply Ht, shape_step in Htb as [_ Htb].
  apply mapM_is_Some, Forall_lookup. intros l s Hs.
  apply Htb in Hs. unfold compose, reduce_slice. rewrite head_lookup.
  pose proof Hs as Hs3. apply shape_step in Hs as [Hlen Hrows].
  destruct (lookup_lt_is_Some_2 s 0) as [row0 Hrow0]; [lia|].
  rewrite Hrow0. simpl.
  apply Hrows, shape_step in Hrow0 as [HG Hrow0].
  assert (is_Some (imapM2 (λ g e (_ : A), col ← column3 s g e; f col) row0))
    as [r ->]; [|done].
  unfold imapM2. apply imapM_is_Some. intros g y Hy.
  apply imapM_is_Some. intros e x Hx.
  pose proof (lookup_lt_Some _ _ _ Hy) as Lg.
  pose proof (lookup_lt_Some _ _ _ Hx) as Le.
  apply Hrow0, shape_is1_spec in Hy.
  destruct (column3_is_Some K G E s g e Hs3) as (col & -> & Hcol); [lia..|].
  simpl. by apply Hf.
Qed.

Lemma take_along_dim2_at5 inp idx out b l k g e :
  take_along_dim2 inp idx = Some out →
  at5 out b l k g e = (i ← at5 idx b l k g e; at5 inp b l i g e).
Proof. apply imapM5_at5. Qed.

Lemma take_along_dim2_is_Some B L C K G E inp idx :
  shape_is5 B L C G E inp = true →
  shape_is5 B L K G E idx = true →
  (∀ b l k g e i, at5 idx b l k g e = Some i → (i < C)%nat) →
  ∃ out, take_along_dim2 inp idx = Some out
    ∧ shape_is5 B L K G E out = true.
Proof.
  intros Hinp Hidx Hrange.
  assert (is_Some (take_along_dim2 inp idx)) as [out Hout].
  { apply imapM5_is_Some. intros b l k g e i Hi.
    destruct (at5_shape_bound _ _ _ _ _ _ _ _ _ _ _ _ Hidx Hi) as (?&?&?&?&?).
    eapply shape_is5_at5; eauto. }
  exists out. split; [done|]. by eapply imapM5_shape.
Qed.

(** The column of picked targets is the ensemble column read at the drawn
    indices. *)
Lemma picked_column B L C K G E ens idx rand b l g e :
  shape_is5 B L C G E ens = true →
  shape_is5 B L K G E idx = true →
  shape_is5 B L K G E rand = true →
  take_along_dim2 ens idx = Some rand →
  (b < B)%nat → (l < L)%nat → (g < G)%nat → (e < E)%nat →
  ∃ icol ecol picked,
    column5 idx b l g e = Some icol ∧ length icol = K
    ∧ column5 ens b l g e = Some ecol ∧ length ecol = C
    ∧ column5 rand b l g e = Some picked
    ∧ mapM (λ i, ecol !! i) icol = Some picked.
Proof.
  intros Hens Hidx Hrand Htake Hb Hl Hg He.
  destruct (column5_is_Some _ _ _ _ _ _ b l g e Hidx) as (icol & Hicol & Hik);
    [done..|].
  destruct (column5_is_Some _ _ _ _ _ _ b l g e Hens) as (ecol & Hecol & Hec);
    [done..|].
  destruct (column5_is_Some _ _ _ _ _ _ b l g e Hrand) as (picked & Hpicked & Hpk);
    [done..|].
  exists icol, ecol, picked. repeat (split; [done|]).
  assert (Hpt : ∀ k, picked !! k = (i ← icol !! k; ecol !! i)).
  { intros k. rewrite (column5_lookup _ _ _ _ _ _ k Hpicked),
      (take_along_dim2_at5 _ _ _ _ _ _ _ _ Htake),
      (column5_lookup _ _ _ _ _ _ k Hicol).
    destruct (at5 idx b l k g e) as [i|]; simpl; [|done].
    by rewrite (column5_lookup _ _ _ _ _ _ i Hecol). }
  assert (is_Some (mapM (λ i, ecol !! i) icol)) as [p Hp].
  { apply mapM_is_Some, Forall_lookup. intros k i Hi.
    specialize (Hpt k). rewrite Hi in Hpt. simpl in Hpt.
    unfold compose. rewrite <-Hpt.
    apply lookup_lt_is_Some_2. apply lookup_lt_Some in Hi. lia. }
  rewrite Hp. f_equal. apply list_eq. intros k.
  by rewrite (mapM_lookup_eq _ _ _ k Hp), Hpt.
Qed.

(** C1 (as amended).  The drawn subset is read off the ensemble targets
    at the drawn indices.  [Agent.forward] (scalar critics) aggregates it
    with the minimum when the online coefficient is positive and with the
    mean otherwise; [MultiTaskAgent.forward] (two-hot critics) always takes
    the mean.  The minimum equals the minimum over all critics as soon as
    every critic is drawn at least once, and minimum and mean equal those
    over all critics when the draws are a permutation of the critics. *)
Theorem C1_td_aggregation (a : agent) (B L C K G : nat) (ens : T5) (idx : I5) :
  shape_is5 B L C G 1 ens = true →
  shape_is5 B L K G 1 idx = true →
  (0 < K)%nat →
  (∀ b l k g e i, at5 idx b l k g e = Some i → (i < C)%nat) →
  ∃ rand td_scalar td_twohot,
    take_along_dim2 ens idx = Some rand
    ∧ aggregate_td a rand = Some td_scalar
    ∧ mt_aggregate_td rand = Some td_twohot
    ∧ ∀ b l g, (b < B)%nat → (l < L)%nat → (g < G)%nat →
        ∃ icol ecol picked,
          column5 idx b l g 0 = Some icol ∧ length icol = K
          ∧ column5 ens b l g 0 = Some ecol ∧ length ecol = C
          ∧ mapM (λ i, ecol !! i) icol = Some picked
          ∧ at5 td_scalar b l 0 g 0
            = (if online_on a then qmin_list picked else qmean_list picked)
          ∧ at5 td_twohot b l 0 g 0 = qmean_list picked
          ∧ ((∀ i, (i < C)%nat → i ∈ icol) → qmin_list picked = qmin_list ecol)
          ∧ (icol ≡ₚ seq 0 C →
               qmin_list picked = qmin_list ecol
               ∧ qmean_list picked = qmean_list ecol).
Proof.
  intros Hens Hidx HK Hrange.
  destruct (take_along_dim2_is_Some _ _ _ _ _ _ _ _ Hens Hidx Hrange)
    as (rand & Htake & Hrand).
  assert (Hne : ∀ col : list Qc, length col = K → col ≠ []).
  { intros col Hlen ->. simpl in Hlen. lia. }
  assert (is_Some (min_dim2_keep rand)) as [tmin Hmin].
  { eapply reduce_dim2_is_Some; [exact Hrand | exact HK |].
    intros col Hcol. by apply qmin_list_is_Some, Hne. }
  assert (is_Some (mean_dim2_keep rand)) as [tmean Hmean].
  { eapply reduce_dim2_is_Some; [exact Hrand | exact HK |].
    intros col Hcol. by apply qmean_list_is_Some, Hne. }
  exists rand, (if online_on a then tmin else tmean), tmean.
  split; [done|]. split; [unfold aggregate_td; by destruct (online_on a)|].
  split; [done|]. intros b l g Hb Hl Hg.
  destruct (picked_column _ _ _ _ _ _ _ _ _ b l g 0 Hens Hidx Hrand Htake)
    as (icol & ecol & picked & Hicol & Hik & Hecol & Hec & Hpicked & Hmap);
    [done..|lia|].
  exists icol, ecol, picked. repeat (split; [done|]).
  destruct (shape_is5_at5 _ _ _ _ _ _ b l 0 g 0 Hrand) as [x Hx]; [lia..|].
  assert (Hat : ∀ (f : list Qc → option Qc) t,
            reduce_dim2 f rand = Some t → at5 t b l 0 g 0 = f picked).
  { intros f t Ht. rewrite (reduce_dim2_at5 _ _ _ _ _ _ _ Ht), Hx, Hpicked. done. }
  split; [|split; [|split]].
  - destruct (online_on a); by apply Hat.
  - by apply Hat.
  - intros Hcov. apply qmin_list_same_elems.
    eapply picked_same_elems; [|exact Hmap]. by rewrite Hec.
  - intros Hp. rewrite <-Hec in Hp.
    pose proof (picked_perm _ _ _ Hp Hmap) as Hpp.
    split; [by apply qmin_list_perm | by apply qmean_list_perm].
Qed.

Lemma C1_td_aggregation_witness :
  ∃ rand td_scalar td_twohot,
    take_along_dim2 ens_demo idx_perm = Some rand
    ∧ aggregate_td (demo_agent 1 true false) rand = Some td_scalar
    ∧ mt_aggregate_td rand = Some td_twohot.
Proof.
  destruct (C1_td_aggregation (demo_agent 1 true false) 1 1 2 2 1
              ens_demo idx_perm) as (rand & ts & tt & H1 & H2 & H3 & _).
  - reflexivity.
  - reflexivity.
  - lia.
  - intros b l k g e i Hi.
    destruct b as [|[|b]], l as [|[|l]], k as [|[|[|k]]], g as [|[|g]],
      e as [|[|e]]; simpl in Hi; try discriminate; injection Hi as <-; lia.
  - exists rand, ts, tt. done.
Defined.

(** C1 as specified fails twice on the demo ensemble (critic targets 5 and
    3, online coefficient 1): two draws that both hit critic 0 aggregate to
    5, not to the minimum 3 over all critics; and the two-hot variant
    aggregates the permutation draw to the mean 4, not to the minimum. *)
Lemma C1_counterexample :
  online_on (demo_agent 1 true false) = true
  ∧ (take_along_dim2 ens_demo idx_repeat ≫= aggregate_td (demo_agent 1 true false))
    = Some [[[[[qz 5]]]]]
  ∧ min_dim2_keep ens_demo = Some [[[[[qz 3]]]]]
  ∧ (take_along_dim2 ens_demo idx_perm ≫= mt_aggregate_td)
    = Some [[[[[qz 4]]]]]
  ∧ ¬ td_aggregation_as_specified.
Proof.
  split; [qc_decide|]. split; [qc_decide|]. split; [qc_decide|].
  split; [qc_decide|].
  intros Hspec.
  destruct (Hspec (demo_agent 1 true false) 1%nat 1%nat 1%nat ens_demo idx_repeat
              [[ [[[qz 5]]; [[qz 5]]] ]]) as [Hpos _].
  - reflexivity.
  - reflexivity.
  - reflexivity.
  - intros b l k g e i Hi.
    destruct b as [|[|b]], l as [|[|l]], k as [|[|[|k]]], g as [|[|g]],
      e as [|[|e]]; simpl in Hi; try discriminate; injection Hi as <-;
      simpl; lia.
  - reflexivity.
  - destruct Hpos as [Hs _]; [qc_decide|].
    revert Hs. qc_decide.
Qed.

(** ** The TD target formula and the random subset *)

Lemma bc_lookup {A} (l : list A) i x : l !! i = Some x → bc l i = Some x.
Proof.
  destruct l as [|a [|b r]]; simpl; try done.
  destruct i; simpl; done.
Qed.

Lemma bc_singleton {A} (x : A) i : bc [x] i = Some x.
Proof. done. Qed.

Lemma r_of_at (a : agent) G rews b l c g rew :
  at3 rews b l 0 = Some rew → (g < G)%nat →
  bc_at5 (r_of a G rews) b l c g 0 = Some (reward_multiplier a * rew).
Proof.
  unfold at3, bc_at5, r_of, repeat_1g, map2, map3. intros Hrew Hg.
  destruct (rews !! b) as [rb|] eqn:Hb; simpl in Hrew; [|done].
  destruct (rb !! l) as [rl|] eqn:Hl; simpl in Hrew; [|done].
  erewrite bc_lookup; last by rewrite !list_lookup_fmap, Hb. simpl.
  erewrite bc_lookup;
    last by unfold map2; rewrite !list_lookup_fmap, Hl. simpl.
  erewrite bc_lookup; last by apply lookup_replicate_2. simpl.
  apply bc_lookup. by rewrite list_lookup_fmap, Hrew.
Qed.

Lemma d_of_at G dones b l c g dn :
  at3 dones b l 0 = Some dn → (g < G)%nat →
  bc_at5 (d_of G dones) b l c g 0 = Some dn.
Proof.
  unfold at3, bc_at5, d_of, repeat_1g, map2. intros Hd Hg.
  destruct (dones !! b) as [rb|] eqn:Hb; simpl in Hd; [|done].
  destruct (rb !! l) as [rl|] eqn:Hl; simpl in Hd; [|done].
  erewrite bc_lookup; last by rewrite !list_lookup_fmap, Hb. simpl.
  erewrite bc_lookup; last by rewrite !list_lookup_fmap, Hl. simpl.
  erewrite bc_lookup; last by apply lookup_replicate_2. simpl.
  by apply bc_lookup.
Qed.

Lemma gamma_at (gs : list Qc) g gamma :
  gs !! g = Some gamma → bc_at2 ((λ x, [x]) <$> gs) g 0 = Some gamma.
Proof.
  intros Hg. unfold bc_at2.
  erewrite bc_lookup; last by rewrite list_lookup_fmap, Hg. done.
Qed.

Lemma shape_is3_at3 {A} B L D (t : list (list (list A))) b l d :
  shape_is3 B L D t = true → (b < B)%nat → (l < L)%nat → (d < D)%nat →
  is_Some (at3 t b l d).
Proof.
  intros Ht Hb Hl Hd. unfold at3.
  apply shape_step in Ht as [H0 Ht].
  destruct (lookup_lt_is_Some_2 t b) as [tb Htb]; [lia|]. rewrite Htb. simpl.
  apply Ht, shape_step in Htb as [H1 Htb].
  destruct (lookup_lt_is_Some_2 tb l) as [tl Htl]; [lia|]. rewrite Htl. simpl.
  apply Htb, shape_is1_spec in Htl. apply lookup_lt_is_Some_2. lia.
Qed.

(** [torch.randint]: shape, range, and one raw draw per position. *)
Lemma torch_randint_at5 C B L K G E raw idx b l k g e :
  torch_randint C B L K G E raw = Some idx →
  (b < B)%nat → (l < L)%nat → (k < K)%nat → (g < G)%nat → (e < E)%nat →
  at5 idx b l k g e = Some (raw (flat_index5 L K G E b l k g e) `mod` C)%nat.
Proof.
  unfold torch_randint. case_decide; [done|]. intros [= <-] Hb Hl Hk Hg He.
  unfold at5.
  rewrite list_lookup_fmap, lookup_seq_lt by done. simpl.
  rewrite list_lookup_fmap, lookup_seq_lt by done. simpl.
  rewrite list_lookup_fmap, lookup_seq_lt by done. simpl.
  rewrite list_lookup_fmap, lookup_seq_lt by done. simpl.
  rewrite list_lookup_fmap, lookup_seq_lt by done. done.
Qed.

Lemma fmap_seq_shape {A} (p : A → bool) (F : nat → A) n :
  (∀ i, (i < n)%nat → p (F i) = true) →
  shape_is1 n (F <$> seq 0 n) && forallb p (F <$> seq 0 n) = true.
Proof.
  intros Hp. apply shape_step. split.
  - by rewrite length_fmap, length_seq.
  - intros i x. rewrite list_lookup_fmap.
    destruct (seq 0 n !! i) as [j|] eqn:Hj; simpl; [|done].
    apply lookup_seq in Hj as [-> Hlt]. intros [= <-]. by apply Hp.
Qed.

Lemma torch_randint_shape C B L K G E raw idx :
  torch_randint C B L K G E raw = Some idx →
  shape_is5 B L K G E idx = true.
Proof.
  unfold torch_randint. case_decide; [done|]. intros [= <-].
  apply fmap_seq_shape. intros b _. apply fmap_seq_shape. intros l _.
  apply fmap_seq_shape. intros k _. apply fmap_seq_shape. intros g _.
  apply shape_is1_spec. by rewrite length_fmap, length_seq.
Qed.

Lemma torch_randint_range C B L K G E raw idx b l k g e i :
  torch_randint C B L K G E raw = Some idx →
  at5 idx b l k g e = Some i → (i < C)%nat.
Proof.
  intros Hidx Hi.
  destruct (at5_shape_bound _ _ _ _ _ _ _ _ _ _ _ _
              (torch_randint_shape _ _ _ _ _ _ _ _ Hidx) Hi) as (?&?&?&?&?).
  rewrite (torch_randint_at5 _ _ _ _ _ _ _ _ _ _ _ _ _ Hidx) in Hi by done.
  injection Hi as <-. apply Nat.mod_upper_bound.
  unfold torch_randint in Hidx. by case_decide.
Qed.

(** Distinct positions consume distinct raw draws. *)
Lemma flat_index5_inj L K G E b l k g e b' l' k' g' e' :
  (l < L)%nat → (k < K)%nat → (g < G)%nat → (e < E)%nat →
  (l' < L)%nat → (k' < K)%nat → (g' < G)%nat → (e' < E)%nat →
  flat_index5 L K G E b l k g e = flat_index5 L K G E b' l' k' g' e' →
  b = b' ∧ l = l' ∧ k = k' ∧ g = g' ∧ e = e'.
Proof.
  unfold flat_index5. intros Hl Hk Hg He Hl' Hk' Hg' He' Heq.
  assert (Hstep : ∀ n x y u v : nat,
            (u < n)%nat → (v < n)%nat → (x * n + u = y * n + v)%nat →
            x = y ∧ u = v).
  { intros n x y u v Hu Hv Hxy.
    assert (x = y) by nia. subst. split; [done | lia]. }
  apply Hstep in Heq as [Heq ->]; [|done..].
  apply Hstep in Heq as [Heq ->]; [|done..].
  apply Hstep in Heq as [Heq ->]; [|done..].
  apply Hstep in Heq as [-> ->]; [|done..].
  done.
Qed.

Lemma drop_first_t_lookup {A} (t : list (list A)) b l :
  (r ← drop_first_t t !! b; r !! l) = (r ← t !! b; r !! S l).
Proof.
  unfold drop_first_t. rewrite list_lookup_fmap.
  destruct (t !! b) as [r|]; simpl; [|done]. by rewrite lookup_drop.
Qed.

Section td_target.
Context `{Backend}.

(** C2 (as amended).  With [L] the number of transitions: the per-critic
    TD target at (b, l, c, g) is
    [reward * reward_multiplier + gamma * (1 - done) * Q_target], where
    [Q_target] is the de-normalised value of the target critics at the
    next state and next action (both read one timestep later); the next
    action comes from the target actor when [use_target_actor] is set and
    from the online actor's distribution otherwise, as probabilities for
    discrete actions and as a sample otherwise.  The subset indices form a
    [B, L, num_critics_td, G, 1] tensor of entries below [num_critics],
    each computed from a raw draw of its own. *)
Theorem C2_td_target (a : agent) (pa : PopArt) (s_rep : T3) (a_dist : Dist)
  (sd : Seed) (rews dones : T3) (raw : nat → nat) (B L G : nat) :
  let dist' := a_prime_dist_of a s_rep a_dist in
  let ap := ap_of a dist' sd in
  let q := q_targ_of a pa s_rep ap in
  shape_is3 B L 1 rews = true →
  shape_is3 B L 1 dones = true →
  shape_is5 B L (num_critics a) G 1 q = true →
  length (gammas a) = G →
  (0 < num_critics a)%nat →
  dist' = (if use_target_actor a then actor_fwd (target_actor (nets a)) s_rep
           else a_dist)
  ∧ ap = (if discrete a then dist_probs dist' else dist_sample dist' sd)
  ∧ q = popart_fwd5 pa false
          (critics_fwd (target_critics (nets a)) (drop_first_t s_rep)
             (drop_first_t ap))
  ∧ (∀ b l, (r ← drop_first_t s_rep !! b; r !! l) = (r ← s_rep !! b; r !! S l)
          ∧ (r ← drop_first_t ap !! b; r !! l) = (r ← ap !! b; r !! S l))
  ∧ ∃ ens idx,
      ensemble_td_target_of (gammas a) (r_of a G rews) (d_of G dones) q = Some ens
      ∧ torch_randint (num_critics a) B L (num_critics_td a) G 1 raw = Some idx
      ∧ shape_is5 B L (num_critics_td a) G 1 idx = true
      ∧ (∀ b l k g, (b < B)%nat → (l < L)%nat → (k < num_critics_td a)%nat →
           (g < G)%nat →
           ∃ i, at5 idx b l k g 0 = Some i ∧ (i < num_critics a)%nat
             ∧ i = (raw (flat_index5 L (num_critics_td a) G 1 b l k g 0)
                      `mod` num_critics a)%nat)
      ∧ (∀ b l c g, (b < B)%nat → (l < L)%nat → (c < num_critics a)%nat →
           (g < G)%nat →
           ∃ rew dn gamma qv,
             at3 rews b l 0 = Some rew ∧ at3 dones b l 0 = Some dn
             ∧ gammas a !! g = Some gamma ∧ at5 q b l c g 0 = Some qv
             ∧ at5 ens b l c g 0
               = Some (rew * reward_multiplier a + gamma * (1 - dn) * qv)).
Proof.
  intros dist' ap q Hrews Hdones Hq HG HC.
  split; [done|]. split; [done|]. split; [done|].
  split; [intros b l; split; apply drop_first_t_lookup|].
  assert (Hval : ∀ b l c g e qv, at5 q b l c g e = Some qv →
            ∃ rew dn gamma,
              at3 rews b l 0 = Some rew ∧ at3 dones b l 0 = Some dn
              ∧ gammas a !! g = Some gamma ∧ e = 0%nat
              ∧ bc_at5 (r_of a G rews) b l c g e = Some (reward_multiplier a * rew)
              ∧ bc_at5 (d_of G dones) b l c g e = Some dn
              ∧ bc_at2 ((λ x, [x]) <$> gammas a) g e = Some gamma).
  { intros b l c g e qv Hqv.
    destruct (at5_shape_bound _ _ _ _ _ _ _ _ _ _ _ _ Hq Hqv) as (?&?&?&?&?).
    assert (e = 0%nat) as -> by lia.
    destruct (shape_is3_at3 _ _ _ _ b l 0 Hrews) as [rew Hrew]; [lia..|].
    destruct (shape_is3_at3 _ _ _ _ b l 0 Hdones) as [dn Hdn]; [lia..|].
    destruct (lookup_lt_is_Some_2 (gammas a) g) as [gamma Hgamma]; [lia|].
    exists rew, dn, gamma. repeat (split; [done|]).
    split; [by apply r_of_at|]. split; [by apply d_of_at | by apply gamma_at]. }
  assert (is_Some (ensemble_td_target_of (gammas a) (r_of a G rews)
                     (d_of G dones) q)) as [ens Hens].
  { apply imapM5_is_Some. intros b l c g e qv Hqv.
    destruct (Hval _ _ _ _ _ _ Hqv) as (rew & dn & gamma & _ & _ & _ & _ & -> & -> & ->).
    done. }
  assert (is_Some (torch_randint (num_critics a) B L (num_critics_td a) G 1 raw))
    as [idx Hidx].
  { unfold torch_randint. rewrite decide_False by lia. done. }
  exists ens, idx. split; [done|]. split; [done|].
  split; [by eapply torch_randint_shape|]. split.
  - intros b l k g Hb Hl Hk Hg. eexists. split; [|split; [|reflexivity]].
    + apply (torch_randint_at5 _ _ _ _ _ _ _ _ _ _ _ _ _ Hidx); lia.
    + apply Nat.mod_upper_bound. lia.
  - intros b l c g Hb Hl Hc Hg.
    destruct (shape_is5_at5 _ _ _ _ _ _ b l c g 0 Hq) as [qv Hqv]; [lia..|].
    destruct (Hval _ _ _ _ _ _ Hqv)
      as (rew & dn & gamma & Hrew & Hdn & Hgamma & _ & Hr & Hd & Hg').
    exists rew, dn, gamma, qv. repeat (split; [done|]).
    unfold ensemble_td_target_of in Hens.
    rewrite (imapM5_at5 _ _ _ _ _ _ _ _ Hens), Hqv. simpl.
    rewrite Hr, Hd, Hg'. simpl. f_equal. ring.
Qed.

End td_target.

Lemma C2_td_target_witness :
  ∃ ens idx,
    @ensemble_td_target_of (gammas (demo_agent 1 true false))
      (r_of (demo_agent 1 true false) 1 [[ [1] ]]) (d_of 1 [[ [0] ]])
      (@q_targ_of demo_backend (demo_agent 1 true false) tt demo_s_rep
         (@ap_of demo_backend (demo_agent 1 true false)
            (@a_prime_dist_of demo_backend (demo_agent 1 true false) demo_s_rep
               [[ [[qz 4]]; [[qz 4]] ]]) tt)) = Some ens
    ∧ torch_randint 2 1 1 2 1 1 (λ p, p) = Some idx.
Proof.
  destruct (@C2_td_target demo_backend (demo_agent 1 true false) tt demo_s_rep
              [[ [[qz 4]]; [[qz 4]] ]] tt [[ [1] ]] [[ [0] ]] (λ p, p)
              1%nat 1%nat 1%nat)
    as (_ & _ & _ & _ & ens & idx & Hens & Hidx & _).
  - reflexivity.
  - reflexivity.
  - reflexivity.
  - reflexivity.
  - simpl. lia.
  - exists ens, idx. split; [exact Hens | exact Hidx].
Defined.

(** C2 as specified fails when [use_target_actor] is off: the next action
    is the online actor's output 4, not the target actor's 20, and the
    per-critic targets are 13.6 and 22.6 instead of 28 and 37. *)
Lemma C2_counterexample :
  let a := demo_agent 1 false false in
  let a_dist := @actor_fwd demo_backend (actor (nets a)) demo_s_rep in
  let ap := @ap_of demo_backend a
              (@a_prime_dist_of demo_backend a demo_s_rep a_dist) tt in
  ap = [[ [[qz 4]]; [[qz 4]] ]]
  ∧ @dist_sample demo_backend
      (@actor_fwd demo_backend (target_actor (nets a)) demo_s_rep) tt
    = [[ [[qz 20]]; [[qz 20]] ]]
  ∧ ensemble_td_target_of (gammas a) (r_of a 1 [[ [1] ]]) (d_of 1 [[ [0] ]])
      (@q_targ_of demo_backend a tt demo_s_rep ap)
    = Some [[ [[[qfrac 136 10]]; [[qfrac 226 10]]] ]]
  ∧ ¬ next_action_as_specified.
Proof.
  split; [qc_decide|]. split; [qc_decide|]. split; [qc_decide|].
  intros Hspec.
  specialize (Hspec demo_backend (demo_agent 1 false false) demo_s_rep
                (@actor_fwd demo_backend
                   (actor (nets (demo_agent 1 false false))) demo_s_rep) tt).
  revert Hspec. qc_decide.
Qed.

(** ** Masked means *)

Lemma bc_spec {A} (l : list A) i :
  bc l i = l !! (if decide (length l = 1%nat) then 0%nat else i).
Proof. by destruct l as [|a [|b r]]. Qed.

Lemma mapM_ext2 {A B C} (f : A → option C) (g : B → option C) x y :
  length x = length y →
  (∀ i a b, x !! i = Some a → y !! i = Some b → f a = g b) →
  mapM f x = mapM g y.
Proof.
  revert y. induction x as [|a x IH]; intros [|b y] Hlen Hfg; try done.
  simpl. rewrite (Hfg 0%nat a b eq_refl eq_refl).
  rewrite (IH y); [done | by injection Hlen |].
  intros i a' b' Ha Hb. by apply (Hfg (S i)).
Qed.

(** Broadcast products against one mask agree on tensors that differ at
    masked-out positions only. *)
Lemma bzipM_agree {M A C} (R : option M → A → A → Prop)
  (f : M → A → option C) m x x' :
  agree_step R (Some m) x x' →
  (∀ a b b', R (Some a) b b' → f a b = f a b') →
  bzipM f m x = bzipM f m x'.
Proof.
  intros [Hlen HR] Hf. simpl in HR.
  assert (Hone : ∀ a, m = [a] → mapM (f a) x = mapM (f a) x').
  { intros a ->. apply mapM_ext2; [done|]. intros i b b' Hb Hb'.
    apply Hf, (HR i); by apply bc_lookup. }
  assert (Hzip : length m ≠ 1%nat →
            mapM (λ p, f p.1 p.2) (zip m x) = mapM (λ p, f p.1 p.2) (zip m x')).
  { intros Hm. apply mapM_ext2; [by rewrite !length_zip, Hlen|].
    intros i [a b] [a' b'] [Ha Hb]%lookup_zip_Some [Ha' Hb']%lookup_zip_Some.
    simpl in *. assert (a' = a) as -> by congruence.
    apply Hf. specialize (HR i b b' (bc_lookup _ _ _ Hb) (bc_lookup _ _ _ Hb')).
    by rewrite bc_spec, decide_False, Ha in HR. }
  assert (Hsing : ∀ b b', length m ≠ 1%nat → x = [b] → x' = [b'] →
            mapM (λ a, f a b) m = mapM (λ a, f a b') m).
  { intros b b' Hm -> ->. apply mapM_ext2; [done|]. intros i a a' Ha Ha'.
    assert (a' = a) as -> by congruence. apply Hf.
    specialize (HR i b b' eq_refl eq_refl).
    by rewrite bc_spec, decide_False, Ha in HR. }
  destruct m as [|a [|a2 m]], x as [|b [|b2 x]], x' as [|b' [|b2' x']];
    simplify_eq/=; try done.
  all: try (by apply (Hone a)).
  all: try (by apply (Hsing b b')).
  rewrite Hlen. case_decide; [|done]. apply Hzip. lia.
Qed.

Lemma bmul1_agree m x x' : agree1 (Some m) x x' → bmul1 m x = bmul1 m x'.
Proof.
  intros Hag. eapply bzipM_agree; [exact Hag|]. intros a b b' Hab.
  destruct (decide (a = 0)) as [->|Ha].
  - by rewrite !Qcmult_0_l.
  - by rewrite (Hab a eq_refl Ha).
Qed.
Lemma bmul2_agree m x x' : agree2 (Some m) x x' → bmul2 m x = bmul2 m x'.
Proof. intros Hag. eapply bzipM_agree; [exact Hag | apply bmul1_agree]. Qed.
Lemma bmul3_agree m x x' : agree3 (Some m) x x' → bmul3 m x = bmul3 m x'.
Proof. intros Hag. eapply bzipM_agree; [exact Hag | apply bmul2_agree]. Qed.
Lemma bmul4_agree m x x' : agree4 (Some m) x x' → bmul4 m x = bmul4 m x'.
Proof. intros Hag. eapply bzipM_agree; [exact Hag | apply bmul3_agree]. Qed.
Lemma bmul5_agree m x x' : agree5 (Some m) x x' → bmul5 m x = bmul5 m x'.
Proof. intros Hag. eapply bzipM_agree; [exact Hag | apply bmul4_agree]. Qed.

Lemma masked_mean4_agree m x x' :
  agree4 (Some m) x x' → masked_mean4 m x = masked_mean4 m x'.
Proof. intros Hag. unfold masked_mean4. by rewrite (bmul4_agree _ _ _ Hag). Qed.
Lemma masked_mean5_agree m x x' :
  agree5 (Some m) x x' → masked_mean5 m x = masked_mean5 m x'.
Proof. intros Hag. unfold masked_mean5. by rewrite (bmul5_agree _ _ _ Hag). Qed.

(** Tensors related by [agree4] have the same gamma extent. *)
Lemma agree4_dim2 m x x' : agree4 m x x' → dim2 x = dim2 x'.
Proof.
  intros [Hlen H3]. destruct x as [|r x], x' as [|r' x']; try done. simpl.
  destruct (H3 0%nat r r') as [Hlen2 H2]; [by apply bc_lookup..|].
  destruct r as [|s r], r' as [|s' r']; try done. simpl.
  by destruct (H2 0%nat s s') as [Hlen1 _]; [by apply bc_lookup..|].
Qed.

(** Replacing the entries under a zero of the mask gives a related
    tensor. *)
Lemma agree_step_perturb {M A} (R : option M → A → A → Prop)
  (P : M → A * A → A) m x n :
  length m = length x → length n = length x →
  (∀ i a b c, m !! i = Some a → x !! i = Some b → n !! i = Some c →
     R (Some a) b (P a (b, c))) →
  agree_step R (Some m) x (zip_with P m (zip x n)).
Proof.
  intros Hm Hn HR. split.
  - rewrite length_zip_with, length_zip. lia.
  - intros i b b'. simpl. rewrite !bc_spec, length_zip_with, length_zip, Hm.
    replace (length x `min` (length x `min` length n)) with (length x) by lia.
    set (j := if decide (length x = 1%nat) then 0%nat else i).
    intros Hb (a & [b0 c] & -> & Ha & [Hb0 Hc]%lookup_zip_Some)%lookup_zip_with_Some.
    simpl in *. assert (b0 = b) as -> by congruence.
    rewrite Ha. by apply (HR j).
Qed.

Lemma perturb0_agree a b c : agree0 (Some a) b (perturb0 a b c).
Proof. intros a' [= <-] Ha. unfold perturb0. by rewrite decide_False. Qed.

Lemma perturb4_agree B L G E mask x noise :
  shape_is4 B L G E mask = true → shape_is4 B L G E x = true →
  shape_is4 B L G E noise = true →
  agree4 (Some mask) x (perturb4 mask x noise).
Proof.
  intros Hm Hx Hn. apply shape_step in Hm as [Lm Hm], Hx as [Lx Hx], Hn as [Ln Hn].
  apply (agree_step_perturb agree3 (λ m p, perturb3 m p.1 p.2)); [lia..|].
  intros i1 m1 x1 n1 Hm1 Hx1 Hn1. simpl.
  apply Hm, shape_step in Hm1 as [Lm1 Hm1'].
  apply Hx, shape_step in Hx1 as [Lx1 Hx1'].
  apply Hn, shape_step in Hn1 as [Ln1 Hn1'].
  apply (agree_step_perturb agree2 (λ m p, perturb2 m p.1 p.2)); [lia..|].
  intros i2 m2 x2 n2 Hm2 Hx2 Hn2. simpl.
  apply Hm1', shape_step in Hm2 as [Lm2 Hm2'].
  apply Hx1', shape_step in Hx2 as [Lx2 Hx2'].
  apply Hn1', shape_step in Hn2 as [Ln2 Hn2'].
  apply (agree_step_perturb agree1 (λ m p, perturb1 m p.1 p.2)); [lia..|].
  intros i3 m3 x3 n3 Hm3 Hx3 Hn3. simpl.
  apply Hm2', shape_is1_spec in Hm3. apply Hx2', shape_is1_spec in Hx3.
  apply Hn2', shape_is1_spec in Hn3.
  apply (agree_step_perturb agree0 (λ m p, perturb0 m p.1 p.2)); [lia..|].
  intros i4 m4 x4 n4 _ _ _. apply perturb0_agree.
Qed.

Lemma perturb5_agree B L C G E mask x noise :
  shape_is5 B L C G E mask = true → shape_is5 B L C G E x = true →
  shape_is5 B L C G E noise = true →
  agree5 (Some mask) x (perturb5 mask x noise).
Proof.
  intros Hm Hx Hn. apply shape_step in Hm as [Lm Hm], Hx as [Lx Hx], Hn as [Ln Hn].
  apply (agree_step_perturb agree4 (λ m p, perturb4 m p.1 p.2)); [lia..|].
  intros i1 m1 x1 n1 Hm1 Hx1 Hn1. simpl.
  apply (perturb4_agree L C G E); eauto.
Qed.

Lemma forallb_bool_decide {A} (P : A → Prop) `{∀ x, Decision (P x)} (v : list A) :
  forallb (λ x, bool_decide (P x)) v = bool_decide (Forall P v).
Proof.
  destruct (forallb (λ x, bool_decide (P x)) v) eqn:E; symmetry.
  - apply bool_decide_eq_true_2, Forall_forall. intros x Hx.
    rewrite forallb_forall in E. apply list_elem_of_In in Hx.
    specialize (E x Hx). by apply bool_decide_eq_true in E.
  - apply bool_decide_eq_false_2. intros HF.
    assert (forallb (λ x, bool_decide (P x)) v = true); [|congruence].
    apply forallb_forall. intros x Hx. apply list_elem_of_In in Hx.
    apply bool_decide_eq_true_2. by eapply Forall_forall in HF.
Qed.

Lemma state_mask_of_at pad rl2s b l v :
  (r ← rl2s !! b; r !! l) = Some v →
  at3 (state_mask_of pad rl2s) b l 0
  = Some (if bool_decide (Forall (λ x, x = pad) v) then 0 else 1).
Proof.
  unfold at3, state_mask_of, map2. intros Hv. rewrite list_lookup_fmap.
  destruct (rl2s !! b) as [r|]; simpl in *; [|done].
  rewrite list_lookup_fmap, Hv. simpl. f_equal.
  rewrite (forallb_bool_decide (λ x, x = pad)).
  by destruct (bool_decide _).
Qed.

Lemma bzipM_zip_with {A B C} (f : A → B → option C) (h : A → B → C) x y :
  length x = length y →
  (∀ i a b, x !! i = Some a → y !! i = Some b → f a b = Some (h a b)) →
  bzipM f x y = Some (zip_with h x y).
Proof.
  intros Hlen Hf.
  assert (Hgen : mapM (λ p, f p.1 p.2) (zip x y) = Some (zip_with h x y)).
  { clear Hlen. revert y Hf. induction x as [|a x IH]; intros [|b y] Hf; try done.
    simpl. rewrite (Hf 0%nat a b eq_refl eq_refl). simpl.
    rewrite (IH y); [done|]. intros i a' b' Ha Hb. by apply (Hf (S i)). }
  destruct x as [|a [|a' x]], y as [|b [|b' y]]; try done.
  - simpl in *. by rewrite decide_True.
Qed.

Lemma bmul1_single m row : bmul1 [m] row = Some (wmul1 [m] row).
Proof.
  unfold bmul1, bzipM, wmul1. simpl.
  induction row as [|x row IH]; [done|]. simpl. by rewrite IH.
Qed.


Lemma vmask_spec pad v :
  vmask pad v = if bool_decide (Forall (λ x, x = pad) v) then 0 else 1.
Proof.
  unfold vmask. rewrite (forallb_bool_decide (λ x, x = pad)).
  by destruct (bool_decide _).
Qed.

Lemma amask_lookup pad G rl2s b row :
  rl2s !! b = Some row →
  actor_state_mask G (state_mask_of pad rl2s) !! b
  = Some ((λ v, replicate G [vmask pad v]) <$> take (length row - 1) row).
Proof.
  intros Hb. unfold actor_state_mask, repeat_g, drop_last_t, state_mask_of, map2.
  rewrite !list_lookup_fmap, Hb. simpl.
  rewrite length_fmap, <- fmap_take, <- list_fmap_compose. done.
Qed.

Lemma cmask_lookup pad C G rl2s b row :
  rl2s !! b = Some row →
  critic_state_mask C G (state_mask_of pad rl2s) !! b
  = Some ((λ v, replicate C (replicate G [vmask pad v])) <$> drop 1 row).
Proof.
  intros Hb. unfold critic_state_mask, repeat_cg, drop_first_t, state_mask_of, map2.
  rewrite !list_lookup_fmap, Hb. simpl.
  rewrite <- fmap_drop, <- list_fmap_compose. done.
Qed.

Lemma amask_length pad G rl2s :
  length (actor_state_mask G (state_mask_of pad rl2s)) = length rl2s.
Proof.
  unfold actor_state_mask, repeat_g, drop_last_t, state_mask_of, map2.
  by rewrite !length_fmap.
Qed.
Lemma cmask_length pad C G rl2s :
  length (critic_state_mask C G (state_mask_of pad rl2s)) = length rl2s.
Proof.
  unfold critic_state_mask, repeat_cg, drop_first_t, state_mask_of, map2.
  by rewrite !length_fmap.
Qed.


Lemma bmul2_replicate G m (x : T2) :
  length x = G → bmul2 (replicate G [m]) x = Some (weighted2 (replicate G [m]) x).
Proof.
  intros Hx. apply bzipM_zip_with; [by rewrite length_replicate|].
  intros i a b [-> _]%lookup_replicate _. apply bmul1_single.
Qed.

Lemma bmul3_replicate C G m (x : T3) :
  length x = C → (∀ c xc, x !! c = Some xc → length xc = G) →
  bmul3 (replicate C (replicate G [m])) x
  = Some (weighted3 (replicate C (replicate G [m])) x).
Proof.
  intros Hx Hxc. apply bzipM_zip_with; [by rewrite length_replicate|].
  intros i a b [-> _]%lookup_replicate Hb. apply bmul2_replicate. by eapply Hxc.
Qed.

Lemma bmul3_row pad G (vs : list T1) (x : T3) :
  length x = length vs → (∀ l xl, x !! l = Some xl → length xl = G) →
  bmul3 ((λ v, replicate G [vmask pad v]) <$> vs) x
  = Some (weighted3 ((λ v, replicate G [vmask pad v]) <$> vs) x).
Proof.
  intros Hx Hxl. apply bzipM_zip_with; [by rewrite length_fmap|].
  intros i a b Ha Hb. rewrite list_lookup_fmap in Ha.
  destruct (vs !! i) as [v|]; simplify_eq/=.
  apply bmul2_replicate. by eapply Hxl.
Qed.

Lemma bmul4_row pad C G (vs : list T1) (x : T4) :
  length x = length vs →
  (∀ l xl, x !! l = Some xl → length xl = C
           ∧ ∀ c xc, xl !! c = Some xc → length xc = G) →
  bmul4 ((λ v, replicate C (replicate G [vmask pad v])) <$> vs) x
  = Some (weighted4 ((λ v, replicate C (replicate G [vmask pad v])) <$> vs) x).
Proof.
  intros Hx Hxl. apply bzipM_zip_with; [by rewrite length_fmap|].
  intros i a b Ha Hb. rewrite list_lookup_fmap in Ha.
  destruct (vs !! i) as [v|]; simplify_eq/=.
  destruct (Hxl _ _ Hb) as [HC HG]. by apply bmul3_replicate.
Qed.

Lemma shape4_rows {A} B L G E (x : list (list (list (list A)))) :
  shape_is4 B L G E x = true →
  length x = B
  ∧ ∀ b xb, x !! b = Some xb → length xb = L
    ∧ ∀ l xl, xb !! l = Some xl → length xl = G
      ∧ ∀ g xg, xl !! g = Some xg → length xg = E.
Proof.
  intros [HB H3]%shape_step. split; [done|]. intros b xb Hb.
  apply H3, shape_step in Hb as [HL H2]. split; [done|]. intros l xl Hl.
  apply H2, shape_step in Hl as [HG H1]. split; [done|]. intros g xg Hg.
  by apply H1, shape_is1_spec in Hg.
Qed.

Lemma shape4_of_rows {A} B L G E (x : list (list (list (list A)))) :
  length x = B →
  (∀ b xb, x !! b = Some xb → length xb = L
    ∧ ∀ l xl, xb !! l = Some xl → length xl = G
      ∧ ∀ g xg, xl !! g = Some xg → length xg = E) →
  shape_is4 B L G E x = true.
Proof.
  intros HB H. apply shape_step. split; [done|]. intros b xb Hb.
  destruct (H _ _ Hb) as [HL H3]. apply shape_step. split; [done|].
  intros l xl Hl. destruct (H3 _ _ Hl) as [HG H2]. apply shape_step.
  split; [done|]. intros g xg Hg. apply shape_is1_spec. by eapply H2.
Qed.

Lemma shape5_rows {A} B L C G E (x : list (list (list (list (list A))))) :
  shape_is5 B L C G E x = true →
  length x = B ∧ ∀ b xb, x !! b = Some xb → shape_is4 L C G E xb = true.
Proof. intros [HB H4]%shape_step. done. Qed.

Lemma bmul4_amask pad B L1 G E rl2s (x : T4) :
  length rl2s = B → (∀ b row, rl2s !! b = Some row → length row = S L1) →
  shape_is4 B L1 G E x = true →
  bmul4 (actor_state_mask G (state_mask_of pad rl2s)) x
  = Some (weighted4 (actor_state_mask G (state_mask_of pad rl2s)) x).
Proof.
  intros HB Hrows (Hx & Hxb)%shape4_rows.
  apply bzipM_zip_with; [rewrite amask_length; lia|].
  intros b mb xb Hmb Hb.
  destruct (lookup_lt_is_Some_2 rl2s b) as [row Hrow];
    [rewrite HB, <- Hx; by eapply lookup_lt_Some|].
  rewrite (amask_lookup _ _ _ _ _ Hrow) in Hmb. injection Hmb as <-.
  destruct (Hxb _ _ Hb) as [HL Hxl].
  apply bmul3_row.
  - rewrite length_take, (Hrows _ _ Hrow). lia.
  - intros l xl Hl. by apply Hxl in Hl as [? _].
Qed.

Lemma bmul5_cmask pad B L1 C G E rl2s (x : T5) :
  length rl2s = B → (∀ b row, rl2s !! b = Some row → length row = S L1) →
  shape_is5 B L1 C G E x = true →
  bmul5 (critic_state_mask C G (state_mask_of pad rl2s)) x
  = Some (weighted5 (critic_state_mask C G (state_mask_of pad rl2s)) x).
Proof.
  intros HB Hrows (Hx & Hxb)%shape5_rows.
  apply bzipM_zip_with; [rewrite cmask_length; lia|].
  intros b mb xb Hmb Hb.
  destruct (lookup_lt_is_Some_2 rl2s b) as [row Hrow];
    [rewrite HB, <- Hx; by eapply lookup_lt_Some|].
  rewrite (cmask_lookup _ _ _ _ _ _ Hrow) in Hmb. injection Hmb as <-.
  apply Hxb, shape4_rows in Hb as [HL Hxl].
  apply bmul4_row.
  - rewrite length_drop, (Hrows _ _ Hrow). lia.
  - intros l xl Hl. apply Hxl in Hl as [HC Hxc]. split; [done|].
    intros c xc Hc. by apply Hxc in Hc as [? _].
Qed.

Lemma wmul1_lookup m row e x :
  row !! e = Some x → wmul1 [m] row !! e = Some (m * x).
Proof. intros He. unfold wmul1. by rewrite list_lookup_fmap, He. Qed.

Lemma weighted4_amask_at pad B L1 G E rl2s (x : T4) b l g e xv v :
  length rl2s = B → (∀ b row, rl2s !! b = Some row → length row = S L1) →
  shape_is4 B L1 G E x = true →
  at4 x b l g e = Some xv → (r ← rl2s !! b; r !! l) = Some v →
  at4 (actor_state_mask G (state_mask_of pad rl2s)) b l g 0 = Some (vmask pad v)
  ∧ at4 (weighted4 (actor_state_mask G (state_mask_of pad rl2s)) x) b l g e
    = Some (vmask pad v * xv).
Proof.
  intros HB Hrows (Hx & Hxb)%shape4_rows Hat Hv. unfold at4 in *.
  destruct (x !! b) as [xb|] eqn:Hb; simpl in Hat; [|done].
  destruct (xb !! l) as [xl|] eqn:Hl; simpl in Hat; [|done].
  destruct (xl !! g) as [xg|] eqn:Hg; simpl in Hat; [|done].
  destruct (rl2s !! b) as [row|] eqn:Hrow; simpl in Hv; [|done].
  destruct (Hxb _ _ Hb) as [HL Hxl]. destruct (Hxl _ _ Hl) as [HG _].
  pose proof (lookup_lt_Some _ _ _ Hl) as Ll.
  pose proof (lookup_lt_Some _ _ _ Hg) as Lg.
  assert (Hm : ((λ v, replicate G [vmask pad v]) <$> take (length row - 1) row)
               !! l = Some (replicate G [vmask pad v])).
  { rewrite list_lookup_fmap, lookup_take_lt, Hv; [done|].
    rewrite (Hrows _ _ Hrow). lia. }
  unfold weighted4. rewrite lookup_zip_with, (amask_lookup _ _ _ _ _ Hrow), Hb.
  simpl. unfold weighted3. rewrite lookup_zip_with, Hm, Hl. simpl.
  unfold weighted2. rewrite lookup_zip_with, lookup_replicate_2, Hg by lia.
  simpl. split; [done|]. by apply wmul1_lookup.
Qed.

Lemma weighted5_cmask_at pad B L1 C G E rl2s (x : T5) b l c g e xv v :
  length rl2s = B → (∀ b row, rl2s !! b = Some row → length row = S L1) →
  shape_is5 B L1 C G E x = true →
  at5 x b l c g e = Some xv → (r ← rl2s !! b; r !! S l) = Some v →
  at5 (critic_state_mask C G (state_mask_of pad rl2s)) b l c g 0
  = Some (vmask pad v)
  ∧ at5 (weighted5 (critic_state_mask C G (state_mask_of pad rl2s)) x) b l c g e
    = Some (vmask pad v * xv).
Proof.
  intros HB Hrows (Hx & Hxb)%shape5_rows Hat Hv. unfold at5 in *.
  destruct (x !! b) as [xb|] eqn:Hb; simpl in Hat; [|done].
  destruct (xb !! l) as [xl|] eqn:Hl; simpl in Hat; [|done].
  destruct (xl !! c) as [xc|] eqn:Hc; simpl in Hat; [|done].
  destruct (xc !! g) as [xg|] eqn:Hg; simpl in Hat; [|done].
  destruct (rl2s !! b) as [row|] eqn:Hrow; simpl in Hv; [|done].
  destruct (shape4_rows _ _ _ _ _ (Hxb _ _ Hb)) as [HL Hxl].
  destruct (Hxl _ _ Hl) as [HC Hxc]. destruct (Hxc _ _ Hc) as [HG _].
  pose proof (lookup_lt_Some _ _ _ Hc) as Lc.
  pose proof (lookup_lt_Some _ _ _ Hg) as Lg.
  assert (Hm : ((λ v, replicate C (replicate G [vmask pad v])) <$> drop 1 row)
               !! l = Some (replicate C (replicate G [vmask pad v]))).
  { rewrite list_lookup_fmap, lookup_drop. simpl. by rewrite Hv. }
  unfold weighted5. rewrite lookup_zip_with, (cmask_lookup _ _ _ _ _ _ Hrow), Hb.
  simpl. unfold weighted4. rewrite lookup_zip_with, Hm, Hl. simpl.
  unfold weighted3. rewrite lookup_zip_with, lookup_replicate_2, Hc by lia.
  simpl. unfold weighted2. rewrite lookup_zip_with, lookup_replicate_2, Hg by lia.
  simpl. split; [done|]. by apply wmul1_lookup.
Qed.

Lemma amask_shape pad B L1 G rl2s :
  length rl2s = B → (∀ b row, rl2s !! b = Some row → length row = S L1) →
  shape_is4 B L1 G 1 (actor_state_mask G (state_mask_of pad rl2s)) = true.
Proof.
  intros HB Hrows. apply shape4_of_rows; [by rewrite amask_length|].
  intros b mb Hmb.
  destruct (lookup_lt_is_Some_2 rl2s b) as [row Hrow];
    [rewrite <- (amask_length pad G); by eapply lookup_lt_Some|].
  rewrite (amask_lookup _ _ _ _ _ Hrow) in Hmb. injection Hmb as <-.
  split; [rewrite length_fmap, length_take, (Hrows _ _ Hrow); lia|].
  intros l ml Hml. rewrite list_lookup_fmap in Hml.
  destruct (take _ row !! l) as [v|]; simplify_eq/=.
  split; [by rewrite length_replicate|].
  by intros g mg [-> _]%lookup_replicate.
Qed.

Lemma cmask_shape pad B L1 C G rl2s :
  length rl2s = B → (∀ b row, rl2s !! b = Some row → length row = S L1) →
  shape_is5 B L1 C G 1 (critic_state_mask C G (state_mask_of pad rl2s)) = true.
Proof.
  intros HB Hrows. apply shape_step. split; [by rewrite cmask_length|].
  intros b mb Hmb.
  destruct (lookup_lt_is_Some_2 rl2s b) as [row Hrow];
    [rewrite <- (cmask_length pad C G); by eapply lookup_lt_Some|].
  rewrite (cmask_lookup _ _ _ _ _ _ Hrow) in Hmb. injection Hmb as <-.
  apply shape4_of_rows;
    [rewrite length_fmap, length_drop, (Hrows _ _ Hrow); lia|].
  intros l ml Hml. rewrite list_lookup_fmap in Hml.
  destruct (drop 1 row !! l) as [v|]; simplify_eq/=.
  split; [by rewrite length_replicate|].
  intros c mc [-> _]%lookup_replicate.
  split; [by rewrite length_replicate|].
  by intros g mg [-> _]%lookup_replicate.
Qed.

Lemma weighted4_shape B L G E (m x : T4) :
  shape_is4 B L G 1 m = true → shape_is4 B L G E x = true →
  shape_is4 B L G E (weighted4 m x) = true.
Proof.
  intros (Hm & Hmb)%shape4_rows (Hx & Hxb)%shape4_rows.
  apply shape4_of_rows; [unfold weighted4; rewrite length_zip_with; lia|].
  intros b pb (mb & xb & -> & Hb1 & Hb2)%lookup_zip_with_Some.
  destruct (Hmb _ _ Hb1) as [Hm1 Hml]. destruct (Hxb _ _ Hb2) as [Hx1 Hxl].
  split; [unfold weighted3; rewrite length_zip_with; lia|].
  intros l pl (ml & xl & -> & Hl1 & Hl2)%lookup_zip_with_Some.
  destruct (Hml _ _ Hl1) as [Hm2 Hmg]. destruct (Hxl _ _ Hl2) as [Hx2 Hxg].
  split; [unfold weighted2; rewrite length_zip_with; lia|].
  intros g pg (mg & xg & -> & Hg1 & Hg2)%lookup_zip_with_Some.
  unfold wmul1. rewrite length_fmap. by eapply Hxg.
Qed.

Lemma weighted5_shape B L C G E (m x : T5) :
  shape_is5 B L C G 1 m = true → shape_is5 B L C G E x = true →
  shape_is5 B L C G E (weighted5 m x) = true.
Proof.
  intros (Hm & Hmb)%shape5_rows (Hx & Hxb)%shape5_rows.
  apply shape_step. split; [unfold weighted5; rewrite length_zip_with; lia|].
  intros b pb (mb & xb & -> & Hb1 & Hb2)%lookup_zip_with_Some.
  apply weighted4_shape; eauto.
Qed.

Lemma qdiv_spec x y :
  qdiv x y = if decide (y = 0) then None else Some (x / y).
Proof. done. Qed.

Section masked_loss.
Context `{Backend}.

Lemma loss_dict_entries (vc va vm : value) (info : gmap string Stat) :
  info !! "actor_loss" = None → info !! "critic_loss" = None →
  let l := py_union (py_dict [("critic_loss", vc); ("actor_loss", va); ("mask", vm)])
             (VStat <$> info) in
  l !! "critic_loss" = Some vc ∧ l !! "actor_loss" = Some va.
Proof.
  intros Ha Hc l. unfold l, py_union.
  rewrite !lookup_union_r by (by rewrite lookup_fmap, ?Ha, ?Hc).
  done.
Qed.


End masked_loss.


(** ** The mapping returned by one update *)

Lemma result_bind_Ok {A B} (m : result A) (f : A → result B) y :
  (m ≫= f) = Ok y → ∃ x, m = Ok x ∧ f x = Ok y.
Proof. destruct m as [x|e]; [|done]. intros Hf. by exists x. Qed.

(** Invert a chain of binds that ends in [Ok]. *)
Ltac inv_ok H :=
  repeat match type of H with
  | (?m ≫= ?f) = Ok _ =>
      let x := fresh "x" in
      let E := fresh "E" in
      apply result_bind_Ok in H as (x & E & H)
  end.

Lemma py_dict_lookup_None {V} (l : list (string * V)) k :
  k ∉ l.*1 → py_dict l !! k = None.
Proof.
  intros Hk. unfold py_dict. apply not_elem_of_list_to_map_1.
  by rewrite fmap_reverse, elem_of_reverse.
Qed.

Lemma py_union_lookup_None {V} (a b : gmap string V) k :
  a !! k = None → b !! k = None → py_union a b !! k = None.
Proof. intros Ha Hb. unfold py_union. by apply lookup_union_None. Qed.

Lemma py_union_lookup_l {V} (a b : gmap string V) k :
  b !! k = None → py_union a b !! k = a !! k.
Proof. intros Hb. unfold py_union. by rewrite lookup_union_r. Qed.

Ltac reserved_cases H := destruct H as [->|[->| ->]].

Section mapping.
Context `{Backend}.

Lemma _td_stats_reserved gs m q1 q2 r td k :
  reserved k → _td_stats gs m q1 q2 r td !! k = None.
Proof.
  intros Hk. unfold _td_stats. apply py_union_lookup_None.
  - apply py_dict_lookup_None.
    induction gs as [|g gs IH]; simpl; [apply not_elem_of_nil|].
    rewrite !not_elem_of_cons. reserved_cases Hk; repeat split; done.
  - apply py_dict_lookup_None. simpl. rewrite !not_elem_of_cons.
    reserved_cases Hk; repeat split; first [done | apply not_elem_of_nil].
Qed.

Lemma _popart_stats_reserved pa k : reserved k → _popart_stats pa !! k = None.
Proof.
  intros Hk. apply py_dict_lookup_None. simpl. rewrite !not_elem_of_cons.
  reserved_cases Hk; repeat split; first [done | apply not_elem_of_nil].
Qed.

Lemma _policy_stats_reserved disc m d k :
  reserved k → _policy_stats disc m d !! k = None.
Proof.
  intros Hk. unfold _policy_stats. destruct disc;
    apply py_dict_lookup_None; simpl; rewrite !not_elem_of_cons;
    reserved_cases Hk; repeat split; first [done | apply not_elem_of_nil].
Qed.

Lemma _filter_stats_reserved gs m lp f k :
  reserved k → _filter_stats gs m lp f !! k = None.
Proof.
  intros Hk. unfold _filter_stats.
  assert (Hfix : ∀ v : string → string * Stat, (∀ s, (v s).1 = s) →
            py_dict [v "Minimum Action Logprob"; v "Maximum Action Logprob";
                     v "Pct. of Actions Approved by Binary FBC Filter (All Gammas)"]
            !! k = None).
  { intros v Hv. apply py_dict_lookup_None. simpl. rewrite !Hv, !not_elem_of_cons.
    reserved_cases Hk; repeat split; first [done | apply not_elem_of_nil]. }
  pose proof (Hfix (λ k, (k, stat_filter k (drop_last_t m) lp f))
                (λ _, eq_refl)) as Hfix'.
  case_bool_decide; [|exact Hfix'].
  apply py_union_lookup_None; [exact Hfix'|].
  apply py_dict_lookup_None. clear -Hk.
  induction gs as [|g gs IH]; simpl; [apply not_elem_of_nil|].
  rewrite not_elem_of_cons. reserved_cases Hk; split; done.
Qed.

Lemma critic_block_info a pa rnd log_step B L C G D s_rep a_dist a_agent a_buffer
  r d critic_mask c k :
  critic_block a pa rnd log_step B L C G D s_rep a_dist a_agent a_buffer r d
    critic_mask = Ok c →
  reserved k → critic_info c !! k = None.
Proof.
  unfold critic_block. intros Hc Hk. inv_ok Hc. injection Hc as <-. simpl.
  destruct log_step; [|done].
  apply py_union_lookup_None;
    [by apply _td_stats_reserved | by apply _popart_stats_reserved].
Qed.

Lemma fbc_step_info a log_step B L G crit a_dist a_buffer actor_mask actor_loss
  out k :
  fbc_step a log_step B L G crit a_dist a_buffer actor_mask actor_loss = Ok out →
  reserved k → out.2 !! k = None.
Proof.
  unfold fbc_step. intros Hc Hk. inv_ok Hc. injection Hc as <-. simpl.
  destruct log_step; [|done]. by apply _filter_stats_reserved.
Qed.

(** What a successful pass returns: a critic loss exactly when the critic
    block runs, and logging keys that leave the reserved ones alone. *)
Lemma Agent_forward_Ok a pa bt rnd log_step cl al pa' info :
  Agent_forward a pa bt rnd log_step = Ok (cl, al, pa', info) →
  (is_Some cl ↔ critic_block_runs a = true)
  ∧ ((∀ k, reserved k →
        tstep_encoder_log (tstep_encoder (nets a)) (obs bt) (goals bt) (rl2s bt)
          !! k = None) →
     ∀ k, reserved k → info !! k = None).
Proof.
  unfold Agent_forward. intros Hf. inv_ok Hf.
  injection Hf as <- <- <- <-.
  match goal with
  | E : (if critic_block_runs a then _ else _) = Ok ?crit |- _ =>
      rename E into Hcrit; rename crit into crit'
  end.
  match goal with
  | E : (if offline_on a then _ else _) = Ok ?fbc |- _ =>
      rename E into Hfbc; rename fbc into fbc'
  end.
  split.
  - destruct (critic_block_runs a).
    + inv_ok Hcrit. injection Hcrit as <-. simpl. split; [done | by eexists].
    + injection Hcrit as <-. simpl. split; [by intros [? ?] | done].
  - intros Henc k Hk.
    apply py_union_lookup_None.
    + assert (Hbase : (if log_step
                       then tstep_encoder_log (tstep_encoder (nets a)) (obs bt)
                              (goals bt) (rl2s bt)
                       else ∅) !! k = None).
      { destruct log_step; [by apply Henc | done]. }
      assert (Hcr : from_option
                (λ c, py_union
                   (if log_step
                    then tstep_encoder_log (tstep_encoder (nets a)) (obs bt)
                           (goals bt) (rl2s bt)
                    else ∅) (critic_info c))
                (if log_step
                 then tstep_encoder_log (tstep_encoder (nets a)) (obs bt)
                        (goals bt) (rl2s bt)
                 else ∅) crit' !! k = None).
      { destruct crit' as [c|]; simpl; [|done].
        apply py_union_lookup_None; [done|].
        destruct (critic_block_runs a); [|done].
        inv_ok Hcrit. injection Hcrit as <-.
        by eapply critic_block_info. }
      destruct log_step; [|done].
      apply py_union_lookup_None; [done | by apply _policy_stats_reserved].
    + destruct (offline_on a).
      * by eapply fbc_step_info.
      * by injection Hfbc as <-.
Qed.

Lemma critic_block_runs_false a :
  critic_block_runs a = false ↔ fake_filter a = true ∧ ¬ 0 < online_coeff a.
Proof.
  unfold critic_block_runs, online_on, Qcgtb.
  destruct (fake_filter a); simpl.
  - rewrite bool_decide_eq_false. naive_solver.
  - naive_solver.
Qed.

Lemma loss_dict_lookup (vc va vm : value) (info : gmap string Stat) :
  (∀ k, reserved k → info !! k = None) →
  let l := py_union (py_dict [("critic_loss", vc); ("actor_loss", va); ("mask", vm)])
             (VStat <$> info) in
  l !! "critic_loss" = Some vc ∧ l !! "actor_loss" = Some va
  ∧ l !! "mask" = Some vm.
Proof.
  intros Hinfo l. unfold l.
  rewrite !py_union_lookup_l by (rewrite lookup_fmap, Hinfo; [done|];
    unfold reserved; auto).
  done.
Qed.

Lemma compute_loss_of_mapping a C rl2s cl al info l :
  (is_Some cl ↔ critic_block_runs a = true) →
  (∀ k, reserved k → info !! k = None) →
  compute_loss_of C rl2s cl (LossTensor al) info = Ok l
  ∨ _compute_loss_of C rl2s cl al info = Ok l →
  loss_mapping a rl2s l.
Proof.
  intros Hcl Hinfo Hl.
  assert (∃ va vc,
            l = py_union (py_dict [("critic_loss", vc);
                                   ("actor_loss", VScalar va);
                                   ("mask", VMask (state_mask_of MAGIC_PAD_VAL rl2s))])
                  (VStat <$> info)
            ∧ match cl with
              | Some _ => ∃ x, vc = VScalar x
              | None => vc = VFloat 0
              end) as (va & vc & -> & Hvc).
  { destruct Hl as [Hl|Hl];
      [unfold compute_loss_of in Hl
      |unfold _compute_loss_of, masked_avg4, masked_avg5 in Hl];
      inv_ok Hl; injection Hl as <-; eexists _, _; (split; [reflexivity|]);
      (destruct cl as [c|];
       [match goal with E : (_ ≫= _) = Ok _ |- _ =>
          inv_ok E; injection E as <- end; by eexists
       |match goal with E : Ok _ = Ok _ |- _ => by injection E as <- end]). }
  destruct (loss_dict_lookup vc (VScalar va)
              (VMask (state_mask_of MAGIC_PAD_VAL rl2s)) info Hinfo)
    as (Hc & Ha & Hm).
  unfold loss_mapping. rewrite Hc, Ha, Hm.
  split; [done|]. split; [by eexists|].
  rewrite <-critic_block_runs_false.
  destruct cl as [c|].
  - destruct Hvc as [x ->].
    assert (critic_block_runs a = true) as -> by (apply Hcl; by eexists).
    repeat split; try done; intros; try discriminate; try tauto;
      try (by eexists); try (by intros []).
  - subst vc.
    assert (critic_block_runs a = false) as ->.
    { destruct (critic_block_runs a); [|done].
      by destruct (proj2 Hcl eq_refl). }
    repeat split; try done; intros; try discriminate; try tauto.
    all: match goal with Hx : ∃ _, _ |- _ => by destruct Hx | _ => idtac end.
Qed.

(** C8 (as amended).  When [Experiment.compute_loss] or
    [Agent._compute_loss] returns, and the timestep encoder logs nothing
    under the three reserved keys, the mapping holds the validity mask
    under "mask", a scalar under "actor_loss", and under "critic_loss" the
    float [0.0] exactly when [fake_filter] is set and the online
    coefficient is not positive, a scalar otherwise; it is never [None]. *)
Theorem C8_loss_mapping (a : agent) (pa : PopArt) (bt : batch) (rnd : draws)
  (log_step : bool) (l : gmap string value) (pa' : PopArt) :
  compute_loss a pa bt rnd log_step = Ok (l, pa')
  ∨ (log_step = true ∧ _compute_loss a pa bt rnd = Ok (l, pa')) →
  (∀ k, reserved k →
     tstep_encoder_log (tstep_encoder (nets a)) (obs bt) (goals bt) (rl2s bt)
       !! k = None) →
  loss_mapping a (rl2s bt) l.
Proof.
  intros Hl Henc.
  assert (∃ cl al pa2 info,
            Agent_forward a pa bt rnd log_step = Ok (cl, al, pa2, info)
            ∧ (compute_loss_of (num_critics a) (rl2s bt) cl (LossTensor al) info
               = Ok l
               ∨ _compute_loss_of (num_critics a) (rl2s bt) cl al info = Ok l))
    as (cl & al & pa2 & info & Hf & Hl').
  { destruct Hl as [Hl|[-> Hl]];
      [unfold compute_loss in Hl | unfold _compute_loss in Hl];
      inv_ok Hl;
      match goal with x : (_ * _ * _ * _)%type |- _ =>
        destruct x as [[[cl al] pa2] info] end;
      inv_ok Hl; injection Hl as <- <-;
      exists cl, al, pa2, info; (split; [done|]); auto. }
  destruct (Agent_forward_Ok _ _ _ _ _ _ _ _ _ Hf) as [Hcl Hinfo].
  exact (compute_loss_of_mapping a _ _ cl al info l Hcl (Hinfo Henc) Hl').
Qed.

End mapping.

Lemma demo_compute_loss :
  @compute_loss demo_backend (demo_agent 0 true true) tt demo_batch demo_draws
    false = Ok (demo_loss_dict, tt).
Proof. vm_cast_no_check (eq_refl (Ok (A:=_ * unit) (demo_loss_dict, tt))). Qed.

Lemma demo_critic_entry :
  demo_loss_dict !! "critic_loss" = Some (@VFloat demo_backend 0).
Proof. reflexivity. Qed.

Lemma C8_loss_mapping_witness :
  @compute_loss demo_backend (demo_agent 0 true true) tt demo_batch
    demo_draws false = Ok (demo_loss_dict, tt)
  ∧ @loss_mapping demo_backend (demo_agent 0 true true) (rl2s demo_batch)
      demo_loss_dict.
Proof.
  split; [exact demo_compute_loss|].
  apply (@C8_loss_mapping demo_backend (demo_agent 0 true true) tt demo_batch
           demo_draws false demo_loss_dict tt);
    [left; exact demo_compute_loss|].
  intros k _. apply lookup_empty.
Defined.

(** C8 as specified fails: with [fake_filter] set and the online
    coefficient zero the critic entry is the float [0.0], not [None]. *)
Lemma C8_counterexample :
  @compute_loss demo_backend (demo_agent 0 true true) tt demo_batch
    demo_draws false = Ok (demo_loss_dict, tt)
  ∧ demo_loss_dict !! "critic_loss" = Some (@VFloat demo_backend 0)
  ∧ ¬ critic_entry_as_specified.
Proof.
  assert (Hoff : fake_filter (demo_agent 0 true true) = true
                 ∧ ¬ 0 < online_coeff (demo_agent 0 true true)).
  { split; [done | by vm_compute]. }
  assert (Hc : demo_loss_dict !! "critic_loss" = Some (@VFloat demo_backend 0)).
  { exact demo_critic_entry. }
  split; [exact demo_compute_loss|]. split; [exact Hc|].
  intros Hspec.
  specialize (Hspec demo_backend _ _ _ _ _ _ _ demo_compute_loss Hoff).
  rewrite Hc in Hspec. discriminate Hspec.
Qed.

(** ** The advantage filter of the FBC loss *)

Lemma map4_at4 {A B} (f : A → B) (t : list (list (list (list A)))) b l g e :
  at4 (map4 f t) b l g e = f <$> at4 t b l g e.
Proof.
  unfold at4, map4, map3, map2. rewrite list_lookup_fmap.
  destruct (t !! b) as [tb|]; simpl; [|done]. rewrite list_lookup_fmap.
  destruct (tb !! l) as [tl|]; simpl; [|done]. rewrite list_lookup_fmap.
  destruct (tl !! g) as [tg|]; simpl; [|done]. by rewrite list_lookup_fmap.
Qed.

Lemma at4_bc_at4 {A} (t : list (list (list (list A)))) b l g e x :
  at4 t b l g e = Some x → bc_at4 t b l g e = Some x.
Proof.
  unfold at4, bc_at4.
  destruct (t !! b) as [tb|] eqn:Hb; simpl; [|done].
  rewrite (bc_lookup _ _ _ Hb). simpl.
  destruct (tb !! l) as [tl|] eqn:Hl; simpl; [|done].
  rewrite (bc_lookup _ _ _ Hl). simpl.
  destruct (tl !! g) as [tg|] eqn:Hg; simpl; [|done].
  rewrite (bc_lookup _ _ _ Hg). simpl. apply bc_lookup.
Qed.

Lemma fbc_term_at4 coeff filter_ logp t b l g e :
  fbc_term coeff filter_ logp = Some t →
  at4 t b l g e
  = (lp ← at4 logp b l g e; f ← bc_at4 filter_ b l g e; Some (coeff * - (f * lp))).
Proof. apply imapM4_at4. Qed.

(** Where the filter is zero the term vanishes, whatever the
    log-probability; where it is one the term is the weighted negative
    log-probability. *)
Lemma fbc_term_filtered coeff filter_ logp t b l g e f :
  fbc_term coeff filter_ logp = Some t →
  at4 filter_ b l g e = Some f →
  at4 t b l g e
  = (lp ← at4 logp b l g e;
     Some (if decide (f = 0) then 0 else coeff * - (f * lp))).
Proof.
  intros Ht Hf. rewrite (fbc_term_at4 _ _ _ _ _ _ _ _ Ht).
  destruct (at4 logp b l g e) as [lp|]; simpl; [|done].
  rewrite (at4_bc_at4 _ _ _ _ _ _ Hf). simpl. f_equal.
  case_decide as Hz; [|done]. rewrite Hz. ring.
Qed.

Section fbc.
Context `{Backend}.

(** C5 (as amended).  In [MultiTaskAgent.forward] (two-hot critics) the
    filter is the pluggable [fbc_filter_func] applied to the advantage
    tensor, by default [binary_filter] with threshold 0; in [Agent.forward]
    (scalar critics) it is the fixed test [advantage > 1e-3].  In both, the
    FBC term that is added to the actor loss is zero at every position
    whose advantage fails the test, for any log-probability. *)
Theorem C5_fbc_filter :
  (∀ (a : agent) log_step B L G c a_dist a_buffer actor_mask actor_loss out,
     fake_filter a = false →
     fbc_step a log_step B L G (Some c) a_dist a_buffer actor_mask actor_loss
       = Ok out →
     ∃ adv logp term,
       advantage_scalar B L G (q_s_a_agent_g c) (q_s_a_g c) = Ok adv
       ∧ fbc_term (offline_coeff a) (scalar_filter adv) logp = Some term
       ∧ add_inplace4 actor_loss term = Some out.1
       ∧ ∀ b l g e x, at4 adv b l g e = Some x →
           at4 term b l g e
           = (lp ← at4 logp b l g e;
              Some (if decide (qfrac 1 1000 < x)
                    then offline_coeff a * - (1 * lp) else 0)))
  ∧ (∀ (m : multitask_agent) log_step B L C G c s_rep a_dist a_buffer
       actor_mask rnd out,
     fake_filter (base m) = false → offline_on (base m) = true →
     mt_fbc_step m log_step B L C G (Some c) s_rep a_dist a_buffer actor_mask rnd
       = Ok out →
     ∃ adv logp term,
       mt_advantage (base m) (fbc_filter_k m) B L C G s_rep a_dist (mt_q_s_a_g c)
         (seed_fbc rnd) = Ok adv
       ∧ fbc_term (offline_coeff (base m))
           (map4 float_of_bool (drop_last_t (fbc_filter_func m adv))) logp
         = Some term
       ∧ out.1 = LossTensor (map4 (Qcplus 0) term)
       ∧ ∀ b l g e p,
           at4 (drop_last_t (fbc_filter_func m adv)) b l g e = Some p →
           at4 term b l g e
           = (lp ← at4 logp b l g e;
              Some (if p then offline_coeff (base m) * - (1 * lp) else 0)))
  ∧ (∀ adv b l g e,
       at4 (default_fbc_filter_func adv) b l g e
       = (x ← at4 adv b l g e; Some (bool_decide (0 < x)))).
Proof.
  split; [|split].
  - intros a log_step B L G c a_dist a_buffer actor_mask actor_loss out Hff Hstep.
    unfold fbc_step in Hstep. rewrite Hff in Hstep. simpl in Hstep.
    inv_ok Hstep. injection Hstep as <-. simpl.
    match goal with E : (advantage_scalar _ _ _ _ _ ≫= _) = Ok _ |- _ =>
      inv_ok E; injection E as <- end.
    repeat match goal with
    | E : lift_opt ?o = Ok _ |- _ =>
        destruct o eqn:?; simpl in E; [injection E as <-|discriminate E]
    end.
    eexists _, _, _. split; [eassumption|]. split; [eassumption|].
    split; [eassumption|]. intros ib il ig ie v Hv.
    erewrite fbc_term_filtered; [|eassumption|].
    2:{ unfold scalar_filter. rewrite map4_at4, Hv. reflexivity. }
    match goal with |- (?o ≫= _) = (?o ≫= _) =>
      destruct o as [lp|]; simpl; [|done] end. f_equal.
    unfold Qcgtb, scalar_filter_threshold.
    case_bool_decide; simpl; repeat case_decide; done.
  - intros m log_step B L C G c s_rep a_dist a_buffer actor_mask rnd out
      Hff Hoff Hstep.
    unfold mt_fbc_step in Hstep. rewrite Hff, Hoff in Hstep. simpl in Hstep.
    inv_ok Hstep.
    match goal with E : (mt_advantage _ _ _ _ _ _ _ _ _ _ ≫= _) = Ok _ |- _ =>
      inv_ok E; injection E as <- end.
    simpl in Hstep. inv_ok Hstep. injection Hstep as <-. simpl.
    repeat match goal with
    | E : lift_opt ?o = Ok _ |- _ =>
        destruct o eqn:?; simpl in E; [injection E as <-|discriminate E]
    end.
    eexists _, _, _. split; [eassumption|]. split; [eassumption|].
    split; [reflexivity|]. intros ib il ig ie p Hp.
    erewrite fbc_term_filtered; [|eassumption|].
    2:{ unfold mt_filter. rewrite map4_at4, Hp. reflexivity. }
    match goal with |- (?o ≫= _) = (?o ≫= _) =>
      destruct o as [lp|]; simpl; [|done] end. f_equal.
    destruct p; simpl; repeat case_decide; done.
  - intros adv b l g e. unfold default_fbc_filter_func. rewrite map4_at4.
    by destruct (at4 adv b l g e).
Qed.

End fbc.

(** C5 as specified fails for scalar critics: an advantage of 1/2000
    passes [binary_filter] with its default threshold 0 but is rejected by
    the test [advantage > 1e-3] of [Agent.forward]. *)
Lemma C5_counterexample :
  scalar_filter [[[[qfrac 1 2000]]]] = [[[[0]]]]
  ∧ map4 float_of_bool (default_fbc_filter_func [[[[qfrac 1 2000]]]]) = [[[[1]]]]
  ∧ ¬ fbc_filter_as_specified.
Proof.
  split; [qc_decide|]. split; [qc_decide|].
  intros Hspec. specialize (Hspec [[[[qfrac 1 2000]]]]). revert Hspec. qc_decide.
Qed.

Lemma demo_fbc_step :
  @fbc_step demo_backend (demo_agent 0 true false) false 1 2 1
    (Some demo_critic_out) demo_a_dist demo_a_buffer demo_actor_mask
    (full4 1 1 1 1 0) = Ok demo_fbc_out.
Proof. vm_cast_no_check (eq_refl (Ok demo_fbc_out)). Qed.

Lemma C5_fbc_filter_witness :
  ∃ adv logp term,
    advantage_scalar 1 2 1 (q_s_a_agent_g demo_critic_out)
      (q_s_a_g demo_critic_out) = Ok adv
    ∧ fbc_term (offline_coeff (demo_agent 0 true false)) (scalar_filter adv) logp
      = Some term
    ∧ add_inplace4 (full4 1 1 1 1 0) term = Some demo_fbc_out.1.
Proof.
  destruct (proj1 (@C5_fbc_filter demo_backend) (demo_agent 0 true false) false
              1%nat 2%nat 1%nat demo_critic_out demo_a_dist demo_a_buffer
              demo_actor_mask (full4 1 1 1 1 0) demo_fbc_out eq_refl
              demo_fbc_step)
    as (adv & logp & term & Hadv & Hterm & Hadd & _).
  exists adv, logp, term. done.
Defined.

(** ** One training step *)

Section train_order.
Context `{Backend}.

Lemma policy_soft_sync_Ok t t' :
  policy_soft_sync t = Ok t' →
  ∃ n, soft_sync_targets (tau (policy t)) (nets (policy t)) = Some n
     ∧ t' = set_policy_nets n t.
Proof.
  unfold policy_soft_sync.
  destruct (soft_sync_targets _ _) as [n|]; [|done].
  intros [= <-]. by exists n.
Qed.

Lemma do_optimizer_step_spec sync t :
  trace (do_optimizer_step sync t) = trace t
  ∧ target_critics (nets (policy (do_optimizer_step sync t)))
    = target_critics (nets (policy t))
  ∧ target_actor (nets (policy (do_optimizer_step sync t)))
    = target_actor (nets (policy t))
  ∧ maximized_critics (nets (policy (do_optimizer_step sync t)))
    = maximized_critics (nets (policy t))
  ∧ get_trainable (nets (policy (do_optimizer_step sync t)))
    = (optimizer_step (opt_state t) (grads t) sync
         (get_trainable (nets (policy t)))).2.
Proof.
  unfold do_optimizer_step.
  destruct (optimizer_step _ _ _ _) as [o [[[p1 p2] p3] p4]]. done.
Qed.

Lemma sync_block_spec t l log_step synced :
  sync_block t l log_step = Ok synced →
  trace synced.1
  = trace t ++ [EvClipGradNorm; EvSoftSyncTargets]
      ++ (if log_step then [EvGetGradNorms] else [])
  ∧ opt_state synced.1 = opt_state t
  ∧ ∃ n, soft_sync_targets (tau (policy t)) (nets (policy t)) = Some n
       ∧ nets (policy synced.1) = n.
Proof.
  unfold sync_block. intros Hs. inv_ok Hs.
  match goal with E : policy_soft_sync _ = Ok _ |- _ =>
    apply policy_soft_sync_Ok in E as (n & Hn & ->) end.
  destruct log_step; injection Hs as <-; simpl; rewrite <-?app_assoc;
    (split; [done|]); (split; [done|]); by exists n.
Qed.

Lemma soft_sync_targets_trainable tau0 n n' :
  soft_sync_targets tau0 n = Some n' → get_trainable n' = get_trainable n.
Proof.
  unfold soft_sync_targets. intros Hs.
  destruct (_ema_copy tau0 (target_critics n) (critics n)); [|done].
  destruct (_ema_copy tau0 (target_actor n) (actor n)); [|done].
  destruct (_full_copy (maximized_critics n) (critics n)); [|done].
  by injection Hs as <-.
Qed.

(** C6 (as amended).  A step of [Experiment.train_step] that returns runs,
    in this order: zero_grad, the loss computation, the backward pass;
    then, only when gradients are synchronised, gradient clipping and
    [soft_sync_targets] (and the gradient norms on a logging step); and
    last the optimizer step.  So the targets are synced before the
    optimizer step of the same training step, from the parameters that
    this step has not yet updated, and the optimizer leaves them alone. *)
Theorem C6_train_step_order (t : trainer) (bt : batch) (rnd : draws)
  (log_step sync : bool) (t' : trainer) (l : gmap string value) :
  train_step t bt rnd log_step sync = Ok (t', l) →
  trace t'
  = trace t ++ [EvZeroGrad; EvComputeLoss; EvBackward]
      ++ (if sync
          then [EvClipGradNorm; EvSoftSyncTargets]
                 ++ (if log_step then [EvGetGradNorms] else [])
          else [])
      ++ [EvOptimizerStep]
  ∧ (if sync then
       ∃ n, soft_sync_targets (tau (policy t)) (nets (policy t)) = Some n
          ∧ target_critics (nets (policy t')) = target_critics n
          ∧ target_actor (nets (policy t')) = target_actor n
          ∧ maximized_critics (nets (policy t')) = maximized_critics n
     else
       target_critics (nets (policy t')) = target_critics (nets (policy t))
       ∧ target_actor (nets (policy t')) = target_actor (nets (policy t))
       ∧ maximized_critics (nets (policy t'))
         = maximized_critics (nets (policy t)))
  ∧ (∃ o g, get_trainable (nets (policy t'))
            = (optimizer_step o g sync (get_trainable (nets (policy t)))).2).
Proof.
  unfold train_step. intros Hstep. inv_ok Hstep. injection Hstep as <- <-.
  match goal with E : (if sync then _ else _) = Ok ?s |- _ =>
    rename E into Hsync; rename s into synced end.
  destruct (do_optimizer_step_spec sync synced.1)
    as (Htr & Htc & Hta & Hmc & Hopt).
  cbn [fst snd trace policy log_event].
  change (trace (log_event EvOptimizerStep (do_optimizer_step sync synced.1)))
    with (trace (do_optimizer_step sync synced.1) ++ [EvOptimizerStep]).
  change (policy (log_event EvOptimizerStep (do_optimizer_step sync synced.1)))
    with (policy (do_optimizer_step sync synced.1)).
  rewrite Htr, Htc, Hta, Hmc, Hopt. clear Htr Htc Hta Hmc Hopt.
  destruct sync.
  - apply sync_block_spec in Hsync as (Hst & _ & n & Hn & Hnets).
    rewrite Hst, Hnets. split.
    + simpl. rewrite <-!app_assoc. done.
    + split.
      * exists n. split; [exact Hn | done].
      * exists (opt_state synced.1), (grads synced.1).
        by rewrite (soft_sync_targets_trainable _ _ _ Hn).
  - injection Hsync as <-. split.
    + simpl. rewrite <-!app_assoc. done.
    + split; [done|]. by eexists _, _.
Qed.

End train_order.

Lemma demo_train_step :
  @train_step demo_backend demo_trainer demo_batch demo_draws false true
  = Ok demo_step_result.
Proof. vm_cast_no_check (eq_refl (Ok demo_step_result)). Qed.

Lemma C6_train_step_order_witness :
  @train_step demo_backend demo_trainer demo_batch demo_draws false true
  = Ok demo_step_result
  ∧ @trace demo_backend demo_step_result.1
    = [EvZeroGrad; EvComputeLoss; EvBackward; EvClipGradNorm;
       EvSoftSyncTargets; EvOptimizerStep].
Proof.
  split; [exact demo_train_step|].
  exact (proj1 (@C6_train_step_order demo_backend demo_trainer demo_batch
                  demo_draws false true demo_step_result.1 demo_step_result.2
                  demo_train_step)).
Defined.

(** C6 as specified fails: in a synchronised step of the demo trainer the
    soft sync is the fifth call and the optimizer step the sixth.  The
    target critic entry 10 is mixed with the online entry 3 of before the
    optimizer step, which then moves the online entry to 4. *)
Lemma C6_counterexample :
  @trace demo_backend demo_step_result.1
  = [EvZeroGrad; EvComputeLoss; EvBackward; EvClipGradNorm;
     EvSoftSyncTargets; EvOptimizerStep]
  ∧ entry (target_critics (nets (@policy demo_backend demo_step_result.1))) 1 0
    = Some ((1 - qfrac 3 1000) * qz 10 + qfrac 3 1000 * qz 3)
  ∧ entry (critics (nets (@policy demo_backend demo_step_result.1))) 1 0
    = Some (qz 4)
  ∧ ¬ step_order_as_specified.
Proof.
  assert (Htr : @trace demo_backend demo_step_result.1
                = [EvZeroGrad; EvComputeLoss; EvBackward; EvClipGradNorm;
                   EvSoftSyncTargets; EvOptimizerStep]) by reflexivity.
  split; [exact Htr|]. split; [qc_decide|]. split; [qc_decide|].
  intros Hspec.
  destruct (Hspec demo_backend demo_trainer demo_batch demo_draws false
              demo_step_result.1 demo_step_result.2 eq_refl demo_train_step)
    as [_ (i & Hi & Hlater)].
  rewrite Htr in Hi, Hlater.
  specialize (Hlater 4%nat eq_refl).
  vm_compute in Hi. injection Hi as <-. lia.
Qed.

(** ** Configuration errors *)

Lemma assert_false_bind {A} (k : unit → result A) :
  (assert_ false ≫= k) = Raise AssertionError.
Proof. done. Qed.

Section config.
Context `{Backend}.

Lemma dpg_step_not_differentiable a pa q al :
  actions_differentiable a = false → dpg_step a pa q al = Raise AssertionError.
Proof. intros Hd. unfold dpg_step. by rewrite Hd. Qed.

Lemma mt_dpg_step_not_supported a pa rnd s_rep a_dist al :
  actions_differentiable a && negb (discrete a) = false →
  mt_dpg_step a pa rnd s_rep a_dist al = Raise AssertionError.
Proof. intros Hd. unfold mt_dpg_step. by rewrite Hd. Qed.

(** Step over the binds of a pass: each either raises or continues. *)
Ltac step_raise :=
  match goal with
  | |- ∃ e, (?m ≫= _) = Raise e =>
      let E := fresh "E" in
      destruct m eqn:E; simpl; [|by eexists]
  end.

Lemma Agent_forward_dpg_raises a pa bt rnd log_step :
  online_on a = true → actions_differentiable a = false →
  ∃ e, Agent_forward a pa bt rnd log_step = Raise e.
Proof.
  intros Hon Hd. unfold Agent_forward. rewrite Hon.
  do 5 step_raise.
  match goal with
  | |- ∃ e, (?m ≫= _) = Raise e =>
      destruct m as [[c|]|e] eqn:Ecrit; simpl; [| |by eexists]
  end.
  - rewrite dpg_step_not_differentiable by done. by eexists.
  - rewrite Hd. by eexists.
Qed.

Lemma MultiTaskAgent_forward_dpg_raises m pa bt rnd log_step :
  online_on (base m) = true →
  actions_differentiable (base m) && negb (discrete (base m)) = false →
  ∃ e, MultiTaskAgent_forward m pa bt rnd log_step = Raise e.
Proof.
  intros Hon Hd. unfold MultiTaskAgent_forward. rewrite Hon.
  do 7 step_raise.
  match goal with
  | |- context [let '(_, _) := ?p in _] => destruct p as [al info]
  end.
  rewrite mt_dpg_step_not_supported by done. by eexists.
Qed.

(** A well-formed configuration builds an agent whose targets equal the
    online networks. *)
Lemma Agent__init___Ok args r :
  resolve_action_space (arg_action_space args) (arg_action_dim args) = Ok r →
  (arg_num_critics_td args ≤ arg_num_critics args)%nat →
  aligned (init_networks args) →
  ∃ a, Agent__init__ args = Ok a
     ∧ target_critics (nets a) = critics (nets a)
     ∧ target_actor (nets a) = actor (nets a)
     ∧ maximized_critics (nets a) = critics (nets a)
     ∧ num_critics a = arg_num_critics args
     ∧ num_critics_td a = arg_num_critics_td args
     ∧ (action_dim a, discrete a, multibinary a) = r.
Proof.
  intros Hr Hle Hal. unfold Agent__init__. rewrite Hr. simpl.
  destruct r as [[dim disc] multibin].
  rewrite bool_decide_eq_true_2 by done. simpl.
  destruct (hard_sync_aligned (init_networks args) Hal) as (h & -> & Htc & Hta & Hmc).
  eexists. split; [reflexivity|]. done.
Qed.

(** C7 (as amended).  The constructor raises [ValueError] for an
    unsupported action-space type when no [action_dim] is supplied; it
    fails for [num_critics_td > num_critics] (with the assertion whenever
    the action space itself is accepted); and with a positive online
    coefficient a forward pass fails when the actor lacks differentiable
    actions (the two-hot variant also for discrete actions): the DPG step
    raises the assertion error and no pass returns losses. *)
Theorem C7_config_errors :
  (∀ args, arg_action_dim args = None → arg_action_space args = OtherSpace →
     Agent__init__ args = Raise ValueError)
  ∧ (∀ args, (arg_num_critics args < arg_num_critics_td args)%nat →
       (∃ e, Agent__init__ args = Raise e)
       ∧ ∀ r, resolve_action_space (arg_action_space args) (arg_action_dim args)
               = Ok r →
              Agent__init__ args = Raise AssertionError)
  ∧ (∀ a pa bt rnd log_step,
       online_on a = true → actions_differentiable a = false →
       (∃ e, Agent_forward a pa bt rnd log_step = Raise e)
       ∧ ∀ q al, dpg_step a pa q al = Raise AssertionError)
  ∧ (∀ m pa bt rnd log_step,
       online_on (base m) = true →
       actions_differentiable (base m) && negb (discrete (base m)) = false →
       (∃ e, MultiTaskAgent_forward m pa bt rnd log_step = Raise e)
       ∧ ∀ s_rep a_dist al,
           mt_dpg_step (base m) pa rnd s_rep a_dist al = Raise AssertionError).
Proof.
  split; [|split; [|split]].
  - intros args Hdim Hsp. unfold Agent__init__, resolve_action_space.
    by rewrite Hdim, Hsp.
  - intros args Hlt.
    assert (Hr : ∀ r, resolve_action_space (arg_action_space args)
                        (arg_action_dim args) = Ok r →
                 Agent__init__ args = Raise AssertionError).
    { intros [[dim disc] multibin] Hr. unfold Agent__init__. rewrite Hr. simpl.
      rewrite bool_decide_eq_false_2 by lia. done. }
    split; [|exact Hr].
    destruct (resolve_action_space (arg_action_space args) (arg_action_dim args))
      as [r|e] eqn:E.
    + exists AssertionError. by apply (Hr r).
    + exists e. unfold Agent__init__. by rewrite E.
  - intros a pa bt rnd log_step Hon Hd. split.
    + by apply Agent_forward_dpg_raises.
    + intros q al. by apply dpg_step_not_differentiable.
  - intros m pa bt rnd log_step Hon Hd. split.
    + by apply MultiTaskAgent_forward_dpg_raises.
    + intros s_rep a_dist al. by apply mt_dpg_step_not_supported.
Qed.

End config.

Lemma C7_config_errors_witness :
  Agent__init__ (demo_args OtherSpace None 2) = Raise ValueError
  ∧ Agent__init__ (demo_args (Box [3%nat]) None 3) = Raise AssertionError.
Proof.
  destruct (@C7_config_errors demo_backend) as (Hsp & Hnum & _).
  split.
  - apply Hsp; reflexivity.
  - assert (Hlt : (arg_num_critics (demo_args (Box [3%nat]) None 3)
                   < arg_num_critics_td (demo_args (Box [3%nat]) None 3))%nat)
      by (simpl; lia).
    exact (proj2 (Hnum _ Hlt) (3%nat, false, false) eq_refl).
Defined.

(** C7 as specified fails: with [action_dim] given, the action-space type
    is not looked at, and the constructor succeeds for an unsupported
    one. *)
Lemma C7_counterexample :
  (∃ a, Agent__init__ (demo_args OtherSpace (Some 3%nat) 2) = Ok a
      ∧ action_dim a = 3%nat ∧ discrete a = false)
  ∧ ¬ unsupported_space_as_specified.
Proof.
  assert (Hok : ∃ a, Agent__init__ (demo_args OtherSpace (Some 3%nat) 2) = Ok a
                   ∧ action_dim a = 3%nat ∧ discrete a = false).
  { destruct (Agent__init___Ok (demo_args OtherSpace (Some 3%nat) 2)
                (3%nat, false, false) eq_refl)
      as (a & Ha & _ & _ & _ & _ & _ & Hr).
    - simpl. lia.
    - repeat split; repeat constructor.
    - exists a. split; [done|]. by injection Hr as -> -> _. }
  split; [exact Hok|]. intros Hspec. destruct Hok as (a & Ha & _).
  destruct (Hspec (demo_args OtherSpace (Some 3%nat) 2) eq_refl) as [e He].
  congruence.
Qed.

(** ** The current timestep of a batch of sequences *)

Lemma bzipM_same_length {A B C} (f : A → B → option C) x y :
  length x = length y → bzipM f x y = mapM (λ p, f p.1 p.2) (zip x y).
Proof.
  intros Hlen. destruct x as [|a [|a' x]], y as [|b [|b' y]]; simplify_eq/=;
    try done.
  rewrite Hlen. by case_decide.
Qed.

Lemma take_row_in_range {A} (row : list A) len :
  (1 ≤ len ≤ Z.of_nat (length row))%Z →
  ∃ x, row !! Z.to_nat (len - 1) = Some x ∧ take_row row len = Some [x].
Proof.
  intros Hlen. unfold take_row. rewrite decide_True by lia.
  destruct (lookup_lt_is_Some_2 row (Z.to_nat (len - 1))) as [x Hx]; [lia|].
  exists x. by rewrite Hx.
Qed.

(** Outside the range the index is rejected, as [torch.take_along_dim]
    does. *)
Lemma take_row_out_of_range {A} (row : list A) len :
  (len < 1 ∨ Z.of_nat (length row) < len)%Z → take_row row len = None.
Proof.
  intros Hlen. unfold take_row. case_decide; [|done].
  rewrite (proj2 (lookup_ge_None row (Z.to_nat (len - 1)))); [done | lia].
Qed.

Lemma take_timestep_spec {A} (v : list (list A)) lens :
  lengths_in_range v lens →
  ∃ o, take_timestep v lens = Some o ∧ is_current_timestep v o lens.
Proof.
  intros [Hlen Hrange]. unfold take_timestep.
  rewrite (bzipM_same_length _ _ _ Hlen).
  assert (is_Some (mapM (λ p : list A * Z, take_row p.1 p.2) (zip v lens)))
    as [o Ho].
  { apply mapM_is_Some, Forall_lookup. intros b [row len] [Hrow Hl]%lookup_zip_Some.
    destruct (take_row_in_range row len) as (x & _ & Hx); [by eapply Hrange|].
    unfold compose. simpl. by rewrite Hx. }
  exists o. split; [done|]. split.
  - apply length_mapM in Ho. rewrite length_zip in Ho. lia.
  - intros b row len Hrow Hl.
    destruct (take_row_in_range row len) as (x & Hx & Htake); [by eapply Hrange|].
    exists x. split; [done|].
    rewrite (mapM_lookup_eq _ _ _ b Ho).
    assert (zip v lens !! b = Some (row, len)) as -> by by apply lookup_zip_Some.
    done.
Qed.

(** C10.  For sequence lengths between 1 and the time extent,
    [get_current_timestep] returns, for every tensor (the bare one or each
    dict entry) and every batch element, the single timestep at index
    [seq_lengths - 1] as a time axis of extent one; a dict comes back as a
    dict with the same keys and a bare tensor as a bare tensor.  The
    function is pure: the source only rebinds local names and fills a fresh
    dict, so the arguments stay as they are. *)
Theorem C10_get_current_timestep {A} (sequences : seqs A) (seq_lengths : list Z) :
  match sequences with
  | SeqTensor v => lengths_in_range v seq_lengths
  | SeqDict d => map_Forall (λ _ v, lengths_in_range v seq_lengths) d
  end →
  match sequences with
  | SeqTensor v =>
      ∃ o, get_current_timestep (SeqTensor v) seq_lengths = Some (SeqTensor o)
         ∧ is_current_timestep v o seq_lengths
  | SeqDict d =>
      ∃ od, get_current_timestep (SeqDict d) seq_lengths = Some (SeqDict od)
          ∧ dom od = dom d
          ∧ ∀ k v, d !! k = Some v →
              ∃ o, od !! k = Some o ∧ is_current_timestep v o seq_lengths
  end.
Proof.
  destruct sequences as [v|d]; intros Hwf; unfold get_current_timestep.
  - destruct (take_timestep_spec v seq_lengths Hwf) as (o & Ho & Hspec).
    exists o. split; [|done].
    rewrite map_fmap_singleton, Ho.
    rewrite decide_True by (apply map_Forall_singleton; by eexists).
    rewrite map_fmap_singleton. simpl. by rewrite lookup_singleton_eq.
  - eexists. split; [|split].
    + rewrite decide_True; [reflexivity|].
      intros k o. rewrite lookup_fmap.
      destruct (d !! k) as [v|] eqn:Hk; simpl; [|done]. intros [= <-].
      destruct (take_timestep_spec v seq_lengths (Hwf k v Hk)) as (o & -> & _).
      by eexists.
    + by rewrite !dom_fmap_L.
    + intros k v Hk.
      destruct (take_timestep_spec v seq_lengths (Hwf k v Hk)) as (o & Ho & Hspec).
      exists o. split; [|done].
      by rewrite !lookup_fmap, Hk; simpl; rewrite Ho.
Qed.

Lemma C10_get_current_timestep_witness :
  ∃ od, get_current_timestep
          (SeqDict {[ "observation" := [[1%nat; 2%nat; 3%nat]; [4%nat; 5%nat; 6%nat]] ]})
          [2%Z; 3%Z] = Some (SeqDict od)
      ∧ ∃ o, od !! "observation" = Some o
           ∧ is_current_timestep [[1%nat; 2%nat; 3%nat]; [4%nat; 5%nat; 6%nat]] o
               [2%Z; 3%Z].
Proof.
  destruct (C10_get_current_timestep
              (SeqDict {[ "observation" := [[1%nat; 2%nat; 3%nat]; [4%nat; 5%nat; 6%nat]] ]})
              [2%Z; 3%Z]) as (od & Hod & _ & Hk).
  - apply map_Forall_singleton. split; [done|].
    intros [|[|b]] row len Hrow Hlen; simplify_eq/=; lia.
  - exists od. split; [exact Hod|].
    apply Hk. apply lookup_singleton_eq.
Defined.

(** ** Rollout actions *)

Lemma argmax_go_spec best besti i l :
  ∃ m, ((argmax_go best besti i l = besti ∧ m = best)
        ∨ ∃ k, argmax_go best besti i l = (i + k)%nat ∧ l !! k = Some m)
     ∧ best ≤ m ∧ ∀ x, x ∈ l → x ≤ m.
Proof.
  revert best besti i. induction l as [|y l IH]; intros best besti i; simpl.
  - exists best. split; [by left|]. split; [apply Qcle_refl|].
    intros x Hx. by apply not_elem_of_nil in Hx.
  - case_decide as Hlt.
    + destruct (IH y i (S i)) as (m & Hm & Hle & Hall).
      exists m. split; [|split].
      * right. destruct Hm as [[-> ->]|(k & -> & Hk)].
        -- exists 0%nat. by rewrite Nat.add_0_r.
        -- exists (S k). split; [lia | done].
      * eapply Qcle_trans; [apply Qclt_le_weak, Hlt | exact Hle].
      * intros x [->|Hx]%elem_of_cons; [done | by apply Hall].
    + destruct (IH best besti (S i)) as (m & Hm & Hle & Hall).
      exists m. split; [|split; [done|]].
      * destruct Hm as [[-> ->]|(k & -> & Hk)]; [by left|].
        right. exists (S k). split; [lia | done].
      * intros x [->|Hx]%elem_of_cons; [|by apply Hall].
        eapply Qcle_trans; [|exact Hle]. by apply Qcnot_lt_le.
Qed.

(** [argmax_list] returns the index of a largest entry. *)
Lemma argmax_list_spec v i :
  argmax_list v = Some i →
  ∃ m, v !! i = Some m ∧ ∀ x, x ∈ v → x ≤ m.
Proof.
  destruct v as [|x r]; [done|]. intros [= <-].
  destruct (argmax_go_spec x 0 1 r) as (m & Hm & Hle & Hall).
  exists m. split.
  - destruct Hm as [[-> ->]|(k & -> & Hk)]; done.
  - intros y [->|Hy]%elem_of_cons; [done | by apply Hall].
Qed.

(** An index below 256 survives the cast to [uint8]. *)
Lemma to_uint8_index (i : Z) : (0 ≤ i < 256)%Z → to_uint8 (qz i) = qz i.
Proof.
  intros Hi. unfold to_uint8, qz, Qc_of_Z. simpl.
  by rewrite Z.quot_1_r, Z.mod_small.
Qed.
Lemma to_uint8_wraps (i : Z) : to_uint8 (qz i) = qz (i `mod` 256).
Proof. unfold to_uint8, qz, Qc_of_Z. simpl. by rewrite Z.quot_1_r. Qed.

Lemma mapM_last_lookup {A} (x : list (list A)) t b xb :
  mapM last x = Some t → x !! b = Some xb →
  ∃ y, last xb = Some y ∧ t !! b = Some y.
Proof.
  intros Ht Hb. apply mapM_Some in Ht.
  destruct (Forall2_lookup_l _ _ _ _ _ Ht Hb) as (y & Hy & Hl). by exists y.
Qed.

Lemma mapM_lift {A B} (f : A → option B) (R : A → B → Prop) (l : list A) :
  (∀ i a, l !! i = Some a → ∃ b, f a = Some b ∧ R a b) →
  ∃ k, mapM f l = Some k ∧ length k = length l
     ∧ ∀ i a, l !! i = Some a → ∃ b, k !! i = Some b ∧ R a b.
Proof.
  induction l as [|a l IH]; intros Hf.
  - exists []. split; [done|]. split; [done|]. by intros i a.
  - destruct (Hf 0%nat a eq_refl) as (b & Hb & HR).
    destruct IH as (k & Hk & Hlen & Hall).
    { intros i a' Ha'. by apply (Hf (S i)). }
    exists (b :: k). simpl. rewrite Hb, Hk. split; [done|].
    split; [by rewrite Hlen|].
    intros [|i] a' Ha'; simplify_eq/=; [by exists b | by apply Hall].
Qed.

Lemma argmax_keep_peak v :
  v ≠ [] → ∃ i, argmax_keep v = Some [qz (Z.of_nat i)] ∧ is_peak v i.
Proof.
  intros Hv. unfold argmax_keep.
  destruct (argmax_list v) as [i|] eqn:Hi.
  - exists i. split; [done|]. by apply argmax_list_spec.
  - by destruct v.
Qed.

(** The last entry of the gamma axis of every batch row. *)
Lemma primary_row (x : T3) :
  (∀ b xb, x !! b = Some xb → xb ≠ []) →
  ∃ t, mapM last x = Some t ∧ length t = length x
     ∧ ∀ b xb v, x !! b = Some xb → last xb = Some v → t !! b = Some v.
Proof.
  intros Hx.
  destruct (mapM_lift last (λ xb v, last xb = Some v) x) as (t & Ht & Hlen & Hall).
  { intros b xb Hb. destruct (proj2 (last_is_Some xb) (Hx _ _ Hb)) as [v Hv].
    by exists v. }
  exists t. split; [done|]. split; [done|].
  intros b xb v Hb Hv. destruct (Hall _ _ Hb) as (v' & Hv' & Hl). congruence.
Qed.

(** The argmax of every probability vector, then the last gamma. *)
Lemma argmax_row (probs : T3) :
  (∀ b xb, probs !! b = Some xb → xb ≠ []) →
  (∀ b xb v, probs !! b = Some xb → v ∈ xb → v ≠ []) →
  ∃ x t, mapM (mapM argmax_keep) probs = Some x
       ∧ mapM last x = Some t ∧ length t = length probs
       ∧ ∀ b xb v, probs !! b = Some xb → last xb = Some v →
           ∃ i, is_peak v i ∧ t !! b = Some [qz (Z.of_nat i)].
Proof.
  intros Hg Hv.
  destruct (mapM_lift (mapM argmax_keep)
              (λ xb yb, length yb = length xb
                        ∧ ∀ g v, xb !! g = Some v →
                            ∃ i, is_peak v i ∧ yb !! g = Some [qz (Z.of_nat i)])
              probs) as (x & Hx & Hlen & Hall).
  { intros b xb Hb.
    destruct (mapM_lift argmax_keep
                (λ v y, ∃ i, is_peak v i ∧ y = [qz (Z.of_nat i)]) xb)
      as (yb & Hyb & Hl & Hy).
    { intros g v Hgv. destruct (argmax_keep_peak v) as (i & Hi & Hp).
      - eapply Hv; [exact Hb|]. by eapply list_elem_of_lookup_2.
      - exists [qz (Z.of_nat i)]. split; [done|]. by exists i. }
    exists yb. split; [done|]. split; [done|].
    intros g v Hgv. destruct (Hy _ _ Hgv) as (y & Hyg & i & Hp & ->).
    by exists i. }
  destruct (primary_row x) as (t & Ht & Hlt & Hlast).
  { intros b yb Hyb Hnil. subst yb.
    destruct (lookup_lt_is_Some_2 probs b) as [xb Hb];
      [rewrite <- Hlen; by eapply lookup_lt_Some|].
    destruct (Hall _ _ Hb) as (yb & Hyb' & Hl & _).
    assert (yb = []) as -> by congruence.
    apply (Hg _ _ Hb). destruct xb; [done | simpl in Hl; lia]. }
  exists x, t. split; [done|]. split; [done|]. split; [lia|].
  intros b xb v Hb Hv'.
  destruct (Hall _ _ Hb) as (yb & Hyb & Hl & Hy).
  rewrite last_lookup in Hv'. destruct (Hy _ _ Hv') as (i & Hp & Hyi).
  exists i. split; [done|]. apply (Hlast b yb); [done|].
  by rewrite last_lookup, Hl.
Qed.

Lemma mapM_compose_lift {A B C} (f : A → option B) (g : B → option C)
  (R : A → C → Prop) (l : list A) :
  (∀ i a, l !! i = Some a → ∃ b c, f a = Some b ∧ g b = Some c ∧ R a c) →
  ∃ x k, mapM f l = Some x ∧ mapM g x = Some k ∧ length k = length l
       ∧ ∀ i a, l !! i = Some a → ∃ c, k !! i = Some c ∧ R a c.
Proof.
  induction l as [|a l IH]; intros Hf.
  - exists [], []. split; [done|]. split; [done|]. split; [done|]. by intros i a.
  - destruct (Hf 0%nat a eq_refl) as (b & c & Hb & Hc & HR).
    destruct IH as (x & k & Hx & Hk & Hlen & Hall).
    { intros i a' Ha'. by apply (Hf (S i)). }
    exists (b :: x), (c :: k). simpl. rewrite Hb, Hx. simpl. rewrite Hc, Hk.
    split; [done|]. split; [done|]. split; [by rewrite Hlen|].
    intros [|i] a' Ha'; simplify_eq/=; [by exists c | by apply Hall].
Qed.


Lemma choose_row_spec (disc sample : bool) (smp probs mean : T3) :
  let src := if sample then smp else if disc then probs else mean in
  let chosen :=
    if sample then Some smp
    else if disc then mapM (mapM argmax_keep) probs else Some mean in
  (∀ b xb, src !! b = Some xb → xb ≠ []) →
  (sample = false → disc = true →
   ∀ b xb v, src !! b = Some xb → v ∈ xb → v ≠ []) →
  ∃ t, (chosen ≫= mapM last) = Some t ∧ length t = length src
     ∧ ∀ b xb, src !! b = Some xb →
         ∃ y, t !! b = Some y ∧ row_chosen (negb sample && disc) xb y.
Proof.
  intros src chosen Hg Hv.
  assert (Hplain : ∀ x : T3, (∀ b xb, x !! b = Some xb → xb ≠ []) →
            ∃ t, mapM last x = Some t ∧ length t = length x
               ∧ ∀ b xb, x !! b = Some xb →
                   ∃ y, t !! b = Some y ∧ row_chosen false xb y).
  { intros x Hx. destruct (primary_row x Hx) as (t & Ht & Hl & Hall).
    exists t. split; [done|]. split; [done|]. intros b xb Hb.
    destruct (proj2 (last_is_Some xb) (Hx _ _ Hb)) as [v Hlast].
    exists v. split; [by eapply Hall|]. intros v' Hv'. congruence. }
  unfold src, chosen in *. destruct sample; [by apply Hplain|].
  destruct disc; [|by apply Hplain].
  destruct (argmax_row probs Hg (Hv eq_refl eq_refl)) as (x & t & Hx & Ht & Hl & Hall).
  exists t. rewrite Hx. split; [done|]. split; [done|].
  intros b xb Hb.
  destruct (proj2 (last_is_Some xb) (Hg _ _ Hb)) as [v Hlast].
  destruct (Hall _ _ _ Hb Hlast) as (i & Hp & Hti).
  exists [qz (Z.of_nat i)]. split; [done|].
  intros v' Hv'. assert (v' = v) as -> by congruence. by exists i.
Qed.

Lemma choose_seq_spec (disc sample : bool) (smp probs mean : T4) :
  let src := if sample then smp else if disc then probs else mean in
  let chosen :=
    if sample then Some smp
    else if disc then mapM (mapM (mapM argmax_keep)) probs else Some mean in
  (∀ b l xb, (r ← src !! b; r !! l) = Some xb → xb ≠ []) →
  (sample = false → disc = true →
   ∀ b l xb v, (r ← src !! b; r !! l) = Some xb → v ∈ xb → v ≠ []) →
  ∃ t, (chosen ≫= mapM (mapM last)) = Some t ∧ length t = length src
     ∧ ∀ b row, src !! b = Some row →
         ∃ tb, t !! b = Some tb ∧ length tb = length row
             ∧ ∀ l xb, row !! l = Some xb →
                 ∃ y, tb !! l = Some y ∧ row_chosen (negb sample && disc) xb y.
Proof.
  intros src chosen Hg Hv.
  assert (Hrow : ∀ b row, src !! b = Some row →
            (∀ l xb, row !! l = Some xb → xb ≠ [])
            ∧ (sample = false → disc = true →
               ∀ l xb v, row !! l = Some xb → v ∈ xb → v ≠ [])).
  { intros b row Hb. split.
    - intros l xb Hl. apply (Hg b l). by rewrite Hb.
    - intros Hs Hd l xb v Hl. apply (Hv Hs Hd b l). by rewrite Hb. }
  set (R := λ (row : T3) (tb : T2),
         length tb = length row
         ∧ ∀ l xb, row !! l = Some xb →
             ∃ y, tb !! l = Some y ∧ row_chosen (negb sample && disc) xb y).
  assert (Hplain : sample = true ∨ disc = false →
            ∃ t, mapM (mapM last) src = Some t ∧ length t = length src
               ∧ ∀ b row, src !! b = Some row → ∃ tb, t !! b = Some tb ∧ R row tb).
  { intros Hmode. apply mapM_lift. intros b row Hb.
    destruct (Hrow _ _ Hb) as [Hg' _].
    destruct (choose_row_spec false true row row row Hg') as (tb & Htb & Hl & Hall);
      [done|].
    exists tb. split; [exact Htb|]. split; [done|].
    intros l xb Hl'. destruct (Hall _ _ Hl') as (y & Hy & Hc).
    exists y. split; [done|].
    assert (negb sample && disc = false) as ->; [|exact Hc].
    destruct Hmode as [-> | ->]; [done | by destruct sample]. }
  unfold chosen, src in *. destruct sample; [apply Hplain; by left|].
  destruct disc; [|apply Hplain; by right].
  destruct (mapM_compose_lift (mapM (mapM argmax_keep)) (mapM last) R probs)
    as (x & t & Hx & Ht & Hl & Hall).
  { intros b row Hb. destruct (Hrow _ _ Hb) as [Hg' Hv'].
    destruct (argmax_row row Hg' (Hv' eq_refl eq_refl))
      as (xr & tb & Hxr & Htb & Hlen & Hall).
    exists xr, tb. split; [done|]. split; [done|]. split; [done|].
    intros l xb Hl'.
    destruct (proj2 (last_is_Some xb) (Hg' _ _ Hl')) as [v Hlast].
    destruct (Hall _ _ _ Hl' Hlast) as (i & Hp & Hti).
    exists [qz (Z.of_nat i)]. split; [done|].
    intros v' Hv''. assert (v' = v) as -> by congruence. by exists i. }
  exists t. rewrite Hx. split; [exact Ht|]. split; [done|].
  intros b row Hb. by apply Hall.
Qed.

Section rollout_props.
Context `{Backend}.

Lemma astype_out (a : agent) (x : ndarray) :
  astype (out_dtype a) x
  = {| np_dtype := if discrete a then uint8 else float32;
       np_data := if discrete a then nd_map to_uint8 x else x |}.
Proof. unfold out_dtype, astype. by destruct (discrete a). Qed.

Lemma get_actions_run (a : agent)
  (obs : gmap string (list (list ObsFrame))) (goals : list (list GoalFrame))
  (rl2s : T3) (seq_lengths : list Z) (time_idxs : list (list Z))
  (hidden_state : option Hidden) (sample : bool) (sd : Seed)
  o g r t emb0 h' emb acts :
  current_inputs (bool_decide (is_Some hidden_state)) obs goals rl2s
    seq_lengths time_idxs = Some (o, g, r, t) →
  traj_encoder_fwd (traj_encoder (nets a))
    (tstep_encoder_fwd (tstep_encoder (nets a)) o g r) t hidden_state
  = (emb0, h') →
  (if bool_decide (is_Some hidden_state) then Some emb0
   else get_current_timestep (SeqTensor emb0) seq_lengths ≫= unwrap_tensor)
  = Some emb →
  select_actions a sample emb sd = Some acts →
  get_actions a obs goals rl2s seq_lengths time_idxs hidden_state sample sd
  = Ok ({| np_dtype := if discrete a then uint8 else float32;
           np_data := if discrete a then nd_map to_uint8 acts else acts |}, h').
Proof.
  intros Hcur Htraj Hemb Hsel. unfold get_actions.
  rewrite Hcur. cbn [lift_opt mbind result_bind]. rewrite Htraj, Hemb.
  cbn [lift_opt mbind result_bind]. rewrite Hsel.
  cbn [lift_opt mbind result_bind]. by rewrite astype_out.
Qed.


End rollout_props.

Lemma peak_is_2 i :
  is_peak [qfrac 1 10; qfrac 2 10; qfrac 6 10; qfrac 1 10] i → i = 2%nat.
Proof.
  intros (m & Hm & Hall).
  assert (Hle : qfrac 6 10 ≤ m).
  { apply Hall. rewrite !elem_of_cons. auto. }
  destruct i as [|[|[|[|i]]]]; [| |done| |discriminate Hm].
  all: injection Hm as <-; exfalso; revert Hle; apply Qclt_not_le; qc_decide.
Qed.


(** The peak of a hand-made distribution over four actions. *)
Example argmax_peak :
  argmax_list [qfrac 1 10; qfrac 2 10; qfrac 6 10; qfrac 1 10] = Some 2%nat.
Proof. qc_decide. Qed.

(** ** Repeated target synchronisation *)

Lemma demo_networks_aligned : aligned demo_networks.
Proof. repeat split; repeat constructor. Qed.

Lemma soft_sync_aligned tau n :
  aligned n →
  ∃ s, soft_sync_targets tau n = Some s ∧ aligned s
     ∧ trainable_params s = trainable_params n
     ∧ critics s = critics n ∧ actor s = actor n
     ∧ (∀ i j old on, entry (target_critics n) i j = Some old →
          entry (critics n) i j = Some on →
          entry (target_critics s) i j = Some ((1 - tau) * old + tau * on))
     ∧ (∀ i j old on, entry (target_actor n) i j = Some old →
          entry (actor n) i j = Some on →
          entry (target_actor s) i j = Some ((1 - tau) * old + tau * on)).
Proof.
  intros (Hc & Ha & Hm).
  destruct (ema_copy_aligned tau _ _ Hc) as (tc & Htc & Hac & Hec).
  destruct (ema_copy_aligned tau _ _ Ha) as (ta & Hta & Haa & Hea).
  eexists. unfold soft_sync_targets.
  rewrite Htc, Hta, (full_copy_aligned _ _ Hm). simpl.
  split; [reflexivity|]. simpl.
  assert (same_arch (critics n) (critics n)) as Hrefl.
  { apply Forall2_same_length_lookup. split; [done|].
    intros i x y Hx Hy. by simplify_eq. }
  repeat split; done.
Qed.

(** [k] soft syncs in a row, with the online parameters unchanged in
    between, shrink the gap between every target entry and its online
    entry by the factor [(1 - tau) ^ k]; the trainable parameters stay as
    they are. *)
Theorem soft_sync_repeat_gap (tau : Qc) (k : nat) (n : networks) :
  aligned n →
  ∃ s, soft_sync_repeat tau k n = Some s
     ∧ trainable_params s = trainable_params n
     ∧ (∀ i j old on, entry (target_critics n) i j = Some old →
          entry (critics n) i j = Some on →
          ∃ new, entry (target_critics s) i j = Some new
               ∧ new - on = (1 - tau) ^ k * (old - on))
     ∧ (∀ i j old on, entry (target_actor n) i j = Some old →
          entry (actor n) i j = Some on →
          ∃ new, entry (target_actor s) i j = Some new
               ∧ new - on = (1 - tau) ^ k * (old - on)).
Proof.
  revert n. induction k as [|k IH]; intros n Hal.
  - exists n. split; [done|]. split; [done|].
    split; intros i j old on Ho Hn; exists old; (split; [done|]); simpl; ring.
  - destruct (soft_sync_aligned tau n Hal)
      as (s1 & Hs1 & Hal1 & Htr1 & Hc1 & Ha1 & Hec & Hea).
    destruct (IH s1 Hal1) as (s & Hs & Htr & Hgc & Hga).
    exists s. split; [simpl; by rewrite Hs1|].
    split; [by rewrite Htr|].
    split; intros i j old on Ho Hn.
    + destruct (Hgc i j _ on (Hec i j old on Ho Hn)) as (new & Hnew & Hgap);
        [by rewrite Hc1|].
      exists new. split; [done|]. rewrite Hgap. simpl. ring.
    + destruct (Hga i j _ on (Hea i j old on Ho Hn)) as (new & Hnew & Hgap);
        [by rewrite Ha1|].
      exists new. split; [done|]. rewrite Hgap. simpl. ring.
Qed.

Lemma soft_sync_repeat_gap_witness :
  ∃ s, soft_sync_repeat (qfrac 1 2) 2 demo_networks = Some s
     ∧ ∃ new, entry (target_critics s) 1 0 = Some new
            ∧ new - qz 3 = (1 - qfrac 1 2) ^ 2 * (qz 10 - qz 3).
Proof.
  destruct (soft_sync_repeat_gap (qfrac 1 2) 2 demo_networks
              demo_networks_aligned) as (s & Hs & _ & Hgc & _).
  exists s. split; [exact Hs|].
  exact (Hgc 1%nat 0%nat (qz 10) (qz 3) eq_refl eq_refl).
Defined.

(** ** Construction invariants ([Agent.__init__]) *)

(** A constructed agent keeps the [gamma] argument at the last index of
    [gammas], after the six fixed discounts (all strictly between 0 and 1)
    when [use_multigamma] is set; it draws no more critics than it has; it
    is never both discrete and multibinary, and neither when [action_dim]
    was supplied; its networks are those of the hard sync that ends the
    constructor. *)
Theorem Agent_init_invariants (args : init_args) (a : agent) :
  Agent__init__ args = Ok a →
  last (gammas a) = Some (arg_gamma args)
  ∧ length (gammas a) = (if arg_use_multigamma args then 7 else 1)%nat
  ∧ (∀ i g, gammas a !! i = Some g → (i < length (gammas a) - 1)%nat →
       0 < g ∧ g < 1)
  ∧ (num_critics_td a ≤ num_critics a)%nat
  ∧ discrete a && multibinary a = false
  ∧ (is_Some (arg_action_dim args) → discrete a = false ∧ multibinary a = false)
  ∧ hard_sync_targets (init_networks args) = Some (nets a).
Proof.
  unfold Agent__init__. intros Hi.
  apply result_bind_Ok in Hi as ([[dim disc] multibin] & E & Hi).
  apply result_bind_Ok in Hi as ([] & E0 & Hi).
  destruct (hard_sync_targets (init_networks args)) as [n|] eqn:Hn; [|done].
  injection Hi as <-. simpl.
  assert (Hmg : ∀ i g, (if disc then multigammas_discrete else multigammas_continuous)
                         !! i = Some g → 0 < g ∧ g < 1).
  { intros i g Hg. destruct disc;
      repeat (destruct i as [|i]; simpl in Hg;
              [injection Hg as <-; split; qc_decide|]); done. }
  split; [by rewrite last_snoc|].
  split; [destruct (arg_use_multigamma args), disc; done|].
  split.
  { intros i g Hg Hlt. rewrite length_app in Hlt. simpl in Hlt.
    rewrite lookup_app_l in Hg by lia.
    destruct (arg_use_multigamma args); [by eapply Hmg|].
    by rewrite lookup_nil in Hg. }
  split.
  { unfold assert_ in E0. case_bool_decide; [done|discriminate]. }
  unfold resolve_action_space in E.
  split; [|split; [|done]].
  - destruct (arg_action_dim args); [by simplify_eq|].
    destruct (arg_action_space args); simplify_eq/=; try done.
    destruct (last shape); by simplify_eq.
  - intros [d Hd]. rewrite Hd in E. by simplify_eq.
Qed.

Lemma Agent_init_invariants_witness :
  ∃ a, Agent__init__ (demo_args (Discrete 3) None 2) = Ok a
     ∧ last (gammas a) = Some (qfrac 999 1000)
     ∧ length (gammas a) = 7%nat.
Proof.
  destruct (Agent__init___Ok (demo_args (Discrete 3) None 2) (3%nat, true, false))
    as (a & Ha & _);
    [reflexivity | simpl; lia | exact demo_networks_aligned |].
  exists a. split; [exact Ha|].
  destruct (Agent_init_invariants _ _ Ha) as (Hl & Hn & _).
  split; [exact Hl | exact Hn].
Defined.

(** ** The agent's own update step ([Agent.update]) *)

Section update_more.
Context `{Backend}.

(** An [Agent.update] that returns runs zero_grad, the loss computation,
    the backward pass, the optimizer step and the learning-rate schedule
    step, in this order, and nothing else: it never syncs the targets, so
    the target critics, the target actor and the maximized critics are
    the same after the update as before.  It returns the mapping of
    [_compute_loss] and keeps the PopArt statistics of that pass. *)
Theorem Agent_update_no_target_sync (t : trainer) (bt : batch) (rnd : draws)
  (t' : trainer) (l : gmap string value) :
  Agent_update t bt rnd = Ok (t', l) →
  trace t' = trace t ++ [EvZeroGrad; EvComputeLoss; EvBackward;
                         EvOptimizerStep; EvLrScheduleStep]
  ∧ target_critics (nets (policy t')) = target_critics (nets (policy t))
  ∧ target_actor (nets (policy t')) = target_actor (nets (policy t))
  ∧ maximized_critics (nets (policy t')) = maximized_critics (nets (policy t))
  ∧ (∃ pa', _compute_loss (policy t) (popart t) bt rnd = Ok (l, pa')
            ∧ popart t' = pa')
  ∧ (∃ o g, get_trainable (nets (policy t'))
            = (optimizer_step o g true (get_trainable (nets (policy t)))).2).
Proof.
  unfold Agent_update. intros Hu.
  apply result_bind_Ok in Hu as ([l0 pa'] & Hl & Hu).
  apply result_bind_Ok in Hu as (loss & Hloss & Hu).
  injection Hu as <- <-.
  set (t3 := log_event EvBackward _).
  destruct (do_optimizer_step_spec true t3) as (Htr & Htc & Hta & Hmc & Hopt).
  cbn [trace policy popart log_event set_opt].
  change (trace (log_event EvOptimizerStep (do_optimizer_step true t3)))
    with (trace (do_optimizer_step true t3) ++ [EvOptimizerStep]).
  change (policy (log_event EvOptimizerStep (do_optimizer_step true t3)))
    with (policy (do_optimizer_step true t3)).
  rewrite Htr, Htc, Hta, Hmc, Hopt.
  split; [subst t3; simpl; by rewrite <- !app_assoc|].
  split; [done|]. split; [done|]. split; [done|].
  split.
  - exists pa'. split; [exact Hl|].
    unfold do_optimizer_step.
    destruct (optimizer_step _ _ _ _) as [o [[[p1 p2] p3] p4]]. done.
  - by eexists _, _.
Qed.

End update_more.

Lemma demo_Agent_update :
  @Agent_update demo_backend demo_trainer demo_batch demo_draws
  = Ok demo_update_result.
Proof. vm_cast_no_check (eq_refl (Ok demo_update_result)). Qed.

Lemma Agent_update_no_target_sync_witness :
  @Agent_update demo_backend demo_trainer demo_batch demo_draws
  = Ok demo_update_result
  ∧ @trace demo_backend demo_update_result.1
    = [EvZeroGrad; EvComputeLoss; EvBackward; EvOptimizerStep; EvLrScheduleStep]
  ∧ target_critics (nets (@policy demo_backend demo_update_result.1))
    = target_critics demo_networks.
Proof.
  split; [exact demo_Agent_update|].
  destruct (@Agent_update_no_target_sync demo_backend demo_trainer demo_batch
              demo_draws demo_update_result.1 demo_update_result.2
              demo_Agent_update) as (Htr & Htc & _).
  split; [exact Htr | exact Htc].
Defined.

(** ** Exceptions of the forward passes *)

Lemma assert_raise c e : assert_ c = Raise e → e = AssertionError.
Proof. destruct c; [done|]. by intros [= <-]. Qed.
Lemma lift_opt_raise {A} (o : option A) e : lift_opt o = Raise e → e = IndexError.
Proof. destruct o; [done|]. by intros [= <-]. Qed.

Lemma result_bind_Raise {A B} (m : result A) (f : A → result B) e :
  (m ≫= f) = Raise e → m = Raise e ∨ ∃ x, m = Ok x ∧ f x = Raise e.
Proof.
  destruct m as [x|e']; [|intros [= ->]; by left].
  intros Hf. right. by exists x.
Qed.

(** Walk down a chain of binds that ends in a raised [NameError]: the
    assertions and the tensor operations raise other exceptions; [tac]
    deals with the remaining steps. *)
Ltac name_walk H tac :=
  repeat match type of H with
  | (?m ≫= _) = Raise NameError =>
      let x := fresh "x" in
      let E := fresh "E" in
      apply result_bind_Raise in H as [E|(x & E & H)];
      [first [ by apply assert_raise in E
             | by apply lift_opt_raise in E
             | tac E ] |]
  end;
  try discriminate H.

Lemma dim1_map3 {A B} (f : A → B) (t : list (list (list A))) :
  dim1 (map3 f t) = dim1 t.
Proof.
  destruct t as [|r t]; [done|]. simpl. unfold map2. by rewrite length_fmap.
Qed.

Section forward_more.
Context `{Backend}.

Lemma randint_not_NameError (o : option I5) :
  match o with Some i => Ok i | None => Raise RuntimeError end ≠ Raise NameError.
Proof. by destruct o. Qed.

Lemma critic_block_not_NameError a pa rnd ls B L C G D s_rep a_dist a_agent
  a_buffer r d mask :
  critic_block a pa rnd ls B L C G D s_rep a_dist a_agent a_buffer r d mask
  ≠ Raise NameError.
Proof.
  unfold critic_block. intros Hc.
  name_walk Hc ltac:(fun E => by apply randint_not_NameError in E).
Qed.

Lemma dpg_step_not_NameError a pa q al : dpg_step a pa q al ≠ Raise NameError.
Proof.
  unfold dpg_step. intros Hc. name_walk Hc ltac:(fun E => fail).
  by apply lift_opt_raise in Hc.
Qed.

Lemma advantage_scalar_not_NameError B L G q1 q2 :
  advantage_scalar B L G q1 q2 ≠ Raise NameError.
Proof. unfold advantage_scalar. intros Hc. name_walk Hc ltac:(fun E => fail). Qed.

Lemma fbc_step_NameError a ls B L G crit a_dist a_buffer mask al :
  fbc_step a ls B L G crit a_dist a_buffer mask al = Raise NameError →
  fake_filter a = false ∧ crit = None.
Proof.
  unfold fbc_step. intros Hc.
  name_walk Hc ltac:(fun E =>
    destruct (fake_filter a); simpl in E; [discriminate E|];
    destruct crit as [c|]; [|done];
    name_walk E ltac:(fun E' => by apply advantage_scalar_not_NameError in E')).
Qed.

Lemma critic_block_runs_crit {A} a (blk : result A) (crit : option A) :
  (if critic_block_runs a then c ← blk; Ok (Some c) else Ok None) = Ok crit →
  crit = None → fake_filter a = true ∧ online_on a = false.
Proof.
  unfold critic_block_runs. destruct (fake_filter a), (online_on a); simpl;
    try done; destruct blk; simpl; intros; simplify_eq.
Qed.

Lemma Agent_forward_not_NameError a pa bt rnd ls :
  Agent_forward a pa bt rnd ls ≠ Raise NameError.
Proof.
  unfold Agent_forward. intros Hf.
  name_walk Hf ltac:(fun E =>
    match type of E with
    | (if critic_block_runs _ then _ else _) = _ =>
        destruct (critic_block_runs a); [|discriminate E];
        name_walk E ltac:(fun E' => by apply critic_block_not_NameError in E')
    | (if online_on _ then _ else _) = _ =>
        destruct (online_on a) eqn:Hon; [|discriminate E];
        match goal with
        | Hc : _ = Ok ?crit |- _ =>
            destruct crit as [c|];
            [ by apply dpg_step_not_NameError in E
            | destruct (critic_block_runs_crit _ _ _ Hc eq_refl); congruence ]
        end
    | (if offline_on _ then _ else _) = _ =>
        destruct (offline_on a); [|discriminate E];
        apply fbc_step_NameError in E as [Hff ->];
        match goal with
        | Hc : _ = Ok None |- _ =>
            destruct (critic_block_runs_crit _ _ _ Hc eq_refl); congruence
        end
    end).
Qed.

Lemma mt_critic_block_not_NameError a pa rnd ls B L C G D s_rep a_dist
  a_buffer r d mask :
  mt_critic_block a pa rnd ls B L C G D s_rep a_dist a_buffer r d mask
  ≠ Raise NameError.
Proof.
  unfold mt_critic_block. intros Hc.
  name_walk Hc ltac:(fun E => by apply randint_not_NameError in E).
Qed.

Lemma mt_advantage_not_NameError a K B L C G s_rep a_dist q sd :
  mt_advantage a K B L C G s_rep a_dist q sd ≠ Raise NameError.
Proof. unfold mt_advantage. intros Hc. name_walk Hc ltac:(fun E => fail). Qed.

Lemma mt_dpg_step_not_NameError a pa rnd s_rep a_dist al :
  mt_dpg_step a pa rnd s_rep a_dist al ≠ Raise NameError.
Proof.
  unfold mt_dpg_step. intros Hc. name_walk Hc ltac:(fun E => fail).
  by apply lift_opt_raise in Hc.
Qed.

Lemma mt_fbc_step_NameError m ls B L C G crit s_rep a_dist a_buffer mask rnd :
  mt_fbc_step m ls B L C G crit s_rep a_dist a_buffer mask rnd = Raise NameError →
  fake_filter (base m) = false ∧ crit = None.
Proof.
  unfold mt_fbc_step. intros Hc.
  name_walk Hc ltac:(fun E =>
    destruct (fake_filter (base m)); simpl in E; [discriminate E|];
    destruct (offline_on (base m)); [|discriminate E];
    destruct crit as [c|]; [|done];
    name_walk E ltac:(fun E' => by apply mt_advantage_not_NameError in E')).
  match goal with x : (T4 * T4)%type |- _ => destruct x as [f1 f2] end.
  destruct (offline_on (base m)); [|done].
  name_walk Hc ltac:(fun E => fail).
Qed.

Lemma MultiTaskAgent_forward_not_NameError m pa bt rnd ls :
  MultiTaskAgent_forward m pa bt rnd ls ≠ Raise NameError.
Proof.
  unfold MultiTaskAgent_forward. intros Hf.
  name_walk Hf ltac:(fun E =>
    match type of E with
    | (if critic_block_runs _ then _ else _) = _ =>
        destruct (critic_block_runs (base m)); [|discriminate E];
        name_walk E ltac:(fun E' => by apply mt_critic_block_not_NameError in E')
    | mt_fbc_step _ _ _ _ _ _ _ _ _ _ _ _ = _ =>
        apply mt_fbc_step_NameError in E as [Hff ->];
        match goal with
        | Hc : _ = Ok None |- _ =>
            destruct (critic_block_runs_crit _ _ _ Hc eq_refl); congruence
        end
    end).
  match goal with x : (loss_val * gmap string Stat)%type |- _ =>
    destruct x as [al info] end.
  name_walk Hf ltac:(fun E =>
    destruct (online_on (base m)); [|discriminate E];
    by apply mt_dpg_step_not_NameError in E).
Qed.

(** The critic outputs [q_s_a_agent_g] and [q_s_a_g] are bound only inside
    the block guarded by [not fake_filter or online_coeff > 0], and read
    later under [online_coeff > 0] and under [not fake_filter]: every read
    happens with the block having run, so neither forward pass ever fails
    with a [NameError], whatever the configuration and the batch. *)
Theorem forward_never_NameError (a : agent) (m : multitask_agent) (pa : PopArt)
  (bt : batch) (rnd : draws) (log_step : bool) :
  Agent_forward a pa bt rnd log_step ≠ Raise NameError
  ∧ MultiTaskAgent_forward m pa bt rnd log_step ≠ Raise NameError.
Proof.
  split; [apply Agent_forward_not_NameError
         | apply MultiTaskAgent_forward_not_NameError].
Qed.

(** A batch whose action tensor does not have one timestep less than the
    encoded sequence fails the first assertion of either forward pass; a
    batch of single-timestep sequences (no transition at all) passes that
    assertion and then fails with [IndexError], when the last action is
    read off an empty time axis. *)
Theorem forward_time_axis_errors (a : agent) (m : multitask_agent) (pa : PopArt)
  (bt : batch) (rnd : draws) (log_step : bool) :
  let L e := dim1 (tstep_encoder_fwd (tstep_encoder (nets e)) (obs bt) (goals bt)
                     (rl2s bt)) in
  (Z.of_nat (dim1 (actions bt)) ≠ Z.of_nat (L a) - 1 →
     Agent_forward a pa bt rnd log_step = Raise AssertionError)%Z
  ∧ (Z.of_nat (dim1 (actions bt)) ≠ Z.of_nat (L (base m)) - 1 →
     MultiTaskAgent_forward m pa bt rnd log_step = Raise AssertionError)%Z
  ∧ (∀ n, actions bt = replicate (S n) [] →
       (L a = 1%nat → Agent_forward a pa bt rnd log_step = Raise IndexError)
       ∧ (L (base m) = 1%nat →
          MultiTaskAgent_forward m pa bt rnd log_step = Raise IndexError)).
Proof.
  intros L. split; [|split].
  - intros Hne. unfold Agent_forward, clamp_actions.
    rewrite dim1_map3. fold (L a).
    by rewrite bool_decide_eq_false_2.
  - intros Hne. unfold MultiTaskAgent_forward, clamp_actions.
    rewrite dim1_map3. fold (L (base m)).
    by rewrite bool_decide_eq_false_2.
  - intros n Hact. split; intros HL.
    + unfold Agent_forward, clamp_actions. rewrite dim1_map3. fold (L a).
      rewrite HL, Hact. done.
    + unfold MultiTaskAgent_forward, clamp_actions. rewrite dim1_map3.
      fold (L (base m)). rewrite HL, Hact. done.
Qed.

(** With neither loss term switched on ([online_coeff <= 0] and
    [offline_coeff <= 0]) the two-hot pass returns the float [0.0] as its
    actor loss, and [Experiment.compute_loss], which reads
    [actor_loss.shape], fails with [AttributeError]: it returns a mapping
    for no batch. *)
Theorem multitask_no_loss_term (m : multitask_agent) (pa : PopArt)
  (bt : batch) (rnd : draws) (log_step : bool) :
  online_on (base m) = false → offline_on (base m) = false →
  (∀ cl al pa' info,
     MultiTaskAgent_forward m pa bt rnd log_step = Ok (cl, al, pa', info) →
     al = LossFloat 0
     ∧ compute_loss_multitask m pa bt rnd log_step = Raise AttributeError)
  ∧ ∀ r, compute_loss_multitask m pa bt rnd log_step ≠ Ok r.
Proof.
  intros Hon Hoff.
  assert (Hfwd : ∀ cl al pa' info,
     MultiTaskAgent_forward m pa bt rnd log_step = Ok (cl, al, pa', info) →
     al = LossFloat 0).
  { intros cl al pa' info Hf. unfold MultiTaskAgent_forward in Hf.
    rewrite Hon in Hf. inv_ok Hf.
    match goal with x : (loss_val * gmap string Stat)%type |- _ =>
      destruct x as [al0 info0] end.
    simpl in Hf. injection Hf as <- <- <- <-.
    match goal with E : mt_fbc_step _ _ _ _ _ _ _ _ _ _ _ _ = Ok _ |- _ =>
      unfold mt_fbc_step in E; rewrite Hoff, andb_false_r in E; simpl in E;
      by injection E as <- <- end. }
  split.
  - intros cl al pa' info Hf. pose proof (Hfwd _ _ _ _ Hf) as ->.
    split; [done|]. unfold compute_loss_multitask. by rewrite Hf.
  - intros r Hr. unfold compute_loss_multitask in Hr.
    apply result_bind_Ok in Hr as ([[[cl al] pa'] info] & Hf & Hr).
    rewrite (Hfwd _ _ _ _ Hf) in Hr. done.
Qed.

(** Pure behaviour cloning ([fake_filter] set, [online_coeff <= 0]): the
    pass of [Agent.forward] reads the two encoders and the actor only.
    Replacing the critics, the target critics, the maximized critics and
    the target actor changes nothing in its result; the critic loss is
    [None] and the PopArt statistics stay as they were. *)
Theorem behaviour_cloning_ignores_critics (a : agent) (n' : networks)
  (pa : PopArt) (bt : batch) (rnd : draws) (log_step : bool) :
  fake_filter a = true → online_on a = false →
  tstep_encoder n' = tstep_encoder (nets a) →
  traj_encoder n' = traj_encoder (nets a) →
  actor n' = actor (nets a) →
  Agent_forward (with_nets a n') pa bt rnd log_step
  = Agent_forward a pa bt rnd log_step
  ∧ ∀ cl al pa' info,
      Agent_forward a pa bt rnd log_step = Ok (cl, al, pa', info) →
      cl = None ∧ pa' = pa.
Proof.
  intros Hff Hon Ht Htr Hac. split.
  - unfold Agent_forward, critic_block_runs, online_on, offline_on in *.
    cbn [with_nets nets discrete gammas num_critics fake_filter online_coeff
         offline_coeff actions_differentiable].
    rewrite Ht, Htr, Hac, Hff, Hon. cbn [negb orb].
    unfold fbc_step. cbn [with_nets fake_filter discrete gammas offline_coeff].
    rewrite Hff. cbn [negb].
    unfold logp_a_scalar. cbn [with_nets discrete multibinary]. done.
  - intros cl al pa' info Hf. unfold Agent_forward, critic_block_runs in Hf.
    rewrite Hff, Hon in Hf. cbn [negb orb] in Hf. inv_ok Hf.
    simpl in *. by simplify_eq.
Qed.

End forward_more.

Lemma forward_time_axis_errors_witness :
  @Agent_forward demo_backend (demo_agent 1 true false) tt single_step_batch
    demo_draws false = Raise IndexError
  ∧ @MultiTaskAgent_forward demo_backend (demo_multitask 0 1 false) tt
      single_step_batch demo_draws false = Raise IndexError.
Proof.
  destruct (@forward_time_axis_errors demo_backend (demo_agent 1 true false)
              (demo_multitask 0 1 false) tt single_step_batch demo_draws false)
    as (_ & _ & Hidx).
  destruct (Hidx 0%nat eq_refl) as [Ha Hm].
  split; [exact (Ha eq_refl) | exact (Hm eq_refl)].
Defined.

Lemma demo_multitask_forward :
  @MultiTaskAgent_forward demo_backend (demo_multitask 0 0 false) tt demo_batch
    demo_draws false = Ok demo_multitask_out.
Proof. vm_cast_no_check (eq_refl (Ok demo_multitask_out)). Qed.

Lemma multitask_no_loss_term_witness :
  @MultiTaskAgent_forward demo_backend (demo_multitask 0 0 false) tt demo_batch
    demo_draws false = Ok demo_multitask_out
  ∧ demo_multitask_out.1.1.2 = LossFloat 0
  ∧ @compute_loss_multitask demo_backend (demo_multitask 0 0 false) tt
      demo_batch demo_draws false = Raise AttributeError.
Proof.
  split; [exact demo_multitask_forward|].
  apply (proj1 (@multitask_no_loss_term demo_backend (demo_multitask 0 0 false)
                  tt demo_batch demo_draws false eq_refl eq_refl)
           demo_multitask_out.1.1.1 demo_multitask_out.1.1.2
           demo_multitask_out.1.2 demo_multitask_out.2).
  exact demo_multitask_forward.
Defined.

Lemma behaviour_cloning_ignores_critics_witness :
  @Agent_forward demo_backend
    (with_nets (demo_agent 0 true true) demo_networks_other_critics) tt
    demo_batch demo_draws false
  = @Agent_forward demo_backend (demo_agent 0 true true) tt demo_batch
      demo_draws false.
Proof.
  exact (proj1 (@behaviour_cloning_ignores_critics demo_backend
                  (demo_agent 0 true true) demo_networks_other_critics tt
                  demo_batch demo_draws false eq_refl eq_refl eq_refl eq_refl
                  eq_refl)).
Defined.

(** ** Bounds of the aggregated TD target *)

Lemma qz_S n : qz (Z.of_nat (S n)) = qz (Z.of_nat n) + 1.
Proof.
  unfold qz. apply Qc_is_canon. rewrite Nat2Z.inj_succ. unfold Z.succ.
  simpl. unfold Qc_of_Z. rewrite !Qred_correct. unfold Qeq. simpl. lia.
Qed.

Lemma qz_pos n : (0 < n)%nat → 0 < qz (Z.of_nat n).
Proof. intros Hn. unfold qz, Qclt. simpl. unfold Qlt. simpl. lia. Qed.

Lemma qsum_lower lo l :
  (∀ y, y ∈ l → lo ≤ y) → lo * qz (Z.of_nat (length l)) ≤ qsum l.
Proof.
  induction l as [|x l IH]; intros Hlo; simpl.
  - change (lo * 0 ≤ 0). rewrite Qcmult_0_r. apply Qcle_refl.
  - rewrite qz_S. replace (lo * (qz (Z.of_nat (length l)) + 1))
      with (lo + lo * qz (Z.of_nat (length l))) by ring.
    apply Qcplus_le_compat.
    + apply Hlo. by left.
    + apply IH. intros y Hy. apply Hlo. by right.
Qed.

Lemma qsum_upper hi l :
  (∀ y, y ∈ l → y ≤ hi) → qsum l ≤ hi * qz (Z.of_nat (length l)).
Proof.
  induction l as [|x l IH]; intros Hhi; simpl.
  - change (0 ≤ hi * 0). rewrite Qcmult_0_r. apply Qcle_refl.
  - rewrite qz_S. replace (hi * (qz (Z.of_nat (length l)) + 1))
      with (hi + hi * qz (Z.of_nat (length l))) by ring.
    apply Qcplus_le_compat.
    + apply Hhi. by left.
    + apply IH. intros y Hy. apply Hhi. by right.
Qed.

(** The mean of a list lies between every lower and every upper bound of
    its entries. *)
Lemma qmean_list_bounds l m :
  qmean_list l = Some m →
  (∀ lo, (∀ y, y ∈ l → lo ≤ y) → lo ≤ m)
  ∧ (∀ hi, (∀ y, y ∈ l → y ≤ hi) → m ≤ hi).
Proof.
  destruct l as [|x r]; [done|]. unfold qmean_list. intros [= <-].
  assert (Hpos : 0 < qz (Z.of_nat (length (x :: r)))).
  { apply qz_pos. simpl. lia. }
  split.
  - intros lo Hlo. apply (Qcmult_lt_0_le_reg_r _ _ _ Hpos).
    rewrite test_field by (intros Hz; rewrite Hz in Hpos; done).
    exact (qsum_lower lo (x :: r) Hlo).
  - intros hi Hhi. apply (Qcmult_lt_0_le_reg_r _ _ _ Hpos).
    rewrite test_field by (intros Hz; rewrite Hz in Hpos; done).
    exact (qsum_upper hi (x :: r) Hhi).
Qed.

Lemma qmean_singleton v : qmean_list [v] = Some v.
Proof.
  unfold qmean_list, qsum. cbn [foldr length]. f_equal.
  assert (qz (Z.of_nat 1) = 1) as -> by qc_decide.
  rewrite Qcplus_0_r. unfold Qcdiv.
  assert (/ 1 = 1) as -> by qc_decide. apply Qcmult_1_r.
Qed.

(** Every entry of the aggregated TD target of [Agent.forward] lies
    between the smallest and the largest of the drawn critics' targets at
    that position.  It is their minimum when the online coefficient is
    positive and their mean otherwise, the minimum never exceeds the mean
    (which is also what [MultiTaskAgent.forward] takes), and with a single
    draw both are that draw's target. *)
Theorem aggregated_target_bounds (a : agent) (rand agg : T5) (b l g e : nat)
  (x : Qc) :
  aggregate_td a rand = Some agg → at5 agg b l 0 g e = Some x →
  ∃ col, column5 rand b l g e = Some col
    ∧ (∀ lo, (∀ y, y ∈ col → lo ≤ y) → lo ≤ x)
    ∧ (∀ hi, (∀ y, y ∈ col → y ≤ hi) → x ≤ hi)
    ∧ (∃ mn me, qmin_list col = Some mn ∧ qmean_list col = Some me
         ∧ mn ≤ x ∧ x ≤ me
         ∧ (online_on a = true → x = mn)
         ∧ (online_on a = false → x = me)
         ∧ ∀ t, mt_aggregate_td rand = Some t → at5 t b l 0 g e = Some me)
    ∧ (∀ v, col = [v] → x = v).
Proof.
  intros Hagg Hx. unfold aggregate_td in Hagg.
  assert (∃ col, column5 rand b l g e = Some col
            ∧ (if online_on a then qmin_list col else qmean_list col) = Some x)
    as (col & Hcol & Hred).
  { destruct (online_on a);
      rewrite (reduce_dim2_at5 _ _ _ b l g e Hagg) in Hx;
      destruct (at5 rand b l 0 g e); simpl in Hx; try done;
      destruct (column5 rand b l g e) as [col|]; simpl in Hx; try done;
      by exists col. }
  exists col. split; [done|].
  assert (Hne : col ≠ []) by (intros ->; by destruct (online_on a)).
  destruct (qmin_list_is_Some col Hne) as [mn Hmn].
  destruct (qmean_list_is_Some col Hne) as [me Hme].
  destruct (qmin_list_spec _ _ Hmn) as [Hin Hmin].
  destruct (qmean_list_bounds _ _ Hme) as [Hlo Hhi].
  assert (Hmnme : mn ≤ me) by (apply Hlo, Hmin).
  assert (Hxcases : x = mn ∨ x = me).
  { destruct (online_on a); simplify_eq; auto. }
  assert (Hmt : ∀ t, mt_aggregate_td rand = Some t → at5 t b l 0 g e = Some me).
  { intros t Ht. unfold mt_aggregate_td, mean_dim2_keep in Ht.
    rewrite (reduce_dim2_at5 _ _ _ b l g e Ht), Hcol.
    destruct (at5 rand b l 0 g e) eqn:H0; simpl; [done|].
    destruct (online_on a);
      rewrite (reduce_dim2_at5 _ _ _ b l g e Hagg), H0 in Hx; done. }
  split; [|split; [|split]].
  - intros lo Hall. destruct Hxcases as [-> | ->]; [by apply Hall | by apply Hlo].
  - intros hi Hall. destruct Hxcases as [-> | ->]; [by apply Hall | by apply Hhi].
  - exists mn, me. split; [done|]. split; [done|].
    split; [destruct Hxcases as [-> | ->]; [apply Qcle_refl | done]|].
    split; [destruct Hxcases as [-> | ->]; [done | apply Qcle_refl]|].
    split; [intros Hon; rewrite Hon in Hred; congruence|].
    split; [intros Hon; rewrite Hon in Hred; congruence|]. done.
  - intros v ->. rewrite qmean_singleton in Hme. simpl in Hmn.
    destruct Hxcases; congruence.
Qed.

Lemma demo_aggregate_min :
  aggregate_td (demo_agent 1 true false) ens_demo = Some [[ [[[qz 3]]] ]].
Proof. vm_compute. reflexivity. Qed.

Lemma aggregated_target_bounds_witness :
  aggregate_td (demo_agent 1 true false) ens_demo = Some [[ [[[qz 3]]] ]]
  ∧ ∃ col, column5 ens_demo 0 0 0 0 = Some col
         ∧ (∀ lo, (∀ y, y ∈ col → lo ≤ y) → lo ≤ qz 3).
Proof.
  split; [exact demo_aggregate_min|].
  destruct (aggregated_target_bounds (demo_agent 1 true false) ens_demo
              [[ [[[qz 3]]] ]] 0 0 0 0 (qz 3) demo_aggregate_min eq_refl)
    as (col & Hcol & Hlo & _).
  exists col. split; [exact Hcol | exact Hlo].
Defined.

(** ** Evaluation metrics ([Experiment.policy_metrics]) *)

Lemma od_get_set {V} k k' (v : V) d :
  od_get k (od_set k' v d) = if decide (k = k') then Some v else od_get k d.
Proof.
  induction d as [|[k0 v0] d IH]; simpl.
  - repeat case_decide; congruence.
  - repeat (case_decide; simpl); try congruence.
Qed.

Lemma od_get_None {V} k (d : list (string * V)) : od_get k d = None ↔ k ∉ d.*1.
Proof.
  induction d as [|[k0 v0] d IH]; simpl.
  - split; [intros _; apply not_elem_of_nil | done].
  - rewrite not_elem_of_cons. case_decide as Hk.
    + split; [done|]. by intros [? _].
    + rewrite IH. split; [by split|by intros [_ ?]].
Qed.

Lemma od_set_new {V} k (v : V) d : k ∉ d.*1 → od_set k v d = d ++ [(k, v)].
Proof.
  induction d as [|[k0 v0] d IH]; simpl; [done|].
  rewrite not_elem_of_cons. intros [Hne Hk]. rewrite decide_False by done.
  by rewrite IH.
Qed.

Lemma od_set_keys {V} k (v : V) d : k ∈ d.*1 → (od_set k v d).*1 = d.*1.
Proof.
  induction d as [|[k0 v0] d IH]; simpl; [by intros ?%elem_of_nil|].
  case_decide; [done|]. rewrite elem_of_cons. intros [?|Hk]; [congruence|].
  simpl. f_equal. by apply IH.
Qed.

Lemma od_set_NoDup {V} k (v : V) d : NoDup d.*1 → NoDup (od_set k v d).*1.
Proof.
  intros Hnd. destruct (decide (k ∈ d.*1)) as [Hin|Hout].
  - by rewrite od_set_keys.
  - rewrite od_set_new by done. rewrite fmap_app. simpl.
    apply NoDup_app. split; [done|]. split; [|apply NoDup_singleton].
    intros x Hx ->%list_elem_of_singleton. done.
Qed.

Lemma od_union_disjoint {V} (a b : list (string * V)) :
  NoDup b.*1 → (∀ k, k ∈ b.*1 → k ∉ a.*1) → od_union a b = a ++ b.
Proof.
  unfold od_union. revert a. induction b as [|[k v] b IH]; intros a Hnd Hdis; simpl.
  - by rewrite app_nil_r.
  - apply NoDup_cons in Hnd as [Hk Hnd].
    rewrite od_set_new by (apply Hdis; simpl; by left).
    rewrite IH; [by rewrite <- app_assoc | done |].
    intros k' Hk'. rewrite fmap_app, not_elem_of_app. simpl. split.
    + apply Hdis. simpl. by right.
    + intros ->%list_elem_of_singleton. done.
Qed.

Lemma od_of_list_NoDup {V} (l : list (string * V)) : NoDup l.*1 → od_of_list l = l.
Proof.
  intros Hnd. unfold od_of_list. rewrite od_union_disjoint; [done..|].
  intros k _. apply not_elem_of_nil.
Qed.

Lemma od_get_app {V} k (a b : list (string * V)) :
  od_get k (a ++ b) = match od_get k a with Some v => Some v | None => od_get k b end.
Proof.
  induction a as [|[k0 v0] a IH]; simpl; [done|]. by case_decide.
Qed.

Lemma od_get_fmap_inj {V W} (f : string → string) `{!Inj (=) (=) f} (g : V → W) k d :
  od_get (f k) ((λ p, (f p.1, g p.2)) <$> d) = g <$> od_get k d.
Proof.
  induction d as [|[k0 v0] d IH]; simpl; [done|].
  destruct (decide (k0 = k)) as [->|Hne].
  - by rewrite decide_True.
  - rewrite decide_False; [done|]. by intros ?%(inj f).
Qed.

Lemma add_scores_get name acc item :
  od_get name (add_scores acc item)
  = if decide (name = item.1)
    then Some (default [] (od_get name acc) ++ item.2)
    else od_get name acc.
Proof.
  unfold add_scores. destruct item as [k s]. simpl.
  destruct (od_get k acc) as [old|] eqn:Hk; rewrite od_get_set;
    case_decide; subst; by rewrite ?Hk.
Qed.

Lemma add_scores_NoDup acc item : NoDup acc.*1 → NoDup (add_scores acc item).*1.
Proof. unfold add_scores. destruct (od_get _ _); apply od_set_NoDup. Qed.

Lemma foldl_add_scores_NoDup acc h : NoDup acc.*1 → NoDup (foldl add_scores acc h).*1.
Proof.
  revert acc. induction h as [|it h IH]; intros acc Hnd; simpl; [done|].
  by apply IH, add_scores_NoDup.
Qed.

Lemma filter_name_nil {V} name (h : list (string * V)) :
  name ∉ h.*1 → filter (λ p, p.1 = name) h = [].
Proof.
  induction h as [|[k s] h IH]; simpl; [done|].
  rewrite not_elem_of_cons. intros [Hne Hh].
  rewrite filter_cons_False by (simpl; congruence). by apply IH.
Qed.

Lemma foldl_add_scores_get name acc h :
  od_get name (foldl add_scores acc h)
  = if decide (name ∈ h.*1)
    then Some (default [] (od_get name acc)
                 ++ mjoin (snd <$> filter (λ p, p.1 = name) h))
    else od_get name acc.
Proof.
  revert acc. induction h as [|[k s] h IH]; intros acc.
  - destruct (decide (name ∈ (@nil (string * list Qc)).*1)) as [Hin|]; [|done].
    by apply elem_of_nil in Hin.
  - cbn [foldl]. rewrite IH, add_scores_get, fmap_cons. cbn [fst snd].
    destruct (decide (name = k)) as [->|Hne].
    + rewrite filter_cons_True by done. cbn [fmap list_fmap snd mjoin list_join].
      rewrite (decide_True (P := k ∈ k :: h.*1)) by (by left).
      destruct (decide (k ∈ h.*1)) as [Hin|Hout]; unfold default; simpl.
      * by rewrite <- app_assoc.
      * by rewrite (filter_name_nil _ _ Hout), app_nil_r.
    + rewrite filter_cons_False by (simpl; congruence).
      destruct (decide (name ∈ h.*1)) as [Hin|Hout].
      * rewrite decide_True by (by right). done.
      * rewrite decide_False; [done|].
        rewrite not_elem_of_cons. by split.
Qed.

Lemma by_env_name_fold returns successes acc :
  foldl (λ acc p, (foldl add_scores acc.1 p.1, foldl add_scores acc.2 p.2))
    acc (zip returns successes)
  = (foldl (foldl add_scores) acc.1 (take (length successes) returns),
     foldl (foldl add_scores) acc.2 (take (length returns) successes)).
Proof.
  revert successes acc. induction returns as [|r rs IH]; intros [|s ss] acc;
    try (by destruct acc).
  simpl. by rewrite IH.
Qed.

Lemma collect_NoDup acc hs :
  NoDup acc.*1 → NoDup (foldl (foldl add_scores) acc hs).*1.
Proof.
  revert acc. induction hs as [|h hs IH]; intros acc Hnd; simpl; [done|].
  by apply IH, foldl_add_scores_NoDup.
Qed.

Lemma names_of_cons h hs : names_of (h :: hs) = h.*1 ++ names_of hs.
Proof. done. Qed.
Lemma pooled_cons name h hs :
  pooled name (h :: hs)
  = mjoin (snd <$> filter (λ p, p.1 = name) h) ++ pooled name hs.
Proof. done. Qed.
Lemma pooled_absent name hs : name ∉ names_of hs → pooled name hs = [].
Proof.
  induction hs as [|h hs IH]; [done|].
  rewrite names_of_cons, pooled_cons, not_elem_of_app. intros [Hh Hhs].
  rewrite (filter_name_nil _ _ Hh). simpl. by apply IH.
Qed.

Lemma collect_get name acc hs :
  od_get name (foldl (foldl add_scores) acc hs)
  = if decide (name ∈ names_of hs)
    then Some (default [] (od_get name acc) ++ pooled name hs)
    else od_get name acc.
Proof.
  revert acc. induction hs as [|h hs IH]; intros acc.
  - destruct (decide (name ∈ names_of [])) as [Hin|]; [|done].
    by apply elem_of_nil in Hin.
  - cbn [foldl]. rewrite IH, foldl_add_scores_get, names_of_cons, pooled_cons.
    destruct (decide (name ∈ h.*1)) as [Hh|Hh];
      destruct (decide (name ∈ names_of hs)) as [Hhs|Hhs].
    + rewrite decide_True by (apply elem_of_app; by left).
      unfold default. simpl. by rewrite <- app_assoc.
    + rewrite decide_True by (apply elem_of_app; by left).
      by rewrite (pooled_absent _ _ Hhs), app_nil_r.
    + rewrite decide_True by (apply elem_of_app; by right).
      by rewrite (filter_name_nil _ _ Hh).
    + rewrite decide_False; [done|]. rewrite not_elem_of_app. by split.
Qed.

Lemma collect_get_nil name hs :
  od_get name (foldl (foldl add_scores) [] hs)
  = if decide (name ∈ names_of hs) then Some (pooled name hs) else None.
Proof. rewrite collect_get. by case_decide. Qed.

#[local] Instance ret_key_inj : Inj (=) (=) ret_key.
Proof. intros x y Hxy. by apply (inj (String.append _)) in Hxy. Qed.
#[local] Instance suc_key_inj : Inj (=) (=) suc_key.
Proof. intros x y Hxy. by apply (inj (String.append _)) in Hxy. Qed.

Lemma ret_key_not_suc_key n n' : ret_key n ≠ suc_key n'.
Proof. unfold ret_key, suc_key. simpl. discriminate. Qed.
Lemma ret_key_not_overall n : ret_key n ≠ overall_key.
Proof. unfold ret_key, overall_key. simpl. discriminate. Qed.
Lemma suc_key_not_overall n : suc_key n ≠ overall_key.
Proof. unfold suc_key, overall_key. simpl. discriminate. Qed.

Lemma keys_fmap_inj {V W} (f : string → string) `{!Inj (=) (=) f} (g : V → W)
  (d : list (string * V)) :
  NoDup d.*1 → NoDup ((λ p, (f p.1, g p.2)) <$> d).*1.
Proof.
  intros Hnd. rewrite <- list_fmap_compose.
  assert ((fst ∘ (λ p : string * V, (f p.1, g p.2))) = f ∘ fst) as -> by done.
  rewrite list_fmap_compose. by apply NoDup_fmap_2.
Qed.

Lemma od_get_fmap_other {V W} (f : string → string) (g : V → W) k d :
  (∀ n, f n ≠ k) → od_get k ((λ p, (f p.1, g p.2)) <$> d) = None.
Proof.
  intros Hk. induction d as [|[k0 v0] d IH]; simpl; [done|].
  rewrite decide_False by apply Hk. done.
Qed.

Lemma keys_fmap_elem {V W} (f : string → string) (g : V → W) k
  (d : list (string * V)) :
  k ∈ ((λ p, (f p.1, g p.2)) <$> d).*1 → ∃ n, k = f n.
Proof.
  intros ([k' w] & -> & ([n v] & Heq & _)%list_elem_of_fmap)%list_elem_of_fmap.
  simpl in *. exists n. congruence.
Qed.

Lemma od_union_NoDup {V} (a b : list (string * V)) :
  NoDup a.*1 → NoDup (od_union a b).*1.
Proof.
  unfold od_union. revert a. induction b as [|[k v] b IH]; intros a Ha; [done|].
  simpl. apply IH. by apply od_set_NoDup.
Qed.

Lemma od_get_Some_elem {V} k (v : V) d : od_get k d = Some v → (k, v) ∈ d.
Proof.
  induction d as [|[k' v'] d IH]; simpl; [done|].
  destruct (decide (k' = k)) as [->|Hne].
  - intros [= ->]. by left.
  - intros Hd. right. by apply IH.
Qed.

Lemma policy_metrics_NoDup returns successes :
  NoDup (policy_metrics returns successes).*1.
Proof.
  unfold policy_metrics. destruct (by_env_name returns successes) as [rb sb].
  do 3 apply od_union_NoDup. constructor.
Qed.

(** The two pooled dicts and the metrics as an explicit list. *)
Lemma policy_metrics_eq (returns successes : list (list (string * list Qc))) :
  let rb := foldl (foldl add_scores) [] (take (length successes) returns) in
  let sb := foldl (foldl add_scores) [] (take (length returns) successes) in
  by_env_name returns successes = (rb, sb)
  ∧ policy_metrics returns successes
    = ((λ p, (ret_key p.1, np_mean p.2)) <$> rb)
      ++ ((λ p, (suc_key p.1, np_mean p.2)) <$> sb)
      ++ [(overall_key, np_mean_nan ((λ p, np_mean p.2) <$> rb))].
Proof.
  intros rb sb.
  pose proof (by_env_name_fold returns successes ([], [])) as Hfold.
  simpl in Hfold. fold rb sb in Hfold.
  assert (Hby : by_env_name returns successes = (rb, sb)) by exact Hfold.
  assert (Hrb : NoDup rb.*1) by (apply collect_NoDup; constructor).
  assert (Hsb : NoDup sb.*1) by (apply collect_NoDup; constructor).
  split; [done|].
  unfold policy_metrics. rewrite Hby.
  assert (Hkr : NoDup ((λ p : string * list Qc, (ret_key p.1, np_mean p.2)) <$> rb).*1)
    by (by apply (keys_fmap_inj ret_key)).
  assert (Hks : NoDup ((λ p : string * list Qc, (suc_key p.1, np_mean p.2)) <$> sb).*1)
    by (by apply (keys_fmap_inj suc_key)).
  rewrite (od_of_list_NoDup _ Hkr), (od_of_list_NoDup _ Hks).
  rewrite (od_of_list_NoDup [_]) by apply NoDup_singleton.
  rewrite (od_union_disjoint _ _ Hks).
  2:{ intros k [n ->]%keys_fmap_elem [n' Hn]%keys_fmap_elem.
      symmetry in Hn. by apply ret_key_not_suc_key in Hn. }
  rewrite od_union_disjoint; [|apply NoDup_singleton|].
  - rewrite <- app_assoc. do 3 f_equal.
    rewrite <- list_fmap_compose. done.
  - intros k ->%list_elem_of_singleton.
    rewrite fmap_app, not_elem_of_app. split.
    + intros [n Hn]%keys_fmap_elem. symmetry in Hn.
      by apply ret_key_not_overall in Hn.
    + intros [n Hn]%keys_fmap_elem. symmetry in Hn.
      by apply suc_key_not_overall in Hn.
Qed.

Lemma policy_metrics_get_ret returns successes name :
  let rs := take (length successes) returns in
  od_get (ret_key name) (policy_metrics returns successes)
  = if decide (name ∈ names_of rs) then Some (np_mean (pooled name rs)) else None.
Proof.
  intros rs. rewrite (proj2 (policy_metrics_eq returns successes)).
  rewrite od_get_app, (od_get_fmap_inj ret_key). fold rs. rewrite collect_get_nil.
  destruct (decide (name ∈ names_of rs)); [done|]. cbn [fmap option_fmap option_map].
  rewrite od_get_app, od_get_fmap_other
    by (intros n0 Hn; symmetry in Hn; by eapply ret_key_not_suc_key).
  cbn [od_get]. rewrite decide_False; [done|].
  intros Hn. symmetry in Hn. by apply ret_key_not_overall in Hn.
Qed.

Lemma policy_metrics_get_suc returns successes name :
  let ss := take (length returns) successes in
  od_get (suc_key name) (policy_metrics returns successes)
  = if decide (name ∈ names_of ss) then Some (np_mean (pooled name ss)) else None.
Proof.
  intros ss. rewrite (proj2 (policy_metrics_eq returns successes)).
  rewrite od_get_app, od_get_fmap_other
    by (intros n0 Hn; by eapply ret_key_not_suc_key).
  rewrite od_get_app, (od_get_fmap_inj suc_key). fold ss. rewrite collect_get_nil.
  destruct (decide (name ∈ names_of ss)); [done|]. cbn [fmap option_fmap option_map].
  cbn [od_get]. rewrite decide_False; [done|].
  intros Hn. symmetry in Hn. by apply suc_key_not_overall in Hn.
Qed.

Lemma policy_metrics_get_overall returns successes :
  od_get overall_key (policy_metrics returns successes)
  = Some (np_mean_nan
            ((λ p, np_mean p.2)
               <$> foldl (foldl add_scores) [] (take (length successes) returns))).
Proof.
  rewrite (proj2 (policy_metrics_eq returns successes)).
  rewrite od_get_app, od_get_fmap_other
    by (intros n0 Hn; by eapply ret_key_not_overall).
  rewrite od_get_app, od_get_fmap_other
    by (intros n0 Hn; by eapply suc_key_not_overall).
  cbn [od_get]. by rewrite decide_True.
Qed.

(** [policy_metrics] pools the scores by environment name before it
    averages.  With [rs] and [ss] the histories that [zip] pairs up (the
    longer list is cut to the length of the shorter), the metrics hold,
    for every name some history of [rs] files scores under, the mean of
    all the returns filed under that name, in the order of the
    histories; the same for the success rates over [ss]; and last the
    overall return, which is the mean of the per-name means (not of the
    pooled scores) and is NaN as soon as one per-name mean is NaN or no
    name was seen.  The keys come in this order: returns by first
    appearance of the name, successes, overall.  A name no history
    files has no entry. *)
Theorem policy_metrics_spec (returns successes : list (list (string * list Qc))) :
  let rs := take (length successes) returns in
  let ss := take (length returns) successes in
  ∃ rb sb,
    by_env_name returns successes = (rb, sb)
    ∧ (∀ name, od_get name rb
               = if decide (name ∈ names_of rs) then Some (pooled name rs) else None)
    ∧ (∀ name, od_get name sb
               = if decide (name ∈ names_of ss) then Some (pooled name ss) else None)
    ∧ policy_metrics returns successes
      = ((λ p, (ret_key p.1, np_mean p.2)) <$> rb)
        ++ ((λ p, (suc_key p.1, np_mean p.2)) <$> sb)
        ++ [(overall_key, np_mean_nan ((λ p, np_mean p.2) <$> rb))]
    ∧ (∀ name, od_get (ret_key name) (policy_metrics returns successes)
               = if decide (name ∈ names_of rs)
                 then Some (np_mean (pooled name rs)) else None)
    ∧ (∀ name, od_get (suc_key name) (policy_metrics returns successes)
               = if decide (name ∈ names_of ss)
                 then Some (np_mean (pooled name ss)) else None)
    ∧ od_get overall_key (policy_metrics returns successes)
      = Some (np_mean_nan ((λ p, np_mean p.2) <$> rb)).
Proof.
  intros rs ss.
  destruct (policy_metrics_eq returns successes) as [Hby Hpm].
  fold rs ss in Hby, Hpm.
  eexists _, _. split; [exact Hby|].
  split; [|split; [|split; [exact Hpm|split; [|split]]]].
  - intros name. apply collect_get_nil.
  - intros name. apply collect_get_nil.
  - intros name. apply policy_metrics_get_ret.
  - intros name. apply policy_metrics_get_suc.
  - apply policy_metrics_get_overall.
Qed.

(** ** Logging ([Experiment.log]) *)

#[local] Instance log_key_inj key : Inj (=) (=) (log_key key).
Proof.
  intros x y Hxy. unfold log_key in Hxy.
  apply (inj (String.append key)) in Hxy. by apply (inj (String.append "/")) in Hxy.
Qed.

Lemma log_key_not_total_frames key subkey : log_key key subkey ≠ "total_frames".
Proof.
  unfold log_key. intros Heq.
  do 12 (destruct key as [|? key]; simpl in Heq; [discriminate Heq|];
         injection Heq as _ Heq).
  by destruct key.
Qed.

Lemma py_dict_lookup_NoDup {V} (l : list (string * V)) k v :
  NoDup l.*1 → py_dict l !! k = Some v ↔ (k, v) ∈ l.
Proof.
  intros Hnd. unfold py_dict. rewrite <- elem_of_list_to_map.
  - by rewrite elem_of_reverse.
  - by rewrite fmap_reverse, reverse_Permutation.
Qed.

Lemma prefixed_lookup {V} key (d : gmap string V) sub :
  py_dict ((λ p, (log_key key p.1, p.2)) <$> map_to_list d) !! log_key key sub
  = d !! sub.
Proof.
  assert (Hnd : NoDup ((λ p : string * V, (log_key key p.1, p.2)) <$> map_to_list d).*1).
  { rewrite <- list_fmap_compose.
    assert ((fst ∘ (λ p : string * V, (log_key key p.1, p.2))) = log_key key ∘ fst)
      as -> by done.
    rewrite list_fmap_compose. apply NoDup_fmap_2; [apply _|].
    apply NoDup_fst_map_to_list. }
  apply option_eq. intros v. rewrite (py_dict_lookup_NoDup _ _ _ Hnd).
  rewrite list_elem_of_fmap. rewrite <- elem_of_map_to_list. split.
  - intros ([k' v'] & Heq & Hin). simpl in Heq. injection Heq as Hk ->.
    apply (inj (log_key key)) in Hk. by subst.
  - intros Hin. by exists (sub, v).
Qed.

Lemma prefixed_lookup_inv {V} key (d : gmap string V) k v :
  py_dict ((λ p, (log_key key p.1, p.2)) <$> map_to_list d) !! k = Some v →
  ∃ sub, k = log_key key sub ∧ d !! sub = Some v.
Proof.
  intros Hk. destruct (py_dict _ !! k) eqn:E; [|done]. injection Hk as ->.
  unfold py_dict in E. apply elem_of_list_to_map_2 in E.
  rewrite elem_of_reverse, list_elem_of_fmap in E.
  destruct E as ([sub v'] & Heq & Hin). simpl in Heq. injection Heq as -> ->.
  exists sub. split; [done|]. by apply elem_of_map_to_list.
Qed.

Lemma Experiment_log_total {V} (frames : list Z)
  (metrics_dict : gmap string (metric V)) (key : string) out :
  Experiment_log true frames metrics_dict key = Some out →
  out !! "total_frames" = Some (LTotalFrames (foldr Z.add 0%Z frames)).
Proof.
  intros [= <-]. unfold py_union. rewrite lookup_union_l'.
  - unfold py_dict. simpl. apply lookup_insert_eq.
  - unfold py_dict. simpl. rewrite lookup_insert_eq. by eexists.
Qed.

Lemma total_frames_only {W} (x : W) k :
  k ≠ "total_frames" → py_dict [("total_frames", x)] !! k = None.
Proof.
  intros Hk. unfold py_dict. simpl. rewrite lookup_insert_ne by done.
  apply lookup_empty.
Qed.

Lemma Experiment_log_sub {V} (frames : list Z)
  (metrics_dict : gmap string (metric V)) (key : string) out sub :
  Experiment_log true frames metrics_dict key = Some out →
  out !! log_key key sub = metrics_dict !! sub ≫= log_entry.
Proof.
  intros [= <-].
  rewrite py_union_lookup_l
    by (apply total_frames_only, log_key_not_total_frames).
  rewrite prefixed_lookup. unfold log_dict_of. by rewrite lookup_omap.
Qed.

Lemma Experiment_log_inv {V} (frames : list Z)
  (metrics_dict : gmap string (metric V)) (key : string) out k v :
  Experiment_log true frames metrics_dict key = Some out →
  out !! k = Some v →
  k = "total_frames"
  ∨ ∃ sub m, k = log_key key sub ∧ metrics_dict !! sub = Some m
           ∧ log_entry m = Some v.
Proof.
  intros [= <-] Hk. destruct (decide (k = "total_frames")) as [->|Hne]; [by left|].
  right. rewrite py_union_lookup_l in Hk by (by apply total_frames_only).
  apply prefixed_lookup_inv in Hk as (sub & -> & Hsubv).
  unfold log_dict_of in Hsubv. rewrite lookup_omap in Hsubv.
  destruct (metrics_dict !! sub) as [m|] eqn:Hm; [|done].
  by exists sub, m.
Qed.

Lemma Experiment_log_on {V} (frames : list Z)
  (metrics_dict : gmap string (metric V)) (key : string) :
  ∃ out, Experiment_log true frames metrics_dict key = Some out.
Proof. eexists. reflexivity. Qed.

(** [Experiment.log] sends nothing when [log_to_wandb] is off.  When it
    is on, [accelerator.log] receives one dict which holds
    ["total_frames"], the sum of the frame counts of the training
    environments, and under ["<key>/<subkey>"] every metric that is not
    a tensor with axes: a tensor without axes as the number it holds,
    any other value as it is.  A tensor with one axis or more is left
    out, no metric can take the place of ["total_frames"], and the dict
    holds nothing else. *)
Theorem Experiment_log_spec {V} (frames : list Z)
  (metrics_dict : gmap string (metric V)) (key : string) :
  Experiment_log false frames metrics_dict key = None
  ∧ ∃ out, Experiment_log true frames metrics_dict key = Some out
    ∧ out !! "total_frames" = Some (LTotalFrames (foldr Z.add 0%Z frames))
    ∧ (∀ sub, out !! log_key key sub = metrics_dict !! sub ≫= log_entry)
    ∧ (∀ sub n x, metrics_dict !! sub = Some (MTensor (S n) x) →
         out !! log_key key sub = None)
    ∧ (∀ k v, out !! k = Some v →
         k = "total_frames"
         ∨ ∃ sub m, k = log_key key sub ∧ metrics_dict !! sub = Some m
                  ∧ log_entry m = Some v).
Proof.
  split; [done|].
  destruct (Experiment_log_on frames metrics_dict key) as [out Hout].
  exists out. split; [exact Hout|].
  split; [|split; [|split]].
  - exact (Experiment_log_total _ _ _ _ Hout).
  - intros sub. exact (Experiment_log_sub _ _ _ _ sub Hout).
  - intros sub n x Hm. rewrite (Experiment_log_sub _ _ _ _ sub Hout). by rewrite Hm.
  - intros k v. exact (Experiment_log_inv _ _ _ _ k v Hout).
Qed.

Section log_loss.
Context `{Backend}.

(** What [train_step] and [val_step] hand to [log], the mapping of
    [compute_loss], is logged as follows: the state mask, a tensor with
    three axes, is never logged; the actor loss is logged as a number;
    the critic loss is logged as a number when the critic block of the
    forward pass runs, and as the plain float [0.0] when it does not. *)
Theorem log_of_compute_loss (stat_metric : Stat → metric value) (a : agent)
  (pa : PopArt) (bt : batch) (rnd : draws) (log_step : bool)
  (l : gmap string value) (pa' : PopArt) (frames : list Z) (key : string) :
  compute_loss a pa bt rnd log_step = Ok (l, pa') →
  (∀ k, reserved k →
     tstep_encoder_log (tstep_encoder (nets a)) (obs bt) (goals bt) (rl2s bt)
       !! k = None) →
  ∃ out,
    Experiment_log true frames (metric_of_value stat_metric <$> l) key = Some out
    ∧ out !! log_key key "mask" = None
    ∧ (∃ x, out !! log_key key "actor_loss" = Some (LItem x))
    ∧ (if critic_block_runs a
       then ∃ x, out !! log_key key "critic_loss" = Some (LItem x)
       else out !! log_key key "critic_loss" = Some (LValue (VFloat 0))).
Proof.
  intros Hl Henc.
  assert (Hmap : loss_mapping a (rl2s bt) l).
  { unfold compute_loss in Hl.
    apply result_bind_Ok in Hl as ([[[cl al] pa2] info] & Hf & Hl).
    apply result_bind_Ok in Hl as (l0 & Hl0 & Hl). injection Hl as -> ->.
    destruct (Agent_forward_Ok _ _ _ _ _ _ _ _ _ Hf) as [Hcl Hinfo].
    eapply compute_loss_of_mapping; [exact Hcl | exact (Hinfo Henc) | by left]. }
  destruct Hmap as (Hmask & [x Hal] & Hc0 & Hcs & _).
  destruct (Experiment_log_on frames (metric_of_value stat_metric <$> l) key)
    as [out Hout].
  exists out. split; [exact Hout|].
  rewrite !(Experiment_log_sub _ _ _ _ _ Hout).
  rewrite !lookup_fmap, Hmask, Hal. simpl.
  split; [done|]. split; [by exists x|].
  unfold critic_block_runs, online_on, Qcgtb.
  destruct (fake_filter a) eqn:Hff; simpl.
  - case_bool_decide as Hon.
    + destruct (proj2 Hcs) as [y Hy]; [by intros [_ ?]|].
      rewrite Hy. simpl. by exists y.
    + rewrite (proj2 Hc0) by done. done.
  - destruct (proj2 Hcs) as [y Hy]; [by intros [? _]|].
    rewrite Hy. simpl. by exists y.
Qed.

End log_loss.

Lemma log_of_compute_loss_witness :
  ∃ out,
    Experiment_log true [120%Z; 80%Z]
      (@metric_of_value demo_backend (λ _, MTensor 0 None) <$> demo_loss_dict)
      "train-update" = Some out
    ∧ out !! "train-update/mask" = None
    ∧ (∃ x, out !! "train-update/actor_loss" = Some (LItem x))
    ∧ out !! "train-update/critic_loss" = Some (LValue (@VFloat demo_backend 0)).
Proof.
  destruct (@log_of_compute_loss demo_backend (λ _, MTensor 0 None)
              (demo_agent 0 true true) tt demo_batch demo_draws false
              demo_loss_dict tt [120%Z; 80%Z] "train-update" demo_compute_loss)
    as (out & Hout & Hm & Ha & Hc).
  - intros k _. apply lookup_empty.
  - exists out. split; [exact Hout|]. split; [exact Hm|]. split; [exact Ha|].
    exact Hc.
Defined.

(** ** Logging the evaluation metrics ([evaluate_val]) *)

Lemma py_dict_od_get {V} (l : list (string * V)) k :
  NoDup l.*1 → py_dict l !! k = od_get k l.
Proof.
  intros Hnd. destruct (od_get k l) as [v|] eqn:Hg.
  - apply py_dict_lookup_NoDup; [done|]. by apply od_get_Some_elem.
  - apply py_dict_lookup_None. by apply od_get_None.
Qed.

(** [evaluate_val] never fails on the lookup of the overall return: the
    key is always among the metrics.  With no validation timesteps, or
    with [log_to_wandb] off, nothing is logged.  Otherwise the dict that
    is logged holds, under ["val/Average Total Return in <name>"], the
    mean of all the returns that the histories paired up by [zip] file
    under the name, for every name they file; the overall return under
    its own key; and the frame count. *)
Theorem evaluate_val_logs_means (val_timesteps_per_epoch : Z) (frames : list Z)
  (returns successes : list (list (string * list Qc))) :
  let rs := take (length successes) returns in
  ((val_timesteps_per_epoch ≤ 0)%Z →
   ∀ w, evaluate_val val_timesteps_per_epoch w frames returns successes
        = inr None)
  ∧ evaluate_val val_timesteps_per_epoch false frames returns successes
    = inr None
  ∧ ((0 < val_timesteps_per_epoch)%Z →
     ∃ out,
       evaluate_val val_timesteps_per_epoch true frames returns successes
       = inr (Some out)
       ∧ (∀ name, out !! log_key "val" (ret_key name)
                  = if decide (name ∈ names_of rs)
                    then Some (LValue (np_mean (pooled name rs))) else None)
       ∧ (∃ x, out !! log_key "val" overall_key = Some (LValue x))
       ∧ out !! "total_frames" = Some (LTotalFrames (foldr Z.add 0%Z frames))).
Proof.
  intros rs. unfold evaluate_val.
  rewrite policy_metrics_get_overall. split; [|split].
  - intros Hv w. by rewrite bool_decide_eq_false_2 by lia.
  - by case_bool_decide.
  - intros Hv. rewrite bool_decide_eq_true_2 by done.
    destruct (Experiment_log_on frames
                (MValue <$> py_dict (policy_metrics returns successes)) "val")
      as [out Hout].
    exists out. split; [by rewrite Hout|].
    pose proof (policy_metrics_NoDup returns successes) as Hnd.
    split; [|split].
    + intros name. rewrite (Experiment_log_sub _ _ _ _ _ Hout).
      rewrite lookup_fmap, (py_dict_od_get _ _ Hnd), policy_metrics_get_ret.
      fold rs. by case_decide.
    + rewrite (Experiment_log_sub _ _ _ _ _ Hout).
      rewrite lookup_fmap, (py_dict_od_get _ _ Hnd), policy_metrics_get_overall.
      by eexists.
    + exact (Experiment_log_total _ _ _ _ Hout).
Qed.

(** ** The summary and the checkpoint files *)

(** [summary] always binds [mode] before it prints it: once the
    assertion [traj_save_len >= max_seq_len] has passed, one of the three
    branches is taken, so the fourth case, in which the name would be
    unbound, cannot arise.  The mode is "Maximum Context" exactly when
    the horizon fits the sequence length, otherwise "Valid Relabeling"
    when it fits the saved trajectory length and "Invalid Relabeling"
    when it does not.  A failed assertion is the only error. *)
Theorem summary_mode_total (named_parameters : list (bool * nat))
  (horizon max_seq_len traj_save_len : Z) :
  summary named_parameters horizon max_seq_len traj_save_len ≠ Raise NameError
  ∧ ((traj_save_len < max_seq_len)%Z →
     summary named_parameters horizon max_seq_len traj_save_len
     = Raise AssertionError)
  ∧ ((max_seq_len ≤ traj_save_len)%Z →
     ∃ total,
       summary named_parameters horizon max_seq_len traj_save_len
       = Ok (total,
             if bool_decide (horizon ≤ max_seq_len)%Z then mode_maximum_context
             else if bool_decide (horizon ≤ traj_save_len)%Z
                  then mode_valid_relabeling
                  else mode_invalid_relabeling)).
Proof.
  unfold summary. split; [|split].
  - repeat case_bool_decide; simpl; try discriminate; intros _; lia.
  - intros Hlt.
    rewrite (bool_decide_eq_false_2 (max_seq_len ≤ traj_save_len)%Z) by lia. done.
  - intros Hle.
    rewrite (bool_decide_eq_true_2 (max_seq_len ≤ traj_save_len)%Z) by lia. simpl.
    eexists. repeat case_bool_decide; simpl; try reflexivity; exfalso; lia.
Qed.

Lemma starts_with_sep_app r s :
  r ≠ "" → starts_with_sep (r +:+ s) = starts_with_sep r.
Proof. by destruct r. Qed.

Lemma path_join1_inj dir r s1 s2 :
  starts_with_sep s1 = false → starts_with_sep s2 = false →
  path_join1 dir (r +:+ s1) = path_join1 dir (r +:+ s2) → s1 = s2.
Proof.
  intros H1 H2. unfold path_join1.
  assert (starts_with_sep (r +:+ s1) = starts_with_sep (r +:+ s2)) as Hst.
  { destruct r as [|c r]; [|done].
    change (starts_with_sep s1 = starts_with_sep s2). by rewrite H1, H2. }
  rewrite Hst. destruct (starts_with_sep (r +:+ s2)).
  - intros Heq. by apply (inj (String.append r)) in Heq.
  - destruct (bool_decide (dir = "") || ends_with_sep dir); intros Heq.
    + apply (inj (String.append dir)) in Heq.
      by apply (inj (String.append r)) in Heq.
    + apply (inj (String.append dir)) in Heq.
      apply (inj (String.append "/")) in Heq.
      by apply (inj (String.append r)) in Heq.
Qed.

Lemma starts_with_sep_suffix r s :
  starts_with_sep s = false → starts_with_sep (r +:+ s) = starts_with_sep r.
Proof. intros Hs. destruct r; [exact Hs | done]. Qed.

(** Saving and loading agree on the file.  [load_checkpoint] with an
    epoch reads the path that [save_checkpoint] writes at that epoch,
    and sets [self.epoch] to it; without an epoch it reads the path of
    the LATEST checkpoint and leaves [self.epoch] alone.  Both start
    with [breakpoint()], whatever [loading_latest] is: the argument is
    never read.  The epoch files of different epochs differ, and none
    of them is the LATEST file.  A run name that starts with a
    separator makes [os.path.join] drop the checkpoint directory. *)
Theorem checkpoint_round_trip (st : ckpt_state) (e e' : Z) (flag : bool) :
  let at_epoch e := {| run_name := run_name st; ckpt_dir := ckpt_dir st; epoch := e |} in
  ∃ path_e path_latest,
    save_checkpoint (at_epoch e) false = [EvSaveState path_e]
    ∧ save_checkpoint (at_epoch e) true = [EvSaveState path_latest]
    ∧ load_checkpoint st (Some e) flag
      = (at_epoch e, [EvBreakpoint; EvLoadState path_e])
    ∧ load_checkpoint st None flag = (st, [EvBreakpoint; EvLoadState path_latest])
    ∧ path_e ≠ path_latest
    ∧ (save_checkpoint (at_epoch e') false = [EvSaveState path_e] → e' = e)
    ∧ (if starts_with_sep (run_name st)
       then path_latest = run_name st +:+ "_LATEST"
       else ∃ sep, (sep = "" ∨ sep = "/")
              ∧ path_latest = ckpt_dir st +:+ sep +:+ run_name st +:+ "_LATEST").
Proof.
  intros at_epoch. eexists _, _.
  split; [reflexivity|]. split; [reflexivity|].
  split; [reflexivity|]. split; [reflexivity|].
  unfold save_checkpoint, os_path_join. cbn [foldl at_epoch run_name ckpt_dir epoch].
  split; [|split].
  - intros Heq. apply path_join1_inj in Heq; [|done..].
    simpl in Heq. discriminate Heq.
  - intros [= Heq]. apply path_join1_inj in Heq; [|done..].
    apply (inj (String.append "_epoch_")) in Heq. by apply (inj pretty) in Heq.
  - unfold path_join1. rewrite starts_with_sep_suffix by done.
    destruct (starts_with_sep (run_name st)); [done|].
    destruct (bool_decide (ckpt_dir st = "") || ends_with_sep (ckpt_dir st)).
    + exists "". split; [by left|done].
    + exists "/". split; [by right|done].
Qed.

(** ** Timestep encoders *)

Lemma map3_zero_same_shape (x y : T3) :
  same_shape3 x y → map3 (λ v, v * 0) x = map3 (λ v, v * 0) y.
Proof.
  unfold same_shape3, map3, map2. intros Hxy.
  induction Hxy as [|a b x y Hab _ IH]; [done|]. simpl. f_equal; [|exact IH].
  clear IH. induction Hab as [|u v a b Huv _ IH]; [done|]. simpl. f_equal; [|exact IH].
  clear IH. revert v Huv. induction u as [|p u IH]; intros [|q v] Huv; try done.
  simpl. f_equal; [by rewrite !Qcmult_0_r|]. apply IH. simpl in Huv. lia.
Qed.

Section tstep_props.
Context {Goals NormStats LogDict : Type}.

(** With [hide_rl2s] set, the feed-forward encoder reads nothing of
    [rl2s] but its shape: two rl2 tensors of one shape give the same
    result, embedding and input statistics alike, in training mode too
    (the statistics are updated with the zeroed values).  An
    observation dict without the key ["observation"] is a [KeyError],
    hidden or not. *)
Theorem FF_hide_rl2s (goal_emb : Goals → T3) (in_norm : NormStats → T3 → T3)
  (update_stats : NormStats → T3 → NormStats) (base out_norm : T3 → T3)
  (training : bool) (stats : NormStats) (obs : gmap string T3) (goals : Goals)
  (rl2s rl2s' : T3) :
  same_shape3 rl2s rl2s' →
  FF_forward goal_emb in_norm update_stats base out_norm training true stats
    obs goals rl2s
  = FF_forward goal_emb in_norm update_stats base out_norm training true stats
      obs goals rl2s'
  ∧ (obs !! "observation" = None →
     ∀ hide, FF_forward goal_emb in_norm update_stats base out_norm training
               hide stats obs goals rl2s = inl EncKeyError).
Proof.
  intros Hsh. unfold FF_forward, FF_inner_forward. split.
  - by rewrite (map3_zero_same_shape _ _ Hsh).
  - by intros ->.
Qed.

(** The CNN encoder with [hide_rl2s] set zeroes the rl2 features only
    after they were normalized, and after the statistics were updated:
    two rl2 tensors whose normalized forms have one shape give the same
    embedding and the same activation log, and in evaluation mode the
    same result altogether, while in training mode the statistics are
    still updated with the rl2 values that are hidden from the
    embedding. *)
Theorem CNN_hide_rl2s
  (update_stats : NormStats → T3 → NormStats) (out_norm cnn data_aug
  img_features rl2_features merge : T3 → T3) (rl2_norm : NormStats → T3 → T3)
  (symlog : T3 → T3)
  (add_activation_log : string → T3 → option LogDict → option LogDict)
  (training : bool) (stats : NormStats) (obs : gmap string T3)
  (goal_rep rl2s rl2s' : T3) (log_dict : option LogDict) :
  same_shape3 (rl2_norm stats (symlog rl2s)) (rl2_norm stats (symlog rl2s')) →
  let run := CNN_inner_forward update_stats out_norm cnn data_aug img_features
               rl2_features merge rl2_norm symlog add_activation_log
               training true stats obs goal_rep in
  match run rl2s log_dict, run rl2s' log_dict with
  | inr (emb, st, lg), inr (emb', st', lg') =>
      emb = emb' ∧ lg = lg'
      ∧ st = (if training then update_stats stats (symlog rl2s) else stats)
      ∧ st' = (if training then update_stats stats (symlog rl2s') else stats)
  | inl e, inl e' => e = e'
  | _, _ => False
  end.
Proof.
  intros Hsh. cbn zeta. unfold CNN_inner_forward.
  destruct (obs !! "observation") as [img|]; [|done].
  rewrite (map3_zero_same_shape _ _ Hsh).
  destruct (cat_last _ goal_rep ≫= _); done.
Qed.

End tstep_props.

Lemma CNN_hide_rl2s_witness :
  same_shape3 [[[qz 2; qz 3]]] [[[qz 5; qz 7]]]
  ∧ match
      CNN_inner_forward (NormStats:=T3) (LogDict:=unit) (λ _ x, x) id id id id
        id id (λ _ x, x) id (λ _ _ l, l) true true [] {[ "observation" := [[[qz 4]]] ]}
        [[[1]]] [[[qz 2; qz 3]]] None,
      CNN_inner_forward (NormStats:=T3) (LogDict:=unit) (λ _ x, x) id id id id
        id id (λ _ x, x) id (λ _ _ l, l) true true [] {[ "observation" := [[[qz 4]]] ]}
        [[[1]]] [[[qz 5; qz 7]]] None
    with
    | inr (emb, st, lg), inr (emb', st', lg') =>
        emb = emb' ∧ lg = lg' ∧ st = [[[qz 2; qz 3]]] ∧ st' = [[[qz 5; qz 7]]]
    | inl e, inl e' => e = e'
    | _, _ => False
    end.
Proof.
  assert (Hsh : same_shape3 [[[qz 2; qz 3]]] [[[qz 5; qz 7]]])
    by (repeat constructor).
  split; [exact Hsh|].
  exact (CNN_hide_rl2s (NormStats:=T3) (LogDict:=unit) (λ _ x, x)
           id id id id id id (λ _ x, x) id (λ _ _ l, l) true []
           {[ "observation" := [[[qz 4]]] ]} [[[1]]]
           [[[qz 2; qz 3]]] [[[qz 5; qz 7]]] None Hsh).
Defined.

Lemma FF_hide_rl2s_witness :
  same_shape3 [[[qz 2; qz 3]]] [[[qz 5; qz 7]]]
  ∧ FF_forward (Goals:=unit) (NormStats:=unit)
      (λ _, [[[1]]]) (λ _ x, x) (λ s _, s) id id true true tt
      {[ "observation" := [[[qz 4]]] ]} tt [[[qz 2; qz 3]]]
    = FF_forward (Goals:=unit) (NormStats:=unit)
        (λ _, [[[1]]]) (λ _ x, x) (λ s _, s) id id true true tt
        {[ "observation" := [[[qz 4]]] ]} tt [[[qz 5; qz 7]]].
Proof.
  assert (Hsh : same_shape3 [[[qz 2; qz 3]]] [[[qz 5; qz 7]]])
    by (repeat constructor).
  split; [exact Hsh|].
  refine (proj1 (FF_hide_rl2s _ _ _ _ _ _ _ _ _ _ _ Hsh)).
Defined.

Lemma Qceiling_quarter (B : Z) : Qceiling (inject_Z B * (1 # 4)) = ((B + 3) / 4)%Z.
Proof.
  unfold Qceiling, Qfloor. simpl. change (Z.pos (1 * 4)) with 4%Z.
  rewrite Z.mul_1_r. Z.div_mod_to_equations. lia.
Qed.

(** In training mode the CNN encoder leaves the first [og_split] images
    of the batch as they are and augments the others.  For a batch of
    two or more, [og_split] is a quarter of the batch rounded up, at
    least one and at most the batch but one, so at least one image is
    always augmented; a batch of one, or none, is augmented as a whole.
    With the identity as augmentation the images are unchanged. *)
Theorem og_split_spec (B : Z) :
  ((B ≤ 1 → og_split B = 0)
   ∧ (2 ≤ B →
      1 ≤ og_split B ≤ B - 1
      ∧ B ≤ 4 * og_split B < B + 4))%Z
  ∧ ∀ (data_aug : T3 → T3) (img : T3),
      (∃ kept, split_augment data_aug img
               = kept ++ data_aug (drop (length kept) img)
             ∧ kept = take (length kept) img
             ∧ Z.of_nat (length kept) = og_split (Z.of_nat (length img)))
      ∧ ((∀ x, data_aug x = x) → split_augment data_aug img = img).
Proof.
  assert (Hq : ∀ b, og_split b = Z.max (Z.min ((b + 3) / 4) (b - 1)) 0).
  { intros b. unfold og_split. by rewrite Qceiling_quarter. }
  split.
  - rewrite Hq. split; intros HB; Z.div_mod_to_equations; lia.
  - intros data_aug img. unfold split_augment.
    set (og := Z.to_nat (og_split (Z.of_nat (length img)))).
    assert (Hog : (og ≤ length img)%nat).
    { unfold og. rewrite Hq. Z.div_mod_to_equations. lia. }
    split.
    + exists (take og img).
      rewrite length_take, Nat.min_l by done.
      split; [done|]. split; [done|].
      unfold og. rewrite Z2Nat.id; [done|]. rewrite Hq. lia.
    + intros Hid. by rewrite Hid, take_drop.
Qed.

(** ** The rl2 array of a rollout timestep *)

Lemma qz_inj x y : qz x = qz y → x = y.
Proof.
  unfold qz, Qc_of_Z. intros Heq. apply (f_equal this) in Heq. simpl in Heq.
  rewrite !Qred_correct in Heq || idtac.
  injection Heq. lia.
Qed.

Lemma rl2_of_timestep_Some (action_dim : nat) (time_step : Z)
  (action : option ndarray) (reward : option Qc) (rl2 : T3) (pad : Qc) :
  rl2_of_timestep action_dim time_step action reward = Some rl2 →
  state_mask_of pad rl2 = [[[1]]]
  ∧ (∃ row, rl2 = [[ [float_of_bool (bool_decide (time_step = 0)%Z);
                      (if bool_decide (time_step = 0)%Z then 0
                       else default 0 reward);
                      qz time_step] ++ row ]]
          ∧ (time_step = 0%Z → row = replicate action_dim (qz (-2)))
          ∧ (time_step ≠ 0%Z → action = Some (Nd2 [row]))).
Proof.
  unfold rl2_of_timestep. intros Hr.
  case_bool_decide as Ht.
  - injection Hr as <-. subst time_step. split.
    + unfold state_mask_of, map2. simpl.
      destruct (bool_decide (1 = pad)) eqn:H1; [|done].
      apply bool_decide_eq_true in H1 as <-. done.
    + eexists. split; [reflexivity|]. split; [done|]. by intros [].
  - destruct action as [[t|t]|], reward as [r|]; simpl in Hr; try done.
    destruct t as [|row [|? ?]]; try done. injection Hr as <-.
    split.
    + unfold state_mask_of, map2. simpl.
      destruct (bool_decide (0 = pad)) eqn:H0; [|done].
      apply bool_decide_eq_true in H0 as <-.
      destruct (bool_decide (r = 0)); simpl; [|done].
      rewrite bool_decide_eq_false_2; [done|].
      intros Hz. apply Ht. apply qz_inj. rewrite Hz. by apply Qc_is_canon.
    + eexists. split; [reflexivity|]. split; [done|]. done.
Qed.

Section buffer_props.
Context {O Buf : Type}.

(** A call of [add_data_to_sequence_buffer] that returns has added one
    timestep to each of the three buffers, all with the same [done]
    flag: the observation under the key ["observation"], a zero goal,
    and an rl2 row made of the reset flag, the reward, the time step
    and the action.  On the first time step the row is
    [1, 0, 0, -2, ..., -2] whatever action and reward are passed; later
    it is [0, reward, time_step] followed by the action.  In either
    case the row is never all padding, for any padding value: the
    state mask of the timestep is 1. *)
Theorem rl2_timestep_never_padding
  (add_timestep : Buf → payload O → list (list bool) → Buf) (a : agent)
  (obs : O) (time_step : Z) (done : bool) (obs_sequence goal_sequence
  rl2_sequence : Buf) (action : option ndarray) (reward : option Qc)
  (out : Buf * Buf * Buf) (pad : Qc) :
  add_data_to_sequence_buffer add_timestep a obs time_step done obs_sequence
    goal_sequence rl2_sequence action reward = Some out →
  ∃ row,
    let rl2 := [[ [float_of_bool (bool_decide (time_step = 0)%Z);
                   (if bool_decide (time_step = 0)%Z then 0
                    else default 0 reward);
                   qz time_step] ++ row ]] in
    out = (add_timestep obs_sequence (PObs {[ "observation" := [[obs]] ]}) [[done]],
           add_timestep goal_sequence (PGoal [[[[0]]]]) [[done]],
           add_timestep rl2_sequence (PRl2 rl2) [[done]])
    ∧ state_mask_of pad rl2 = [[[1]]]
    ∧ (time_step = 0%Z → row = replicate (action_dim a) (qz (-2)))
    ∧ (time_step ≠ 0%Z → action = Some (Nd2 [row]) ∧ is_Some reward).
Proof.
  unfold add_data_to_sequence_buffer. intros Hout.
  destruct (rl2_of_timestep (action_dim a) time_step action reward) as [rl2|]
    eqn:Hrl2; [|done].
  injection Hout as <-.
  destruct (rl2_of_timestep_Some _ _ _ _ _ pad Hrl2)
    as (Hmask & row & -> & H0 & Hn0).
  exists row. cbn zeta. split; [done|]. split; [exact Hmask|].
  split; [exact H0|]. intros Ht. split; [by apply Hn0|].
  unfold rl2_of_timestep in Hrl2. rewrite bool_decide_eq_false_2 in Hrl2 by done.
  destruct action as [act|]; [|done]. by destruct reward.
Qed.

End buffer_props.

Lemma rl2_timestep_never_padding_witness :
  ∃ row,
    add_data_to_sequence_buffer (O:=nat) (Buf:=list (payload nat))
      (λ b p _, b ++ [p]) (demo_agent 1 true false) 7%nat 3 false [] [] []
      (Some (Nd2 [[qz 2; 0]])) (Some 0)
    = Some ([PObs {[ "observation" := [[7%nat]] ]}], [PGoal [[[[0]]]]],
            [PRl2 [[ [0; 0; qz 3] ++ row ]]])
    ∧ state_mask_of 0 [[ [0; 0; qz 3] ++ row ]] = [[[1]]].
Proof.
  destruct (rl2_timestep_never_padding (O:=nat) (Buf:=list (payload nat))
              (λ b p _, b ++ [p]) (demo_agent 1 true false) 7%nat 3 false
              [] [] [] (Some (Nd2 [[qz 2; 0]])) (Some 0)
              ([PObs {[ "observation" := [[7%nat]] ]}], [PGoal [[[[0]]]]],
               [PRl2 [[ [0; 0; qz 3; qz 2; 0] ]]]) 0 eq_refl)
    as (row & Hout & Hmask & _).
  exists row. cbn zeta in Hout, Hmask. split; [|exact Hmask].
  exact (eq_trans eq_refl (f_equal Some (eq_trans Hout eq_refl))).
Defined.

(** ** The epoch loop *)


Lemma learn_bind_inr {A B} (m : learn_exn + A) (f : A → learn_exn + B) y :
  (m ≫= f) = inr y → ∃ x, m = inr x ∧ f x = inr y.
Proof. destruct m as [e|x]; [done|]. intros Hf. by exists x. Qed.

Lemma mod_is_zero_inr a b r :
  mod_is_zero a b = inr r → b ≠ 0%Z ∧ r = bool_decide (a `mod` b = 0)%Z.
Proof. unfold mod_is_zero. case_decide; [done|]. by intros [= <-]. Qed.

Lemma mod_is_zero_ne a b :
  b ≠ 0%Z → mod_is_zero a b = inr (bool_decide (a `mod` b = 0)%Z).
Proof. intros Hb. unfold mod_is_zero. by rewrite decide_False. Qed.

Lemma train_loop_spec cfg epoch k n :
  (log_interval cfg ≠ 0%Z →
   ∃ ev, train_loop cfg epoch k n = inr ev
     ∧ filter is_train_step ev
       = (λ i : nat,
            let total := (epoch * train_grad_updates_per_epoch cfg + Z.of_nat i)%Z in
            LTrainStep total (bool_decide (total `mod` log_interval cfg = 0)%Z))
         <$> seq k n
     ∧ Forall (λ e, is_train_step e = true ∨ e = LLog "train-update") ev)
  ∧ (log_interval cfg = 0%Z → (0 < n)%nat →
     train_loop cfg epoch k n = inl ZeroDivisionError).
Proof.
  split.
  - intros Hne. revert k. induction n as [|n IH]; intros k.
    + exists []. split; [done|]. split; [done|constructor].
    + destruct (IH (S k)) as (ev & Hev & Hf & Hall).
      cbn [train_loop]. rewrite mod_is_zero_ne by done.
      cbn [mbind learn_bind]. rewrite Hev.
      eexists. split; [reflexivity|]. split.
      * rewrite filter_cons_True by done. rewrite <- cons_seq, fmap_cons.
        f_equal. rewrite filter_app, Hf.
        case_bool_decide; [|done].
        rewrite filter_cons_False by (simpl; tauto). done.
      * constructor; [by left|]. apply Forall_app. split; [|done].
        case_bool_decide; [apply Forall_singleton; by right | constructor].
  - intros Hz Hn. destruct n as [|n]; [lia|]. simpl.
    unfold mod_is_zero. by rewrite decide_True.
Qed.


Lemma filter_none {A} (P : A → bool) (l : list A) :
  Forall (λ e, P e = false) l → filter P l = [].
Proof.
  induction 1 as [|x l Hx _ IH]; [done|].
  rewrite filter_cons_False by (rewrite Hx; simpl; tauto). done.
Qed.

Lemma val_steps_Forall (P : learn_event → Prop) n :
  P LValStep → P (LLog "val-update") →
  Forall P (mjoin (replicate n [LValStep; LLog "val-update"])).
Proof. intros H1 H2. induction n as [|n IH]; simpl; repeat constructor; done. Qed.

(** An epoch with no saved training trajectory, or one before
    [start_learning_at_epoch], is skipped as a whole: after the
    interaction with the environments and the new data loaders the loop
    goes on to the next epoch.  No gradient step is taken, nothing is
    validated, the buffer is not filtered, no checkpoint is written and
    [self.epoch] keeps its value.  With [val_interval] zero the epoch
    fails on the division instead. *)
Theorem learn_epoch_skipped (cfg : learn_config) (w : epoch_world)
  (st : learn_state) (epoch : Z) :
  (train_trajectories w = 0 ∨ epoch < start_learning_at_epoch cfg)%Z →
  (val_interval cfg = 0%Z → learn_epoch cfg w st epoch = inl ZeroDivisionError)
  ∧ (val_interval cfg ≠ 0%Z →
     ∃ ev, learn_epoch cfg w st epoch = inr (st, ev)
       ∧ Forall (λ e, e ∈ [LLoadCheckpoint; LPolicyEval; LEvaluateVal;
                           LCollectNewTrainingData; LWaitForEveryone;
                           LInitDloaders; LPolicyTrain; LWarnSkip epoch]) ev).
Proof.
  intros Hskip. unfold learn_epoch. split.
  - intros Hz. unfold mod_is_zero. by rewrite decide_True.
  - intros Hne. rewrite mod_is_zero_ne by done. cbn [mbind learn_bind].
    assert (∀ ev : list learn_event, ∃ ev',
      (if bool_decide (train_trajectories w = 0)%Z
       then inr (st, ev ++ [LWarnSkip epoch])
       else if bool_decide (epoch < start_learning_at_epoch cfg)%Z
            then inr (st, ev)
            else train_loop cfg epoch 0 (train_batches w) ≫= λ train,
                 (if bool_decide (epoch `mod` val_interval cfg = 0)%Z
                     && bool_decide (0 < val_trajectories w)%Z
                  then val_block
                         {| self_epoch := self_epoch st;
                            loss_dict_bound :=
                              loss_dict_bound st
                              || bool_decide (0 < train_batches w)%nat |} w
                  else inr ({| self_epoch := self_epoch st;
                               loss_dict_bound :=
                                 loss_dict_bound st
                                 || bool_decide (0 < train_batches w)%nat |}, []))
                 ≫= λ val, end_of_epoch cfg w epoch val.1 ≫= λ fin,
                    inr (fin.1, ev ++ train ++ [LWaitForEveryone] ++ val.2 ++ fin.2))
      = inr (st, ev') ∧ (ev' = ev ∨ ev' = ev ++ [LWarnSkip epoch])) as Hcase.
    { intros ev. case_bool_decide as Ht.
      - eexists. split; [reflexivity|]. by right.
      - rewrite bool_decide_eq_true_2 by (destruct Hskip; [done|lia]).
        eexists. split; [reflexivity|]. by left. }
    match goal with |- ∃ ev, (if _ then inr (st, ?e ++ _) else _) = _ ∧ _ =>
      destruct (Hcase e) as (ev' & Heq & Hev') end.
    exists ev'. split; [exact Heq|].
    assert (Hhead : Forall (λ e, e ∈ [LLoadCheckpoint; LPolicyEval; LEvaluateVal;
                           LCollectNewTrainingData; LWaitForEveryone;
                           LInitDloaders; LPolicyTrain; LWarnSkip epoch])
             (((if always_load_latest_ckpt cfg then [LLoadCheckpoint] else [])
               ++ [LPolicyEval])
              ++ (if bool_decide (epoch `mod` val_interval cfg = 0)%Z
                  then [LEvaluateVal] else [])
              ++ (if bool_decide (start_collecting_at_epoch cfg ≤ epoch)%Z
                  then [LCollectNewTrainingData] else [])
              ++ [LWaitForEveryone; LInitDloaders; LPolicyTrain])).
    { destruct (always_load_latest_ckpt cfg); repeat case_bool_decide; simpl;
        repeat (apply Forall_cons; split; [solve [repeat constructor]|]);
        apply Forall_nil_2. }
    destruct Hev' as [-> | ->]; [done|].
    apply Forall_app. split; [done|]. apply Forall_singleton.
    solve [repeat constructor].
Qed.

Lemma learn_epoch_skipped_witness :
  ∃ ev, learn_epoch demo_learn_config (demo_world 0) demo_learn_state 0
        = inr (demo_learn_state, ev)
      ∧ Forall (λ e, e ∈ [LLoadCheckpoint; LPolicyEval; LEvaluateVal;
                          LCollectNewTrainingData; LWaitForEveryone;
                          LInitDloaders; LPolicyTrain; LWarnSkip 0]) ev.
Proof.
  refine (proj2 (learn_epoch_skipped demo_learn_config (demo_world 0)
                   demo_learn_state 0 (or_intror _)) _).
  - reflexivity.
  - discriminate.
Defined.

Lemma val_block_inr st w st' ev :
  val_block st w = inr (st', ev) →
  self_epoch st' = self_epoch st
  ∧ Forall (λ e, is_train_step e = false) ev
  ∧ Forall (λ e, is_save e = false) ev
  ∧ LSetEpoch (self_epoch st) ∉ ev.
Proof.
  unfold val_block. destruct (_ || _); [|done]. intros [= <- <-].
  split; [done|]. split; [|split].
  - apply Forall_cons. split; [done|]. apply Forall_app.
    split; [by apply val_steps_Forall | by repeat constructor].
  - apply Forall_cons. split; [done|]. apply Forall_app.
    split; [by apply val_steps_Forall | by repeat constructor].
  - rewrite not_elem_of_cons, not_elem_of_app. split; [done|]. split.
    + intros Hin. eapply (Forall_forall (λ e, e ≠ LSetEpoch (self_epoch st))) in Hin;
        [done|]. by apply val_steps_Forall.
    + rewrite !not_elem_of_cons. repeat split; try done. apply not_elem_of_nil.
Qed.

Lemma end_of_epoch_inr cfg w epoch st st' ev :
  end_of_epoch cfg w epoch st = inr (st', ev) →
  self_epoch st' = epoch ∧ ckpt_interval cfg ≠ 0%Z
  ∧ Forall (λ e, is_train_step e = false) ev
  ∧ filter is_save ev
    = (if bool_decide (epoch `mod` ckpt_interval cfg = 0)%Z
       then [LSaveCheckpoint false] else [])
      ++ (if save_latest_ckpt cfg then [LSaveCheckpoint true] else [])
  ∧ LSetEpoch epoch ∈ ev.
Proof.
  unfold end_of_epoch. intros Hend.
  apply learn_bind_inr in Hend as (save & Hsave & Hend).
  apply mod_is_zero_inr in Hsave as [Hne ->]. injection Hend as <- <-.
  split; [done|]. split; [done|]. split; [|split].
  - destruct (_ && is_main_process w), (save_latest_ckpt cfg);
      case_bool_decide; by repeat constructor.
  - destruct (_ && is_main_process w), (save_latest_ckpt cfg);
      case_bool_decide; reflexivity.
  - rewrite elem_of_app. right. do 2 right. left.
Qed.

Lemma learn_epoch_sets_epoch cfg w st st' epoch ev :
  train_trajectories w ≠ 0%Z → (start_learning_at_epoch cfg ≤ epoch)%Z →
  learn_epoch cfg w st epoch = inr (st', ev) → self_epoch st' = epoch.
Proof.
  intros Htraj Hlearn. unfold learn_epoch. intros Hep.
  apply learn_bind_inr in Hep as (is_val & Hval & Hep).
  rewrite bool_decide_eq_false_2 in Hep by done.
  rewrite bool_decide_eq_false_2 in Hep by lia.
  apply learn_bind_inr in Hep as (train & Htrain & Hep).
  apply learn_bind_inr in Hep as ([stv evv] & Hvb & Hep).
  apply learn_bind_inr in Hep as ([stf evf] & Hfin & Hep).
  injection Hep as <- <-. cbn [fst snd] in *.
  by apply end_of_epoch_inr in Hfin as (Hse & _).
Qed.

(** An epoch that is not skipped and runs to its end takes one gradient
    step per batch of the loader, numbered
    [epoch * train_grad_updates_per_epoch + train_step], each a log step
    exactly when its number is a multiple of [log_interval]; it sets
    [self.epoch] to the epoch; and it writes the epoch checkpoint when
    the epoch is a multiple of [ckpt_interval], then the LATEST
    checkpoint when [save_latest_ckpt] is set, and no other.  For the
    epoch to run to its end the three intervals cannot be zero (the log
    interval only if there is a batch). *)
Theorem learn_epoch_completed (cfg : learn_config) (w : epoch_world)
  (st st' : learn_state) (epoch : Z) (ev : list learn_event) :
  train_trajectories w ≠ 0%Z → (start_learning_at_epoch cfg ≤ epoch)%Z →
  learn_epoch cfg w st epoch = inr (st', ev) →
  self_epoch st' = epoch
  ∧ val_interval cfg ≠ 0%Z ∧ ckpt_interval cfg ≠ 0%Z
  ∧ ((0 < train_batches w)%nat → log_interval cfg ≠ 0%Z)
  ∧ filter is_train_step ev
    = (λ i : nat,
         let total := (epoch * train_grad_updates_per_epoch cfg + Z.of_nat i)%Z in
         LTrainStep total (bool_decide (total `mod` log_interval cfg = 0)%Z))
      <$> seq 0 (train_batches w)
  ∧ filter is_save ev
    = (if bool_decide (epoch `mod` ckpt_interval cfg = 0)%Z
       then [LSaveCheckpoint false] else [])
      ++ (if save_latest_ckpt cfg then [LSaveCheckpoint true] else [])
  ∧ LSetEpoch epoch ∈ ev.
Proof.
  intros Htraj Hlearn. unfold learn_epoch. intros Hep.
  apply learn_bind_inr in Hep as (is_val & Hval & Hep).
  apply mod_is_zero_inr in Hval as [Hvne ->].
  rewrite bool_decide_eq_false_2 in Hep by done.
  rewrite bool_decide_eq_false_2 in Hep by lia.
  apply learn_bind_inr in Hep as (train & Htrain & Hep).
  apply learn_bind_inr in Hep as ([stv evv] & Hvb & Hep).
  apply learn_bind_inr in Hep as ([stf evf] & Hfin & Hep).
  injection Hep as <- <-. cbn [fst snd] in *.
  apply end_of_epoch_inr in Hfin as (Hse & Hcne & Hfin_tr & Hfin_sv & Hfin_set).
  assert (Hlog : (0 < train_batches w)%nat → log_interval cfg ≠ 0%Z).
  { intros Hn Hz.
    rewrite (proj2 (train_loop_spec cfg epoch 0 (train_batches w)) Hz Hn) in Htrain.
    done. }
  assert (Htr : filter is_train_step train
                = (λ i : nat,
                     let total := (epoch * train_grad_updates_per_epoch cfg
                                   + Z.of_nat i)%Z in
                     LTrainStep total
                       (bool_decide (total `mod` log_interval cfg = 0)%Z))
                  <$> seq 0 (train_batches w)
                ∧ Forall (λ e, is_save e = false) train).
  { destruct (decide (log_interval cfg = 0%Z)) as [Hz|Hnz].
    - destruct (train_batches w) as [|n] eqn:Hn.
      + simpl in Htrain. injection Htrain as <-. done.
      + exfalso. apply Hlog; [lia | done].
    - destruct (proj1 (train_loop_spec cfg epoch 0 (train_batches w)) Hnz)
        as (ev' & Hev' & Hf & Hall).
      rewrite Hev' in Htrain. injection Htrain as <-. split; [done|].
      eapply Forall_impl; [exact Hall|]. intros e [He| ->]; [|done].
      by destruct e. }
  destruct Htr as [Htr Htr_sv].
  assert (Hvb' : Forall (λ e, is_train_step e = false) evv
                 ∧ Forall (λ e, is_save e = false) evv).
  { destruct (_ && _) in Hvb.
    - apply val_block_inr in Hvb as (_ & ? & ? & _). done.
    - injection Hvb as <- <-. split; constructor. }
  destruct Hvb' as [Hv_tr Hv_sv].
  set (ev1 := (_ ++ [LPolicyEval]) ++ _ ++ _ ++ [LWaitForEveryone; LInitDloaders; LPolicyTrain]).
  assert (Hev1 : Forall (λ e, is_train_step e = false) ev1
                 ∧ Forall (λ e, is_save e = false) ev1).
  { unfold ev1. destruct (always_load_latest_ckpt cfg);
      repeat case_bool_decide; split; by repeat constructor. }
  destruct Hev1 as [H1_tr H1_sv].
  split; [done|]. split; [done|]. split; [done|]. split; [done|].
  split; [|split].
  - rewrite !filter_app, (filter_none _ _ H1_tr), Htr.
    rewrite filter_cons_False by (simpl; tauto).
    rewrite ?filter_nil, !filter_app, (filter_none _ _ Hv_tr),
      (filter_none _ _ Hfin_tr).
    by rewrite !app_nil_r.
  - rewrite !filter_app, (filter_none _ _ H1_sv), (filter_none _ _ Htr_sv).
    rewrite filter_cons_False by (simpl; tauto).
    rewrite ?filter_nil, !filter_app, (filter_none _ _ Hv_sv), Hfin_sv. done.
  - rewrite !elem_of_app. do 2 right. rewrite elem_of_cons, elem_of_app. auto.
Qed.

Lemma demo_learn_epoch :
  ∃ st', learn_epoch demo_learn_config (demo_world 2) demo_learn_state 2
         = inr (st', demo_epoch_events).
Proof. eexists. vm_compute. reflexivity. Qed.

Lemma learn_epoch_completed_witness :
  filter is_train_step demo_epoch_events
  = [LTrainStep 4 true; LTrainStep 5 false]
  ∧ filter is_save demo_epoch_events
    = [LSaveCheckpoint false; LSaveCheckpoint true].
Proof.
  destruct demo_learn_epoch as [st' Hep].
  destruct (learn_epoch_completed demo_learn_config (demo_world 2)
              demo_learn_state st' 2 demo_epoch_events)
    as (_ & _ & _ & _ & Htr & Hsv & _).
  - discriminate.
  - vm_compute. discriminate.
  - exact Hep.
  - split; [exact Htr | exact Hsv].
Defined.

(** ** Starting [learn] again *)

Lemma learn_epochs_last cfg world l :
  ∀ st st' ev,
    (∀ e, e ∈ l → train_trajectories (world e) ≠ 0%Z
                  ∧ (start_learning_at_epoch cfg ≤ e)%Z) →
    learn_epochs cfg world st l = inr (st', ev) →
    self_epoch st' = default (self_epoch st) (last l).
Proof.
  induction l as [|e l IH]; intros st st' ev Hall Hl.
  - by injection Hl as <- <-.
  - cbn [learn_epochs] in Hl.
    apply learn_bind_inr in Hl as ([st1 ev1] & Hep & Hl).
    apply learn_bind_inr in Hl as ([st2 ev2] & Hrest & Hl).
    injection Hl as <- <-. cbn [fst snd] in *.
    destruct (Hall e) as [Ht Hs]; [rewrite elem_of_cons; by left|].
    apply (learn_epoch_sets_epoch _ _ _ _ _ _ Ht Hs) in Hep.
    apply IH in Hrest; [|intros e' He'; apply Hall; rewrite elem_of_cons; by right].
    rewrite Hrest, Hep. destruct l as [|z l]; [reflexivity|].
    change (last (e :: z :: l)) with (last (z :: l)).
    destruct (proj2 (last_is_Some (z :: l))) as [x ->]; [done|]. reflexivity.
Qed.

(** [learn] leaves [self.epoch] at the last epoch it ran, not at the
    next one.  So when a run whose epochs all trained is over,
    [self.epoch] is [epochs - 1], and a second call of [learn] on the
    same experiment does not return at once: it runs the last epoch
    again, and only that one. *)
Theorem learn_rerun_repeats_last_epoch (cfg : learn_config)
  (world world' : Z → epoch_world) (e0 e_end : Z) (ev : list learn_event) :
  (e0 < cfg_epochs cfg)%Z → (start_learning_at_epoch cfg ≤ e0)%Z →
  (∀ e, (e0 ≤ e < cfg_epochs cfg)%Z → train_trajectories (world e) ≠ 0%Z) →
  learn cfg world e0 = inr (e_end, ev) →
  e_end = (cfg_epochs cfg - 1)%Z
  ∧ learn cfg world' e_end
    = (r ← learn_epoch cfg (world' e_end)
             {| self_epoch := e_end; loss_dict_bound := false |} e_end;
       inr (self_epoch r.1, r.2)).
Proof.
  intros He0 Hstart Htraj. unfold learn. intros Hl.
  apply learn_bind_inr in Hl as ([st' ev'] & Hl & Hret).
  injection Hret as <- <-. cbn [fst snd].
  apply learn_epochs_last in Hl.
  2:{ intros e [? ?]%elem_of_seqZ. split; [apply Htraj|]; lia. }
  cbn [self_epoch] in Hl.
  assert (Hlast : last (seqZ e0 (cfg_epochs cfg - e0)) = Some (cfg_epochs cfg - 1)%Z).
  { rewrite last_lookup, length_seqZ, lookup_seqZ. f_equal; lia || split; lia. }
  rewrite Hlast in Hl. change (self_epoch st' = (cfg_epochs cfg - 1)%Z) in Hl.
  rewrite Hl. split; [done|].
  replace (cfg_epochs cfg - (cfg_epochs cfg - 1))%Z with 1%Z by lia.
  change (seqZ (cfg_epochs cfg - 1) 1) with [(0 + (cfg_epochs cfg - 1))%Z].
  rewrite ?Z.add_0_l. cbn [learn_epochs].
  destruct (learn_epoch _ _ _ _) as [e|[st1 ev1]]; [reflexivity|].
  cbn [mbind learn_bind fst snd]. by rewrite app_nil_r.
Qed.

Lemma demo_learn :
  learn demo_learn_config demo_world 1 = inr (2%Z, demo_learn_events).
Proof. vm_compute. reflexivity. Qed.

Lemma learn_rerun_repeats_last_epoch_witness :
  learn demo_learn_config demo_world 2
  = (r ← learn_epoch demo_learn_config (demo_world 2)
           {| self_epoch := 2; loss_dict_bound := false |} 2;
     inr (self_epoch r.1, r.2)).
Proof.
  refine (proj2 (learn_rerun_repeats_last_epoch demo_learn_config demo_world
                   demo_world 1 2 demo_learn_events _ _ _ demo_learn)).
  - reflexivity.
  - vm_compute. discriminate.
  - intros e _. discriminate.
Defined.
